(** * datapipe: change tracking and incremental execution

    A shallow embedding of the metadata protocol ([c12n_pipe/datatable.py]),
    the change-set planner ([datapipe/core_steps.py]), the step executor
    and pipeline driver ([datapipe/compute.py]), the file-directory
    table store ([datapipe/store/filedir.py]), the database table store
    ([datapipe/store/database.py]) and the label parser of
    [datapipe/cli.py].

    Conventions.
    - Timestamps are floats (seconds since the epoch) in the source; only
      their order and equality are used, so they are integers here.
    - The true division [/] of two ints gives a double: it is computed
      as such, with its rounding, wherever the source takes
      [math.ceil(a / b)].
    - A pandas frame indexed by a primary key is a finite map from the key
      to the row; a pandas [Index] is a finite set of keys.
    - A Python exception is an explicit failure value.
    - What lies outside the sources (the database and its driver, the
      file system, [re], the functions of the user) is a parameter of
      the definitions that call it. *)

From Stdlib Require Import ZArith Lia Ascii String.
From stdpp Require Import base option gmap strings list fin_maps sorting.

(** ** Exceptions

    A call either returns a value or raises; [x ← m; k] propagates a
    raised exception as Python does outside a [try]. *)

Inductive exn : Type :=
  | AssertionError
  | ValueError
  | KeyError
  | TypeError
  | IndexError
  | ZeroDivisionError
  | NotImplementedError
  | OverflowError
  | FileNotFoundError.

Inductive result (A : Type) : Type :=
  | Ok (a : A)
  | Raise (e : exn).

Arguments Ok {A} a.
Arguments Raise {A} e.

#[global] Instance result_ret : MRet result := @Ok.
#[global] Instance result_bind : MBind result := λ A B f m,
  match m with
  | Ok a => f a
  | Raise e => Raise e
  end.
#[global] Instance exn_eq_dec : EqDecision exn.
Proof. solve_decision. Defined.

(** [assert cond] *)
Definition assert (P : Prop) `{Decision P} : result unit :=
  if decide P then Ok tt else Raise AssertionError.

(** Monadic traversal of a list, left to right. *)
Fixpoint mapR {A B : Type} (f : A → result B) (l : list A) : result (list B) :=
  match l with
  | [] => Ok []
  | x :: r => y ← f x; ys ← mapR f r; Ok (y :: ys)
  end.

(** ** c12n_pipe/datatable.py *)

Module C12n.

Local Open Scope Z_scope.

(** One data row: the values of the non-key columns, in column order. *)
Definition Row : Type := list string.

(** METADATA_SQL_SCHEMA: hash and the four timestamps. *)
Record MetaRow : Type := mkMeta {
  hash : Z;
  create_ts : Z;
  update_ts : Z;
  process_ts : Z;
  delete_ts : option Z
}.

Definition set_create_ts (v : Z) (m : MetaRow) : MetaRow :=
  mkMeta (hash m) v (update_ts m) (process_ts m) (delete_ts m).

Definition set_update_ts (v : Z) (m : MetaRow) : MetaRow :=
  mkMeta (hash m) (create_ts m) v (process_ts m) (delete_ts m).

Definition set_delete_ts (v : option Z) (m : MetaRow) : MetaRow :=
  mkMeta (hash m) (create_ts m) (update_ts m) (process_ts m) v.

(** An entry of [ds.event_logger.log_event]. *)
Record Event : Type := mkEvent {
  ev_table : string;
  added_count : nat;
  updated_count : nat;
  deleted_count : nat
}.

(** A [DataTable]: its name, the two table stores (each keyed by the
    primary key [id]) and the events it has logged to [ds.event_logger]. *)
Record DataTable : Type := mkDT {
  name : string;
  table_meta : gmap string MetaRow;
  table_data : gmap string Row;
  events : list Event
}.

(** *** The table store operations used by [DataTable]

    The [TableStore] classes of [c12n_pipe/store] are absent from the
    sources; the four operations follow the specification of the table
    store capability. *)

(** Modelled from the spec: [TableStore.read_rows], "if [idx] is
    provided, return exactly those rows in any order; if omitted, return
    all rows". *)
Definition read_rows {A : Type} (idx : option (gset string))
    (store : gmap string A) : gmap string A :=
  match idx with
  | None => store
  | Some i => filter (λ kv, kv.1 ∈ i) store
  end.

(** Modelled from the spec: [TableStore.delete_rows], "remove rows;
    missing PKs are silent no-ops". *)
Definition delete_rows {A : Type} (idx : gset string)
    (store : gmap string A) : gmap string A :=
  filter (λ kv, kv.1 ∉ idx) store.

(** Modelled from the spec: [TableStore.insert_rows], "upsert by PK". *)
Definition insert_rows {A : Type} (df store : gmap string A) : gmap string A :=
  df ∪ store.

(** Modelled from the spec: [TableStore.update_rows], "upsert by PK". *)
Definition update_rows {A : Type} (df store : gmap string A) : gmap string A :=
  df ∪ store.

(** [df.loc[idx]]: the rows of the frame at the given labels. *)
Definition loc {A : Type} (idx : gset string) (df : gmap string A) : gmap string A :=
  filter (λ kv, kv.1 ∈ idx) df.

Section DataTable.

(** [pd.util.hash_pandas_object(df.apply(lambda x: str(list(x)), axis=1))]:
    a deterministic fingerprint of the row's values. *)
Variable hash_row : Row → Z.

Definition _make_new_metadata_df (now : Z) (df : gmap string Row)
    : gmap string MetaRow :=
  (λ r, mkMeta (hash_row r) now now now None) <$> df.

(** [old_meta_df.loc[deleted_idx]] with [delete_ts] set to [now]. *)
Definition _make_deleted_meta_df (now : Z) (old_meta_df : gmap string MetaRow)
    (deleted_idx : gset string) : gmap string MetaRow :=
  set_delete_ts (Some now) <$> loc deleted_idx old_meta_df.

Definition get_metadata (dt : DataTable) (idx : option (gset string))
    : gmap string MetaRow :=
  read_rows idx (table_meta dt).

Definition get_data (dt : DataTable) (idx : option (gset string))
    : gmap string Row :=
  read_rows idx (table_data dt).

(** [common_idx[new_meta_df.loc[common_idx, 'hash'] !=
    existing_meta_df.loc[common_idx, 'hash']]] *)
Definition hash_differs (new_meta existing : gmap string MetaRow)
    (k : string) : Prop :=
  match new_meta !! k, existing !! k with
  | Some n, Some e => hash n ≠ hash e
  | _, _ => False
  end.

#[local] Instance hash_differs_dec new_meta existing k :
  Decision (hash_differs new_meta existing k).
Proof.
  unfold hash_differs.
  destruct (new_meta !! k), (existing !! k); apply _.
Defined.

Definition changed_of (new_meta existing : gmap string MetaRow)
    (common_idx : gset string) : gset string :=
  filter (hash_differs new_meta existing) common_idx.

(** The two [.loc] assignments of [store_chunk]:
    [new_meta_df.loc[changed_idx, 'create_ts'] = existing_meta_df.loc[changed_idx, 'create_ts']]
    [new_meta_df.loc[not_changed_idx, 'update_ts'] = existing_meta_df.loc[not_changed_idx, 'update_ts']] *)
Definition assign_create_ts (idx : gset string)
    (existing new_meta : gmap string MetaRow) : gmap string MetaRow :=
  map_imap (λ k m,
    Some (if decide (k ∈ idx)
          then match existing !! k with
               | Some e => set_create_ts (create_ts e) m
               | None => m
               end
          else m)) new_meta.

Definition assign_update_ts (idx : gset string)
    (existing new_meta : gmap string MetaRow) : gmap string MetaRow :=
  map_imap (λ k m,
    Some (if decide (k ∈ idx)
          then match existing !! k with
               | Some e => set_update_ts (update_ts e) m
               | None => m
               end
          else m)) new_meta.

Definition log_event (dt : DataTable) (a u d : nat) : DataTable :=
  mkDT (name dt) (table_meta dt) (table_data dt)
       (events dt ++ [mkEvent (name dt) a u d]).

Definition with_data (d : gmap string Row) (dt : DataTable) : DataTable :=
  mkDT (name dt) (table_meta dt) d (events dt).

Definition with_meta (m : gmap string MetaRow) (dt : DataTable) : DataTable :=
  mkDT (name dt) m (table_data dt) (events dt).

(** [DataTable.store_chunk(data_df, now)]; returns the table after the
    ingest and the chunk's index. *)
Definition store_chunk (dt : DataTable) (data_df : gmap string Row) (now : Z)
    : DataTable * gset string :=
  let existing_meta_df := get_metadata dt (Some (dom data_df)) in
  let new_meta_df := _make_new_metadata_df now data_df in
  let common_idx := dom existing_meta_df ∩ dom new_meta_df in
  let changed_idx := changed_of new_meta_df existing_meta_df common_idx in
  let new_idx := dom new_meta_df ∖ dom existing_meta_df in
  let dt1 :=
    if decide (0 < size new_idx ∨ 0 < size changed_idx)%nat
    then log_event dt (size new_idx) (size changed_idx) 0
    else dt in
  let to_write_idx := changed_idx ∪ new_idx in
  let dt2 := with_data (update_rows (loc to_write_idx data_df) (table_data dt1)) dt1 in
  let dt3 :=
    if decide (0 < size new_meta_df)%nat then
      let meta1 := delete_rows (dom new_meta_df) (table_meta dt2) in
      let not_changed_idx := dom existing_meta_df ∖ changed_idx in
      let new_meta1 := assign_create_ts changed_idx existing_meta_df new_meta_df in
      let new_meta2 := assign_update_ts not_changed_idx existing_meta_df new_meta1 in
      with_meta (insert_rows new_meta2 meta1) dt2
    else dt2 in
  (dt3, dom data_df).

(** [DataTable.sync_meta(chunks, processed_idx)] *)
Definition sync_meta (dt : DataTable) (chunks : list (gset string))
    (processed_idx : option (gset string)) : DataTable :=
  let idx := foldl (λ acc chunk, acc ∪ chunk) ∅ chunks in
  let existing_meta_df := get_metadata dt processed_idx in
  let deleted_idx := dom existing_meta_df ∖ idx in
  if decide (0 < size deleted_idx)%nat then
    let dt1 := log_event dt 0 0 (size deleted_idx) in
    let dt2 := with_data (delete_rows deleted_idx (table_data dt1)) dt1 in
    with_meta (delete_rows deleted_idx (table_meta dt2)) dt2
  else dt.

(** [DataTable.store(df)]: ingest one chunk and sync against it. *)
Definition store (dt : DataTable) (df : gmap string Row) (now : Z) : DataTable :=
  let '(dt1, chunk) := store_chunk dt df now in
  sync_meta dt1 [chunk] None.

(** [DataTable.get_data_chunked(chunksize)]: the frames the generator
    yields.  [range(0, n, chunksize)] raises [ValueError] for a step of
    zero and is empty for a negative one; the order of [meta_df.index] is
    the order in which the store returns its rows, here the order of
    [elements]. *)
Definition get_data_chunked (dt : DataTable) (chunksize : Z)
    : result (list (gmap string Row)) :=
  let index := elements (dom (get_metadata dt None)) in
  if decide (chunksize = 0) then Raise ValueError
  else if decide (chunksize < 0) then Ok []
  else
    let c := Z.to_nat chunksize in
    Ok ((λ i : nat, get_data dt (Some (list_to_set (take c (drop (i * c)%nat index)))))
          <$> seq 0 ((length index + c - 1) `div` c)%nat).

(** [DataTable.get_indexes(idx)] *)
Definition get_indexes (dt : DataTable) (idx : option (gset string))
    : list string :=
  elements (dom (get_metadata dt idx)).

(** [gen_process(dt, proc_func)], which is [gen_process_many] with the
    single table [dt]: every frame of the iterable is ingested with
    [store_chunk], then the table is synced against the chunks.  The
    iterable is given by its frames, each with the reading of the clock
    that its [store_chunk] takes; a [proc_func] that is no generator
    function gives one frame. *)
Definition gen_process (dt : DataTable) (iterable : list (gmap string Row * Z))
    : DataTable :=
  let '(dt1, chunks_k) :=
    foldl (λ acc chunk_df,
             let '(dt', chunk) := store_chunk acc.1 chunk_df.1 chunk_df.2 in
             (dt', acc.2 ++ [chunk]))
          (dt, []) iterable in
  sync_meta dt1 chunks_k None.

End DataTable.

End C12n.

(** ** Frames and change lists shared by the planner and the executor *)

(** The key columns of one row: column name to value.  A column whose
    value is SQL [NULL] is absent from the map. *)
Abbreviation KeyRow := (gmap string Z).

(** [IndexDF]: a frame that holds key columns only. *)
Record IndexDF : Type := mkIdx {
  columns : list string;
  rows : list KeyRow
}.

#[global] Instance IndexDF_eq_dec : EqDecision IndexDF.
Proof. solve_decision. Defined.

(** Modelled from the spec: [datapipe.types.ChangeList], which the
    [types.py] of the sources does not define.  "An accumulator mapping
    table name → index frame (set of PK tuples). Supports [append(name,
    idx)] (union-ing rows for a given name), [extend(other)], and
    [is_empty]." *)
Record ChangeList : Type := mkCL {
  changes : gmap string IndexDF
}.

Definition ChangeList_new : ChangeList := mkCL ∅.

Definition ChangeList_append (cl : ChangeList) (table_name : string)
    (idx : IndexDF) : ChangeList :=
  match changes cl !! table_name with
  | Some old =>
      mkCL (<[table_name := mkIdx (columns old) (list_union (rows old) (rows idx))]>
              (changes cl))
  | None => mkCL (<[table_name := idx]> (changes cl))
  end.

Definition ChangeList_extend (cl other : ChangeList) : ChangeList :=
  foldl (λ acc kv, ChangeList_append acc kv.1 kv.2) cl
        (map_to_list (changes other)).

Definition ChangeList_empty (cl : ChangeList) : bool :=
  bool_decide (changes cl = ∅).

(** Modelled from the spec: [RunConfig] ([datapipe/run_config.py] is absent
    from the sources), "a per-run dictionary of [{column_name:
    value}] filters". *)
Record RunConfig : Type := mkRC {
  rc_filters : gmap string Z
}.

(** ** SQL values and three-valued logic *)

Module Sql.

Local Open Scope Z_scope.

(** A truth value of SQL: [None] is UNKNOWN. *)
Definition tv : Type := option bool.

Definition and3 (a b : tv) : tv :=
  match a, b with
  | Some false, _ | _, Some false => Some false
  | Some true, Some true => Some true
  | _, _ => None
  end.

Definition or3 (a b : tv) : tv :=
  match a, b with
  | Some true, _ | _, Some true => Some true
  | Some false, Some false => Some false
  | _, _ => None
  end.

(** SQLAlchemy's [and_] over a list of clauses. *)
Definition and_ (l : list tv) : tv := foldr and3 (Some true) l.

(** [a == b], [a > b], [a != True], [a == None] (rendered [IS NULL]). *)
Definition eq3 (a b : option Z) : tv :=
  match a, b with
  | Some x, Some y => Some (bool_decide (x = y))
  | _, _ => None
  end.

Definition gt3 (a b : option Z) : tv :=
  match a, b with
  | Some x, Some y => Some (bool_decide (x > y))
  | _, _ => None
  end.

Definition is_true3 (a : option bool) : tv :=
  match a with
  | Some b => Some b
  | None => None
  end.

Definition is_not_true3 (a : option bool) : tv :=
  match a with
  | Some b => Some (negb b)
  | None => None
  end.

Definition is_null {A : Type} (a : option A) : tv :=
  match a with
  | Some _ => Some false
  | None => Some true
  end.

(** A [WHERE] or [ON] clause keeps a row only when it evaluates to TRUE. *)
Definition holds (a : tv) : bool :=
  match a with
  | Some true => true
  | _ => false
  end.

(** [coalesce(x1, ..., xn)]: the first argument that is not NULL. *)
Fixpoint coalesce {A : Type} (l : list (option A)) : option A :=
  match l with
  | [] => None
  | Some x :: _ => Some x
  | None :: r => coalesce r
  end.

(** The aggregate [max(col)] over the rows of a group: NULL for no row. *)
Definition max_agg (l : list Z) : option Z :=
  match l with
  | [] => None
  | x :: r => Some (foldr Z.max x r)
  end.

(** PostgreSQL [GREATEST(x1, ..., xn)]: NULL arguments are ignored; the
    result is NULL only when every argument is NULL. *)
Definition greatest (l : list (option Z)) : option Z :=
  max_agg (omap id l).

(** SQLite scalar [max(x1, ..., xn)] with two or more arguments: NULL as
    soon as one argument is NULL. *)
Definition sqlite_max (l : list (option Z)) : option Z :=
  if bool_decide (Forall is_Some l) then max_agg (omap id l) else None.

(** [L FULL OUTER JOIN R ON on]: the matching pairs, then the rows of [L]
    without a match, then the rows of [R] without a match; the missing
    side is NULL ([None]). *)
Definition full_outer_join {A B : Type} (on : A → B → bool)
    (L : list A) (R : list B) : list (option A * option B) :=
  flat_map (λ l, (λ r, (Some l, Some r)) <$> filter (λ r, on l r) R) L
  ++ ((λ l, (Some l, None)) <$> filter (λ l, forallb (λ r, negb (on l r)) R) L)
  ++ ((λ r, (None, Some r)) <$> filter (λ r, forallb (λ l, negb (on l r)) L) R).

End Sql.

(** ** datapipe/core_steps.py: [BaseBatchTransformStep] *)

Module Planner.

Local Open Scope Z_scope.

(** A [sqlalchemy.Column] of a primary schema: its name and its type. *)
Record Column : Type := mkCol {
  col_name : string;
  col_type : string
}.

(** One row of a row-meta table [<table>_meta]. *)
Record MetaRecord : Type := mkMR {
  mr_key : KeyRow;
  mr_hash : Z;
  mr_create_ts : Z;
  mr_update_ts : Z;
  mr_process_ts : Z;
  mr_delete_ts : option Z
}.

(** Modelled from the spec: [MetaTable] ([datapipe/metastore.py] is absent
    from the sources) as far as the planner reads it: the declared
    primary-key columns and the rows of its SQL table, "a sidecar logical
    table named [<table>_meta] with schema [{pk..., hash, create_ts,
    update_ts, process_ts, delete_ts}]". *)
Record MetaTable : Type := mkMT {
  primary_schema : list Column;
  sql_table : list MetaRecord
}.

Definition primary_keys (mt : MetaTable) : list string :=
  col_name <$> primary_schema mt.

Record DataTable : Type := mkDT {
  name : string;
  meta_table : MetaTable
}.

(** Modelled from the spec: a row of [TransformMetaTable], "keyed by the
    step's transform keys, storing: [process_ts] (float), [is_success]
    (bool), [error] (nullable string), [priority] (int)". *)
Record TransformMetaRow : Type := mkTR {
  tr_key : KeyRow;
  tr_process_ts : Z;
  tr_is_success : bool;
  tr_priority : Z;
  tr_error : option string
}.

(** [ds.meta_dbconn.con.driver] is all the planner reads of the store. *)
Record DataStore : Type := mkDS {
  driver : string
}.

Record BaseBatchTransformStep : Type := mkStep {
  input_dts : list DataTable;
  output_dts : list DataTable;
  transform_keys : list string;
  transform_schema : list Column;
  chunk_size : Z;
  filters : option (gmap string Z);
  (** the rows of [self.meta_table.sql_table] *)
  tr_meta_rows : list TransformMetaRow
}.

(** *** [compute_transform_schema] *)

(** The dict comprehension [{col.name: col for col in chain(...)}]: a later
    column of the same name replaces an earlier one. *)
Definition all_keys_of (input_mts output_mts : list MetaTable)
    : gmap string Column :=
  foldl (λ acc col, <[col_name col := col]> acc) ∅
        (concat (primary_schema <$> (input_mts ++ output_mts))).

(** [[all_keys[k] for k in ks]] *)
Definition lookup_cols (all_keys : gmap string Column) (ks : list string)
    : result (list Column) :=
  mapR (λ k, match all_keys !! k with
             | Some c => Ok c
             | None => Raise KeyError
             end) ks.

(** [set.intersection] applied to an unpacked list of sets; with no
    argument at all the unbound method raises [TypeError]. *)
Definition set_intersection (sets : list (gset string)) : result (gset string) :=
  match sets with
  | [] => Raise TypeError
  | s :: r => Ok (foldl (∩) s r)
  end.

Definition pk_set (mt : MetaTable) : gset string :=
  list_to_set (primary_keys mt).

(** [list(s)] for a set [s]: the order is the set's iteration order, which
    Python leaves unspecified; [elements] fixes one. *)
Definition compute_transform_schema (input_mts output_mts : list MetaTable)
    (transform_keys : option (list string))
    : result (list string * list Column) :=
  let all_keys := all_keys_of input_mts output_mts in
  match transform_keys with
  | Some tk =>
      cols ← lookup_cols all_keys tk; Ok (tk, cols)
  | None =>
      _ ← assert (0 < length input_mts)%nat;
      inp_p_keys ← set_intersection (pk_set <$> input_mts);
      _ ← assert (0 < size inp_p_keys)%nat;
      if decide (length output_mts = 0%nat) then
        cols ← lookup_cols all_keys (elements inp_p_keys);
        Ok (elements inp_p_keys, cols)
      else
        out_p_keys ← set_intersection (pk_set <$> output_mts);
        _ ← assert (0 < size out_p_keys)%nat;
        let inp_out_p_keys := inp_p_keys ∩ out_p_keys in
        _ ← assert (0 < size inp_out_p_keys)%nat;
        cols ← lookup_cols all_keys (elements inp_out_p_keys);
        Ok (elements inp_out_p_keys, cols)
  end.

(** The parameters of [ComputeStep.__init__] ([datapipe/compute.py])
    after [self]. *)
Definition ComputeStep_init_params : list string :=
  ["name"; "input_dts"; "output_dts"; "labels"]%string.

(** A call of [ComputeStep.__init__] by keywords: Python raises
    [TypeError] for a keyword that is none of the parameters. *)
Definition ComputeStep_init (keywords : list string) : result unit :=
  if decide (Forall (λ kw, kw ∈ ComputeStep_init_params) keywords)
  then Ok tt else Raise TypeError.

(** [BaseBatchTransformStep.__init__]: it calls [ComputeStep.__init__]
    with the keyword [executor_config] on top of the four parameters,
    then [compute_transform_schema], then the constructor of the
    transform-meta table.  Modelled from the spec: [TransformMetaTable]
    ([datapipe/metastore.py] is absent from the sources);
    [existing_meta] are the rows the table of that name already holds in
    the meta store. *)
Definition BaseBatchTransformStep_init (input_dts output_dts : list DataTable)
    (transform_keys : option (list string)) (chunk_size : Z)
    (filters : option (gmap string Z))
    (existing_meta : list TransformMetaRow) : result BaseBatchTransformStep :=
  _ ← ComputeStep_init ["name"; "input_dts"; "output_dts"; "labels";
                        "executor_config"]%string;
  ks ← compute_transform_schema (meta_table <$> input_dts)
                                (meta_table <$> output_dts) transform_keys;
  Ok (mkStep input_dts output_dts ks.1 ks.2 chunk_size filters existing_meta).

(** *** [_build_changed_idx_sql] *)

(** A row of an aggregate CTE: its key columns and [update_ts]. *)
Definition CteRow : Type := KeyRow * option Z.

Definition project (keys : list string) (row : KeyRow) : KeyRow :=
  filter (λ kv, kv.1 ∈ keys) row.

(** [sql_apply_runconfig_filter] ([datapipe/store/database.py]): one
    [WHERE table.c[k] == v] per filter whose column is a primary key. *)
Definition sql_apply_runconfig_filter (primary_keys : list string)
    (run_config : option RunConfig) (row : KeyRow) : bool :=
  match run_config with
  | None => true
  | Some rc =>
      bool_decide (map_Forall (λ k v, k ∈ primary_keys →
                                 Sql.holds (Sql.eq3 (row !! k) (Some v)))
                              (rc_filters rc))
  end.

(** [drop_duplicates]: keep the first occurrence. *)
Fixpoint drop_duplicates {A : Type} `{EqDecision A} (seen l : list A) : list A :=
  match l with
  | [] => []
  | x :: r =>
      if decide (x ∈ seen) then drop_duplicates seen r
      else x :: drop_duplicates (x :: seen) r
  end.

(** [GROUP BY key_cols] with the aggregate [max(update_ts)].  Without any
    key column SQLAlchemy emits no GROUP BY and the aggregate yields a
    single row, NULL over an empty table. *)
Definition group_by_max (keys : list string) (rows : list (KeyRow * Z))
    : list CteRow :=
  match keys with
  | [] => [(∅, Sql.max_agg rows.*2)]
  | _ =>
      (λ g, (g, Sql.max_agg (filter (λ r, r.1 = g) rows).*2))
        <$> drop_duplicates [] rows.*1
  end.

Definition _make_agg_cte (transform_keys : list string)
    (run_config : option RunConfig) (dt : DataTable)
    : list string * list CteRow :=
  let tbl := sql_table (meta_table dt) in
  let keys := filter (λ k, k ∈ primary_keys (meta_table dt)) transform_keys in
  let selected :=
    filter (λ r, sql_apply_runconfig_filter (primary_keys (meta_table dt))
                   run_config (mr_key r)) tbl in
  (keys, group_by_max keys ((λ r, (project keys (mr_key r), mr_update_ts r))
                              <$> selected)).

Definition greatest_func (ds : DataStore) : list (option Z) → option Z :=
  if decide (driver ds = "sqlite" ∨ driver ds = "pysqlite")
  then Sql.sqlite_max
  else Sql.greatest.

(** A row of the chain of outer joins: one slot per CTE joined so far,
    [None] where that CTE is NULL-extended. *)
Definition Joined : Type := list (option CteRow).

(** [first_cte.c[key]] in a joined row. *)
Definition first_cte_c (l : Joined) (key : string) : option Z :=
  match l with
  | Some f :: _ => f.1 !! key
  | _ => None
  end.

Definition agg_on_clause (common_transform_keys : list string)
    (l : Joined) (r : CteRow) : bool :=
  match common_transform_keys with
  | [] => true
  | _ => Sql.holds (Sql.and_ ((λ key, Sql.eq3 (first_cte_c l key) (r.1 !! key))
                                <$> common_transform_keys))
  end.

(** [sql.outerjoin(cte, onclause=..., full=True)] for the next CTE, [n]
    CTEs being joined already. *)
Definition outerjoin_cte (common_transform_keys : list string)
    (acc : nat * list Joined) (cte_rows : list CteRow) : nat * list Joined :=
  let widen p :=
    match p with
    | (Some l, Some r) => l ++ [Some r]
    | (Some l, None) => l ++ [None]
    | (None, r) => replicate acc.1 None ++ [r]
    end in
  (S acc.1,
   widen <$> Sql.full_outer_join (agg_on_clause common_transform_keys)
                                 acc.2 cte_rows).

(** The select list of the joined CTEs: per transform key the column of
    the only CTE that has it, or the [coalesce] over the CTEs that have it,
    and [greatest_func] over every CTE's [update_ts]. *)
Definition select_agg (ds : DataStore) (transform_keys : list string)
    (ctes : list (list string * list CteRow)) (l : Joined) : CteRow :=
  let key_col (key : string) : option Z :=
    Sql.coalesce
      ((λ p : (list string * list CteRow) * option CteRow,
          p.2 ≫= (λ r : CteRow, r.1 !! key))
         <$> filter (λ p : (list string * list CteRow) * option CteRow,
                       key ∈ p.1.1) (zip ctes l)) in
  (list_to_map (omap (λ key, (λ v : Z, (key, v)) <$> key_col key) transform_keys),
   greatest_func ds ((λ s : option CteRow, s ≫= snd) <$> l)).

(** The result is the list of columns the CTE exposes and its rows. *)
Definition _make_agg_of_agg (ds : DataStore) (transform_keys : list string)
    (common_transform_keys : list string)
    (ctes : list (list string * list CteRow))
    : result (list string * list CteRow) :=
  _ ← assert (0 < length ctes)%nat;
  match ctes with
  | [] => Raise AssertionError
  | [cte] => Ok cte
  | first_cte :: rest =>
      _ ← mapR (λ key, if decide (Exists (λ c, key ∈ c.1) ctes)
                       then Ok tt else Raise ValueError) transform_keys;
      let joined :=
        foldl (λ acc cte, outerjoin_cte common_transform_keys acc cte.2)
              (1%nat, (λ r, [Some r]) <$> first_cte.2) rest in
      Ok (transform_keys, select_agg ds transform_keys ctes <$> joined.2)
  end.

(** [all_input_keys_counts]: in how many input primary schemas a column
    name occurs. *)
Definition all_input_keys_counts (input_dts : list DataTable) : gmap string nat :=
  foldl (λ acc col, <[col_name col := S (default 0%nat (acc !! col_name col))]> acc)
        ∅ (concat ((λ dt, primary_schema (meta_table dt)) <$> input_dts)).

(** The [transform] CTE: [GROUP BY] the transform keys, which are the
    primary key of the transform-meta table. *)
Definition transform_cte (rows : list TransformMetaRow) : list TransformMetaRow :=
  (λ g, default (mkTR g 0 false 0 None)
          (head (filter (λ r, tr_key r = g) rows)))
    <$> drop_duplicates [] (tr_key <$> rows).

(** The WHERE clause of the planner query on a row of
    [inp FULL OUTER JOIN transform]. *)
Definition where_clause (p : option CteRow * option TransformMetaRow) : bool :=
  let update_ts := p.1 ≫= snd in
  let is_success := tr_is_success <$> p.2 in
  let process_ts := tr_process_ts <$> p.2 in
  Sql.holds
    (Sql.or3
       (Sql.or3 (Sql.and3 (Sql.is_true3 is_success) (Sql.gt3 update_ts process_ts))
                (Sql.is_not_true3 is_success))
       (Sql.is_null process_ts)).

(** [func.coalesce(inp.c[key], out.c[key]).label(key)] per transform key. *)
Definition select_keys (transform_keys : list string)
    (p : option CteRow * option TransformMetaRow) : KeyRow :=
  list_to_map
    (omap (λ key, (λ v : Z, (key, v)) <$>
             Sql.coalesce [p.1 ≫= (λ r : CteRow, r.1 !! key);
                           p.2 ≫= (λ o : TransformMetaRow, tr_key o !! key)])
          transform_keys).

(** [ORDER BY priority DESC NULLS LAST, key columns ASC].  NULL keys sort
    first on SQLite and last on PostgreSQL. *)
Definition cmp_priority (a b : option Z) : comparison :=
  match a, b with
  | Some x, Some y => y ?= x
  | None, None => Eq
  | None, Some _ => Gt
  | Some _, None => Lt
  end.

Definition cmp_key_col (nulls_first : bool) (a b : option Z) : comparison :=
  match a, b with
  | Some x, Some y => x ?= y
  | None, None => Eq
  | None, Some _ => if nulls_first then Lt else Gt
  | Some _, None => if nulls_first then Gt else Lt
  end.

Fixpoint cmp_keys (nulls_first : bool) (keys : list string) (a b : KeyRow)
    : comparison :=
  match keys with
  | [] => Eq
  | k :: r =>
      match cmp_key_col nulls_first (a !! k) (b !! k) with
      | Eq => cmp_keys nulls_first r a b
      | c => c
      end
  end.

Definition order_le (nulls_first : bool) (keys : list string)
    (a b : option Z * KeyRow) : Prop :=
  match cmp_priority a.1 b.1 with
  | Lt => True
  | Gt => False
  | Eq => cmp_keys nulls_first keys a.2 b.2 ≠ Gt
  end.

#[global] Instance order_le_dec nf keys a b : Decision (order_le nf keys a b).
Proof. unfold order_le. destruct (cmp_priority a.1 b.1); apply _. Defined.

Definition order_by (ds : DataStore) (transform_keys : list string)
    (l : list (option Z * KeyRow)) : list KeyRow :=
  (merge_sort
     (order_le (bool_decide (driver ds = "sqlite" ∨ driver ds = "pysqlite"))
               transform_keys) l).*2.

(** [_build_changed_idx_sql]: the transform keys and the statement, the
    statement being given by the rows it selects from the current tables. *)
Definition _build_changed_idx_sql (self : BaseBatchTransformStep)
    (ds : DataStore) (run_config : option RunConfig)
    : result (list string * list KeyRow) :=
  if decide (length (transform_keys self) = 0%nat) then Raise NotImplementedError
  else
    let counts := all_input_keys_counts (input_dts self) in
    _ ← set_intersection ((λ dt, pk_set (meta_table dt)) <$> output_dts self);
    _ ← assert (map_Forall (λ _ v, v = 1%nat ∨ v = length (input_dts self)) counts);
    let common_keys :=
      (map_to_list (filter (λ kv, kv.2 = length (input_dts self)) counts)).*1 in
    let common_transform_keys :=
      filter (λ k, k ∈ common_keys) (transform_keys self) in
    let inp_ctes :=
      _make_agg_cte (transform_keys self) run_config <$> input_dts self in
    inp ← _make_agg_of_agg ds (transform_keys self) common_transform_keys inp_ctes;
    let out := transform_cte (tr_meta_rows self) in
    _ ← mapR (λ key, if decide (key ∈ inp.1) then Ok tt else Raise KeyError)
             (transform_keys self);
    let on (i : CteRow) (o : TransformMetaRow) :=
      Sql.holds (Sql.and_ ((λ key, Sql.eq3 (i.1 !! key) (tr_key o !! key))
                             <$> transform_keys self)) in
    let selected := filter (λ p, where_clause p) (Sql.full_outer_join on inp.2 out) in
    Ok (transform_keys self,
        order_by ds (transform_keys self)
          ((λ p, (tr_priority <$> p.2, select_keys (transform_keys self) p))
             <$> selected)).

(** [_apply_filters_to_run_config]: the step's filters, overridden by the
    filters of the run. *)
Definition _apply_filters_to_run_config (self : BaseBatchTransformStep)
    (run_config : option RunConfig) : option RunConfig :=
  match filters self with
  | None => run_config
  | Some fs =>
      match run_config with
      | None => Some (mkRC fs)
      | Some rc => Some (mkRC (rc_filters rc ∪ fs))
      end
  end.

(** [get_changed_idx_count]: the number of rows the planner statement
    selects. *)
Definition get_changed_idx_count (self : BaseBatchTransformStep)
    (ds : DataStore) (run_config : option RunConfig) : result Z :=
  let run_config := _apply_filters_to_run_config self run_config in
  q ← _build_changed_idx_sql self ds run_config;
  Ok (Z.of_nat (length q.2)).

(** *** [math.ceil(a / b)]

    On Python ints [a / b] is the true division: the double nearest to
    the exact quotient, ties going to the even significand;
    [ZeroDivisionError] for [b = 0] and [OverflowError] when the nearest
    double is beyond the largest one.  A quotient below half of the
    smallest subnormal becomes zero. *)

(** A finite double: the pair [(m, e)] stands for [m * 2^e], with
    [|m| ≤ 2^53] and [-1074 ≤ e]. *)
Definition double : Type := (Z * Z)%type.

(** The quotient [A / (B * 2^e)] as a fraction of integers. *)
Definition scaled_num (e A : Z) : Z := if decide (0 ≤ e) then A else A * 2 ^ (- e).
Definition scaled_den (e B : Z) : Z := if decide (0 ≤ e) then B * 2 ^ e else B.

(** [a / b].  [p] is the binary exponent of the quotient, [e] the
    exponent of the last place of its double, and [m] the quotient in
    units of [2^e], rounded to the nearest integer, ties to even. *)
Definition int_true_div (a b : Z) : result double :=
  if decide (b = 0) then Raise ZeroDivisionError
  else if decide (a = 0) then Ok (0, 0)
  else
    let A := Z.abs a in
    let B := Z.abs b in
    let d := Z.log2 A - Z.log2 B in
    let p := if decide (scaled_den d B ≤ scaled_num d A) then d else d - 1 in
    let e := Z.max (p - 52) (-1074) in
    let num := scaled_num e A in
    let den := scaled_den e B in
    let m0 := num / den in
    let r := num mod den in
    let m := if decide (den < 2 * r ∨ (den = 2 * r ∧ Z.odd m0 = true))
             then m0 + 1 else m0 in
    if decide (0 ≤ e ∧ 2 ^ 1024 ≤ m * 2 ^ e) then Raise OverflowError
    else Ok (Z.sgn a * Z.sgn b * m, e).

(** [math.ceil] of a finite double, an int. *)
Definition math_ceil (x : double) : Z :=
  if decide (0 ≤ x.2) then x.1 * 2 ^ x.2 else - ((- x.1) / 2 ^ (- x.2)).

(** [math.ceil(a / b)] *)
Definition math_ceil_div (a b : Z) : result Z :=
  x ← int_true_div a b; Ok (math_ceil x).

(** Consecutive slices of at most [n] rows ([n] positive). *)
Fixpoint chunked {A : Type} (fuel n : nat) (l : list A) : list (list A) :=
  match fuel with
  | O => []
  | S fuel' =>
      match l with
      | [] => []
      | _ => take n l :: chunked fuel' n (drop n l)
      end
  end.

(** [pd.read_sql_query(sql, con, chunksize)]: the selected rows in frames
    of [chunksize] rows; a statement that selects nothing yields one
    empty frame.  The [chunksize] is one that the [fetchmany] of the
    driver takes, a C int. *)
Definition read_sql_query (cols : list string) (selected : list KeyRow)
    (chunksize : Z) : list IndexDF :=
  match selected with
  | [] => [mkIdx cols []]
  | _ => mkIdx cols <$> chunked (length selected) (Z.to_nat chunksize) selected
  end.

(** [df[k] = v]: a constant column. *)
Definition add_column (k : string) (v : Z) (df : IndexDF) : IndexDF :=
  mkIdx (if decide (k ∈ columns df) then columns df else columns df ++ [k])
        ((λ r, <[k := v]> r) <$> rows df).

(** [get_full_process_ids]: the count and the frames the generator
    yields. *)
Definition get_full_process_ids (self : BaseBatchTransformStep)
    (ds : DataStore) (chunk_size_arg : option Z) (run_config : option RunConfig)
    : result (Z * list IndexDF) :=
  let run_config := _apply_filters_to_run_config self run_config in
  let chunk_size :=
    match chunk_size_arg with
    | None => chunk_size self
    | Some c => if decide (c = 0) then chunk_size self else c
    end in
  if decide (length (input_dts self) = 0%nat) then Ok (0, [])
  else
    idx_count ← get_changed_idx_count self ds run_config;
    q ← _build_changed_idx_sql self ds run_config;
    let extra_filters : list (string * Z) :=
      match run_config with
      | Some rc => map_to_list (filter (λ kv, kv.1 ∉ q.1) (rc_filters rc))
      | None => []
      end in
    let alter_res_df :=
      (λ df, foldl (λ d kv, add_column kv.1 kv.2 d) df extra_filters)
        <$> read_sql_query q.1 q.2 chunk_size in
    n ← math_ceil_div idx_count chunk_size;
    Ok (n, alter_res_df).

(** [data_to_index(idx, keys)] is [idx[keys]]: [KeyError] for a key that
    is not a column of the frame. *)
Definition data_to_index (idx : IndexDF) (keys : list string) : result IndexDF :=
  if decide (Forall (λ k, k ∈ columns idx) keys)
  then Ok (mkIdx keys (project keys <$> rows idx))
  else Raise KeyError.

(** [idx[a:b]] on rows, for [0 ≤ a ≤ b]. *)
Definition slice_rows (a b : Z) (idx : IndexDF) : IndexDF :=
  mkIdx (columns idx) (take (Z.to_nat (b - a)) (drop (Z.to_nat a) (rows idx))).

(** [get_change_list_process_ids]: the first component and the generator;
    the generator body runs when it is consumed, so its division by
    [chunk_size] raises there. *)
Definition get_change_list_process_ids (self : BaseBatchTransformStep)
    (ds : DataStore) (change_list : ChangeList) (run_config : option RunConfig)
    : result (Z * result (list IndexDF)) :=
  listed ← mapR (λ idx, data_to_index idx (transform_keys self))
                (omap (λ inp, changes change_list !! name inp) (input_dts self));
  let idx_df := drop_duplicates [] (concat (rows <$> listed)) in
  let idx := mkIdx (transform_keys self) idx_df in
  let gen :=
    n ← math_ceil_div (Z.of_nat (length (rows idx))) (chunk_size self);
    Ok ((λ i : nat, slice_rows (Z.of_nat i * chunk_size self)
                               ((Z.of_nat i + 1) * chunk_size self) idx)
          <$> seq 0 (Z.to_nat n)) in
  Ok (Z.of_nat (length (rows idx)), gen).

(** *** [ComputeStep.validate] ([datapipe/compute.py]), inherited by the step *)

(** [{column.name: type(column.type) for dt in dts for column in
    dt.primary_schema if column.name in join_keys}]: a later column of
    the same name replaces an earlier one. *)
Definition key_to_column_type (dts : list DataTable) (join_keys : gset string)
    : gmap string string :=
  foldl (λ acc col, <[col_name col := col_type col]> acc) ∅
        (filter (λ col, col_name col ∈ join_keys)
                (concat ((λ dt, primary_schema (meta_table dt)) <$> dts))).

(** [set.intersection] of the unpacked list [arr] [if len(arr) else set()] *)
Definition intersection_or_empty (arr : list (gset string)) : gset string :=
  match arr with
  | [] => ∅
  | s :: r => foldl (∩) s r
  end.

(** [validate]: every table object is truthy, so [if inp] and [if out]
    keep all of them. *)
Definition validate (self : BaseBatchTransformStep) : result unit :=
  let inp_p_keys_arr := (λ inp, pk_set (meta_table inp)) <$> input_dts self in
  let out_p_keys_arr := (λ out, pk_set (meta_table out)) <$> output_dts self in
  let inp_p_keys := intersection_or_empty inp_p_keys_arr in
  let out_p_keys := intersection_or_empty out_p_keys_arr in
  let join_keys := inp_p_keys ∩ out_p_keys in
  let key_to_column_type_inp := key_to_column_type (input_dts self) join_keys in
  let key_to_column_type_out := key_to_column_type (output_dts self) join_keys in
  _ ← mapR (λ key,
              match key_to_column_type_inp !! key, key_to_column_type_out !! key with
              | Some ti, Some to =>
                  if decide (ti ≠ to) then Raise ValueError else Ok tt
              | _, _ => Raise KeyError
              end) (elements join_keys);
  Ok tt.

End Planner.

(** ** datapipe/compute.py: [ComputeStep] and the pipeline driver *)

Module Compute.

Local Open Scope Z_scope.

(** A data frame: per row the key columns and the data columns. *)
Definition DataDF : Type := list (KeyRow * list string).

(** [TransformResult]: one frame, or a list or tuple of frames. *)
Inductive TransformResult : Type :=
  | OneFrame (df : DataDF)
  | Frames (dfs : list DataDF).

(** Modelled from the spec: [DataTable] of [datapipe/datatable.py], which
    "pairs the store with its row-meta table": the rows of its table
    store and of its row-meta table, both keyed by the primary key.  Its
    name is the key under which the [DataStore] holds it. *)
Record DataTable : Type := mkDT {
  table_store : gmap KeyRow (list string);
  meta_table : gmap KeyRow C12n.MetaRow
}.

(** The [DataStore]: the data tables by name, the transform-meta tables of
    the meta store by step name, and what [event_logger.log_exception]
    recorded (the exception and, where the caller adds it as a label, the
    batch index). *)
Record DataStore : Type := mkDS {
  tables : gmap string DataTable;
  transform_meta : gmap string (list Planner.TransformMetaRow);
  logged_exceptions : list (exn * option IndexDF)
}.

Definition get_table (ds : DataStore) (n : string) : DataTable :=
  default (mkDT ∅ ∅) (tables ds !! n).

Definition set_table (ds : DataStore) (n : string) (dt : DataTable) : DataStore :=
  mkDS (<[n := dt]> (tables ds)) (transform_meta ds) (logged_exceptions ds).

Definition log_exception (ds : DataStore) (e : exn) (idx : IndexDF) : DataStore :=
  mkDS (tables ds) (transform_meta ds) (logged_exceptions ds ++ [(e, Some idx)]).

(** [log_exception] without the label [idx]. *)
Definition log_exception_run (ds : DataStore) (e : exn) : DataStore :=
  mkDS (tables ds) (transform_meta ds) (logged_exceptions ds ++ [(e, None)]).

(** Modelled from the spec: [TransformMetaTable.mark_rows_processed_success]
    ([datapipe/metastore.py] is absent), "upsert rows with
    [is_success=true], [error=null]": the rows of the step for the keys
    of [idx] are replaced, a key keeping the priority it had. *)
Definition mark_rows_processed_success (ds : DataStore) (step_name : string)
    (idx : IndexDF) (process_ts : Z) : DataStore :=
  let old := default [] (transform_meta ds !! step_name) in
  let priority_of (k : KeyRow) : Z :=
    default 0 (Planner.tr_priority
                 <$> head (filter (λ t, Planner.tr_key t = k) old)) in
  mkDS (tables ds)
       (<[step_name :=
            filter (λ t, Planner.tr_key t ∉ rows idx) old
            ++ ((λ k, Planner.mkTR k process_ts true (priority_of k) None)
                  <$> remove_dups (rows idx))]> (transform_meta ds))
       (logged_exceptions ds).

(** Modelled from the spec: [MetaTable.get_existing_idx]
    ([datapipe/metastore.py] is absent), "returns the subset of [idx]
    actually present with [delete_ts IS NULL]". *)
Definition is_live (meta : gmap KeyRow C12n.MetaRow) (k : KeyRow) : Prop :=
  ∃ m, meta !! k = Some m ∧ C12n.delete_ts m = None.

#[global] Instance is_live_dec meta k : Decision (is_live meta k).
Proof.
  unfold is_live. destruct (meta !! k) as [m|] eqn:E.
  - destruct (C12n.delete_ts m) eqn:D.
    + right. intros (m' & Hm & Hd). congruence.
    + left. eauto.
  - right. intros (m' & Hm & _). congruence.
Defined.

Definition get_existing_idx (meta : gmap KeyRow C12n.MetaRow) (idx : IndexDF)
    : IndexDF :=
  mkIdx (columns idx) (filter (is_live meta) (rows idx)).

(** Modelled from the spec: [MetaTable.mark_rows_deleted], "sets
    [delete_ts = now] on listed PKs (does not erase meta)". *)
Definition mark_rows_deleted (meta : gmap KeyRow C12n.MetaRow) (idx : IndexDF)
    (now : Z) : gmap KeyRow C12n.MetaRow :=
  map_imap (λ k m, Some (if decide (k ∈ rows idx)
                         then C12n.set_delete_ts (Some now) m else m)) meta.

(** Modelled from the spec: [DataTable.delete_by_idx]
    ([datapipe/datatable.py] is absent): the listed rows are "tombstoned
    (deleted from the data store and [delete_ts] set)". *)
Definition delete_by_idx (dt : DataTable) (idx : IndexDF) (now : Z) : DataTable :=
  mkDT (filter (λ kv, kv.1 ∉ rows idx) (table_store dt))
       (mark_rows_deleted (meta_table dt) idx now).

(** A compute step.  The two methods that [ComputeStep] leaves to its
    subclasses are fields; the base class raises [NotImplementedError]. *)
Record ComputeStep : Type := mkStep {
  class_name : string;
  _name : string;
  input_dts : list string;
  output_dts : list string;
  get_change_list_process_ids :
    DataStore → ChangeList → option RunConfig → result (Z * result (list IndexDF));
  process_batch_dfs :
    DataStore → IndexDF → list DataDF → option RunConfig → result TransformResult
}.

(** [DatatableTransformStep] ([datapipe/core_steps.py]): a [ComputeStep]
    with a function of the user, which is handed the store and the input
    and output tables, and which [run_full] of this class calls.  The
    function returns the store as it left it; it may raise.  The
    [kwargs] of the step are part of the function here. *)
Record DatatableTransformStep : Type := mkTransformStep {
  base : ComputeStep;
  func : DataStore → list string → list string → option RunConfig
         → DataStore * result unit
}.

(** A step object by the [run_full] of its class:
    [DatatableTransformStep] overrides the method, the other classes of
    the sources inherit [ComputeStep.run_full]. *)
Inductive StepObject : Type :=
  | Inherits (self : ComputeStep)
  | Overrides (self : DatatableTransformStep).

Definition step_base (step : StepObject) : ComputeStep :=
  match step with
  | Inherits self => self
  | Overrides self => base self
  end.

Section Executor.

(** What the executor calls and the sources do not define:
    [DataTable.get_data] and [DataTable.store_chunk] of
    [datapipe/datatable.py] (either may raise; [store_chunk] returns the
    table as it left it), [RunConfig.add_labels], and the digest
    [hashlib.shake_128(...).hexdigest(5)]. *)
Variable get_data : DataTable → IndexDF → result DataDF.
Variable store_chunk :
  DataTable → DataDF → IndexDF → option RunConfig → DataTable * result IndexDF.
Variable add_labels : option RunConfig → string → option RunConfig.
Variable shake_128_hexdigest5 : string → string.

Definition get_name (self : ComputeStep) : string :=
  let ss := class_name self :: _name self :: input_dts self ++ output_dts self in
  (_name self +:+ "_" +:+ shake_128_hexdigest5 (foldr String.append "" ss))%string.

Definition get_batch_input_dfs (self : ComputeStep) (ds : DataStore)
    (idx : IndexDF) (run_config : option RunConfig) : result (list DataDF) :=
  mapR (λ inp, get_data (get_table ds inp) idx) (input_dts self).

(** [sum(len(j) for j in input_dfs)] *)
Definition total_len (input_dfs : list DataDF) : nat :=
  foldr (λ j acc, length j + acc)%nat 0%nat input_dfs.

(** The loop of the branch "store output batch". *)
Fixpoint store_output_batch (ds : DataStore) (outs : list (string * DataDF))
    (idx : IndexDF) (run_config : option RunConfig) (changes : ChangeList)
    : DataStore * result ChangeList :=
  match outs with
  | [] => (ds, Ok changes)
  | (n, df) :: rest =>
      let '(dt, r) := store_chunk (get_table ds n) df idx run_config in
      let ds1 := set_table ds n dt in
      match r with
      | Ok change_idx =>
          store_output_batch ds1 rest idx run_config
                             (ChangeList_append changes n change_idx)
      | Raise e => (ds1, Raise e)
      end
  end.

(** The loop of the branch "delete missing data from output";
    [now] is the clock reading [delete_by_idx] takes. *)
Definition delete_missing (ds : DataStore) (outs : list string) (idx : IndexDF)
    (now : Z) (changes : ChangeList) : DataStore * ChangeList :=
  foldl (λ acc n,
           let res_dt := get_table acc.1 n in
           let del_idx := get_existing_idx (meta_table res_dt) idx in
           (set_table acc.1 n (delete_by_idx res_dt del_idx now),
            ChangeList_append acc.2 n del_idx))
        (ds, changes) outs.

(** [ComputeStep.process_batch]: the store after the batch and what the
    generator yields, one change list or nothing; an exception that no
    [try] catches is raised to the caller. *)
Definition process_batch (self : ComputeStep) (ds : DataStore) (idx : IndexDF)
    (run_config : option RunConfig) (now : Z)
    : DataStore * result (list ChangeList) :=
  match get_batch_input_dfs self ds idx run_config with
  | Raise e => (log_exception ds e idx, Ok [])
  | Ok input_dfs =>
      let changes := ChangeList_new in
      if decide (0 < total_len input_dfs)%nat then
        match process_batch_dfs self ds idx input_dfs run_config with
        | Raise e => (log_exception ds e idx, Ok [])
        | Ok res =>
            let checked : result (list DataDF) :=
              match res with
              | Frames dfs =>
                  _ ← assert (length dfs = length (output_dts self)); Ok dfs
              | OneFrame df =>
                  _ ← assert (length (output_dts self) = 1%nat); Ok [df]
              end in
            match checked with
            | Raise e => (ds, Raise e)
            | Ok chunks_df =>
                match store_output_batch ds (zip (output_dts self) chunks_df)
                                         idx run_config changes with
                | (ds1, Raise e) => (log_exception ds1 e idx, Ok [])
                | (ds1, Ok changes1) => (ds1, Ok [changes1])
                end
            end
        end
      else
        let '(ds1, changes1) :=
          delete_missing ds (output_dts self) idx now changes in
        (ds1, Ok [changes1])
  end.

(** The nested loops of [run_changelist]: every batch of the generator
    is processed and what it yields is merged into the result. *)
Fixpoint process_batches (self : ComputeStep) (ds : DataStore)
    (batches : list IndexDF) (run_config : option RunConfig) (now : Z)
    (res_changelist : ChangeList) : DataStore * result ChangeList :=
  match batches with
  | [] => (ds, Ok res_changelist)
  | idx :: rest =>
      match process_batch self ds idx run_config now with
      | (ds1, Raise e) => (ds1, Raise e)
      | (ds1, Ok yielded) =>
          process_batches self ds1 rest run_config now
                          (foldl ChangeList_extend res_changelist yielded)
      end
  end.

(** [ComputeStep.run_changelist] *)
Definition run_changelist (self : ComputeStep) (ds : DataStore)
    (change_list : ChangeList) (run_config : option RunConfig) (now : Z)
    : DataStore * result ChangeList :=
  let run_config := add_labels run_config (get_name self) in
  match get_change_list_process_ids self ds change_list run_config with
  | Raise e => (ds, Raise e)
  | Ok (idx_count, idx_gen) =>
      if decide (idx_count = 0) then (ds, Ok ChangeList_new)
      else
        match idx_gen with
        | Raise e => (ds, Raise e)
        | Ok batches =>
            process_batches self ds batches run_config now ChangeList_new
        end
  end.

(** The [for step in steps] loop of one iteration of
    [run_steps_changelist]. *)
Fixpoint run_steps_once (ds : DataStore) (steps : list ComputeStep)
    (current_changes : ChangeList) (run_config : option RunConfig) (now : Z)
    (next_changes : ChangeList) : DataStore * result ChangeList :=
  match steps with
  | [] => (ds, Ok next_changes)
  | step :: rest =>
      match run_changelist step ds current_changes run_config now with
      | (ds1, Raise e) => (ds1, Raise e)
      | (ds1, Ok step_changes) =>
          run_steps_once ds1 rest current_changes run_config now
                         (ChangeList_extend next_changes step_changes)
      end
  end.

(** How [run_steps_changelist] ended: the store, the change list in
    [current_changes], the counter [iteration], the change lists the
    iterations were started with, and whether the loop was left by its
    condition or by an exception of a step. *)
Record LoopEnd : Type := mkEnd {
  end_ds : DataStore;
  end_current : ChangeList;
  end_iteration : Z;
  end_started : list ChangeList;
  end_outcome : result unit
}.

(** The [while] loop.  [fuel] bounds the unfolding only: [None] means
    that it ran out before the loop condition failed. *)
Fixpoint while_changes (fuel : nat) (ds : DataStore) (steps : list ComputeStep)
    (run_config : option RunConfig) (now : Z)
    (current_changes : ChangeList) (iteration : Z)
    (started : list ChangeList) : option LoopEnd :=
  if negb (ChangeList_empty current_changes) && bool_decide (iteration < 100) then
    match fuel with
    | O => None
    | S fuel' =>
        match run_steps_once ds steps current_changes run_config now
                             ChangeList_new with
        | (ds1, Raise e) =>
            Some (mkEnd ds1 current_changes iteration
                        (started ++ [current_changes]) (Raise e))
        | (ds1, Ok next_changes) =>
            while_changes fuel' ds1 steps run_config now next_changes
                          (iteration + 1) (started ++ [current_changes])
        end
    end
  else Some (mkEnd ds current_changes iteration started (Ok tt)).

(** [run_steps_changelist] *)
Definition run_steps_changelist (ds : DataStore) (steps : list ComputeStep)
    (changelist : ChangeList) (run_config : option RunConfig) (now : Z)
    : option LoopEnd :=
  while_changes 100 ds steps run_config now changelist 0 [].

(** The loops of [run_full]: every batch of the generator is processed
    and what it yields is dropped. *)
Fixpoint run_batches (self : ComputeStep) (ds : DataStore)
    (batches : list IndexDF) (run_config : option RunConfig) (now : Z)
    : DataStore * result unit :=
  match batches with
  | [] => (ds, Ok tt)
  | idx :: rest =>
      match process_batch self ds idx run_config now with
      | (ds1, Raise e) => (ds1, Raise e)
      | (ds1, Ok _) => run_batches self ds1 rest run_config now
      end
  end.

(** [ComputeStep.run_full].  [get_full_process_ids] is the method of the
    step's class, left to the subclasses like
    [get_change_list_process_ids]. *)
Definition run_full
    (get_full_process_ids :
       ComputeStep → DataStore → option RunConfig → result (Z * result (list IndexDF)))
    (self : ComputeStep) (ds : DataStore) (run_config : option RunConfig)
    (now : Z) : DataStore * result unit :=
  let run_config := add_labels run_config (get_name self) in
  match get_full_process_ids self ds run_config with
  | Raise e => (ds, Raise e)
  | Ok (idx_count, idx_gen) =>
      if decide (idx_count = 0) then (ds, Ok tt)
      else
        match idx_gen with
        | Raise e => (ds, Raise e)
        | Ok batches => run_batches self ds batches run_config now
        end
  end.

(** [DatatableTransformStep.run_full] ([datapipe/core_steps.py]): the
    function of the user is called once; an exception it raises is
    logged and not raised again. *)
Definition DatatableTransformStep_run_full (self : DatatableTransformStep)
    (ds : DataStore) (run_config : option RunConfig) : DataStore * result unit :=
  let run_config := add_labels run_config (get_name (base self)) in
  match func self ds (input_dts (base self)) (output_dts (base self)) run_config with
  | (ds1, Raise e) => (log_exception_run ds1 e, Ok tt)
  | (ds1, Ok _) => (ds1, Ok tt)
  end.

(** [step.run_full(ds, run_config)], the method of the class of the
    step. *)
Definition step_run_full
    (get_full_process_ids :
       ComputeStep → DataStore → option RunConfig → result (Z * result (list IndexDF)))
    (step : StepObject) (ds : DataStore) (run_config : option RunConfig)
    (now : Z) : DataStore * result unit :=
  match step with
  | Inherits self => run_full get_full_process_ids self ds run_config now
  | Overrides self => DatatableTransformStep_run_full self ds run_config
  end.

(** [run_steps] *)
Fixpoint run_steps
    (get_full_process_ids :
       ComputeStep → DataStore → option RunConfig → result (Z * result (list IndexDF)))
    (ds : DataStore) (steps : list StepObject) (run_config : option RunConfig)
    (now : Z) : DataStore * result unit :=
  match steps with
  | [] => (ds, Ok tt)
  | step :: rest =>
      match step_run_full get_full_process_ids step ds run_config now with
      | (ds1, Raise e) => (ds1, Raise e)
      | (ds1, Ok _) => run_steps get_full_process_ids ds1 rest run_config now
      end
  end.

End Executor.

End Compute.

(** ** datapipe/store/filedir.py: [TableStoreFiledir] *)

Module Filedir.

Local Open Scope string_scope.

(** A piece of a filename pattern: a character, or a key [{name}]. *)
Inductive token : Type :=
  | Lit (c : ascii)
  | Attr (attrname : string).

(** The group of the expression [\{([^/]+?)\}] right after an opening
    brace: one or more characters other than [/], as few as possible,
    up to a closing brace.  Returns the group and what follows the
    closing brace. *)
Fixpoint match_group (s : string) : option (string * string) :=
  match s with
  | EmptyString => None
  | String c r =>
      if decide (c = "/"%char) then None
      else
        match r with
        | String "}"%char r' => Some (String c EmptyString, r')
        | _ =>
            match match_group r with
            | Some (n, rest) => Some (String c n, rest)
            | None => None
            end
        end
  end.

(** The successive matches of that expression, left to right, with the
    characters between them. *)
Fixpoint tokens (fuel : nat) (s : string) : list token :=
  match fuel with
  | O => []
  | S fuel' =>
      match s with
      | EmptyString => []
      | String c r =>
          if decide (c = "{"%char) then
            match match_group r with
            | Some (n, rest) => Attr n :: tokens fuel' rest
            | None => Lit c :: tokens fuel' r
            end
          else Lit c :: tokens fuel' r
      end
  end.

Definition tokenize (pat : string) : list token :=
  tokens (S (String.length pat)) pat.

Definition attrs_of (ts : list token) : list string :=
  omap (λ t, match t with Attr n => Some n | Lit _ => None end) ts.

(** [_pattern_to_attrnames] *)
Definition _pattern_to_attrnames (pat : string) : result (list string) :=
  let attrnames := attrs_of (tokenize pat) in
  _ ← assert (0 < length attrnames)%nat;
  _ ← (if decide (2 ≤ length attrnames)%nat
       then assert (NoDup attrnames) else Ok tt);
  Ok attrnames.

(** [_pattern_to_glob] *)
Definition _pattern_to_glob (pat : string) : string :=
  foldr (λ t acc, match t with
                  | Lit c => String c acc
                  | Attr _ => String "*"%char acc
                  end) "" (tokenize pat).

(** The first substitution of [_pattern_to_match]: [*] or [**] becomes
    [([^/]+/)*[^/]+]. *)
Fixpoint sub_stars (s : string) : string :=
  match s with
  | EmptyString => EmptyString
  | String c r =>
      if decide (c = "*"%char) then
        match r with
        | String "*"%char r' => "([^/]+/)*[^/]+" +:+ sub_stars r'
        | _ => "([^/]+/)*[^/]+" +:+ sub_stars r
        end
      else String c (sub_stars r)
  end.

(** [_pattern_to_match] *)
Definition _pattern_to_match (pat : string) : string :=
  foldr (λ t acc, match t with
                  | Lit c => String c acc
                  | Attr n => "(?P<" +:+ n +:+ ">[^/]+?)" +:+ acc
                  end) "" (tokenize (sub_stars pat)).

(** [fsspec.core.split_protocol]: the text before [://] when it is
    longer than one character, and the rest. *)
Definition split_protocol (urlpath : string) : option string * string :=
  match String.index 0 "://" urlpath with
  | Some i =>
      if decide (1 < i)%nat
      then (Some (String.substring 0 i urlpath),
            String.substring (i + 3) (String.length urlpath - (i + 3)) urlpath)
      else (None, urlpath)
  | None => (None, urlpath)
  end.

(** ['*' in path] *)
Fixpoint has_star (s : string) : bool :=
  match s with
  | EmptyString => false
  | String c r => if decide (c = "*"%char) then true else has_star r
  end.

(** A frame of the store: its columns and, per row, the cell of every
    column as text. *)
Record DataDF : Type := mkDF {
  df_columns : list string;
  df_rows : list (gmap string string)
}.

(** [df.empty]: an axis of length zero. *)
Definition df_empty (df : DataDF) : bool :=
  bool_decide (df_rows df = [] ∨ df_columns df = []).

(** The files of [fsspec], by path: what the adapter dumped, the data
    columns of one row. *)
Abbreviation Files := (gmap string (gmap string string)).

Record TableStoreFiledir : Type := mkStore {
  protocol : option string;
  filename_pattern : string;
  protocol_str : string;
  readonly : bool;
  enable_rm : bool;
  add_filepath_column : bool;
  read_data : bool;
  attrnames : list string;
  filename_glob : string;
  filename_match : string;
  (** name and type of each key column *)
  primary_schema : list (string * string)
}.

Section Store.

(** Outside this file: [Path(path).resolve()], [re.match] with the named
    groups of a match, and the conversion of a matched text to the type
    of its key column ([str] or [int]), as text. *)
Variable resolve : string → string.
Variable re_match : string → string → option (gmap string string).
Variable attrname_to_cls : string → string → string → result string.

(** [TableStoreFiledir.__init__] *)
Definition TableStoreFiledir_init (filename_pattern : string)
    (add_filepath_column : bool) (primary_schema : option (list (string * string)))
    (read_data : bool) (readonly : option bool) (enable_rm : bool)
    : result TableStoreFiledir :=
  let '(protocol, path) := split_protocol filename_pattern in
  let is_local := bool_decide (protocol = None ∨ protocol = Some "file") in
  let pattern := if is_local then resolve path else filename_pattern in
  let filename_pattern_for_match := if is_local then pattern else path in
  let protocol_str :=
    match protocol with
    | None => ""
    | Some p => p +:+ "://"
    end in
  readonly ←
    (if has_star path then
       match readonly with
       | Some false => Raise ValueError
       | None => Ok true
       | Some true => Ok true
       end
     else
       match readonly with
       | None => Ok false
       | Some b => Ok b
       end);
  attrnames ← _pattern_to_attrnames pattern;
  schema ←
    match primary_schema with
    | Some schema =>
        _ ← assert (merge_sort String.le attrnames = merge_sort String.le schema.*1);
        _ ← assert (Forall (λ c, c.2 = "String" ∨ c.2 = "Integer") schema);
        Ok schema
    | None => Ok ((λ a, (a, "String")) <$> attrnames)
    end;
  Ok (mkStore protocol pattern protocol_str readonly enable_rm
              add_filepath_column read_data attrnames
              (_pattern_to_glob pattern)
              (_pattern_to_match filename_pattern_for_match) schema).

(** [re.sub(r'\{([^/]+?)\}', Replacer(idxs_values), self.filename_pattern)]:
    the n-th key of the pattern becomes the n-th value; [IndexError] when
    the values run out. *)
Fixpoint replace_attrs (ts : list token) (values : list string) : result string :=
  match ts with
  | [] => Ok ""
  | Lit c :: r => s ← replace_attrs r values; Ok (String c s)
  | Attr _ :: r =>
      match values with
      | [] => Raise IndexError
      | v :: vs => s ← replace_attrs r vs; Ok (v +:+ s)
      end
  end.

Definition _filename_from_idxs_values (self : TableStoreFiledir)
    (idxs_values : list string) : result string :=
  replace_attrs (tokenize (filename_pattern self)) idxs_values.

Definition type_of_attr (self : TableStoreFiledir) (attrname : string) : string :=
  default "String" (snd <$> head (filter (λ c, c.1 = attrname) (primary_schema self))).

(** [_idxs_values_from_filepath] *)
Definition _idxs_values_from_filepath (self : TableStoreFiledir)
    (filepath : string) : result (list string) :=
  let filepath := (split_protocol filepath).2 in
  match re_match (filename_match self) filepath with
  | None => Raise AssertionError
  | Some m =>
      mapR (λ attrname,
              match m !! attrname with
              | Some txt => attrname_to_cls (type_of_attr self attrname) attrname txt
              | None => Raise IndexError
              end) (attrnames self)
  end.

(** [_assert_key_values] *)
Definition _assert_key_values (self : TableStoreFiledir) (filepath : string)
    (idxs_values : list string) : result unit :=
  parsed ← _idxs_values_from_filepath self filepath;
  assert (length idxs_values = length parsed ∧ idxs_values = parsed).

(** [df.loc[row_idx, self.attrnames].tolist()] *)
Definition idxs_values_of (self : TableStoreFiledir) (row : gmap string string)
    : result (list string) :=
  mapR (λ a, match row !! a with
             | Some v => Ok v
             | None => Raise KeyError
             end) (attrnames self).

(** [df.drop(columns=self.attrnames).to_dict('records')]: [KeyError] when
    a key is no column of the frame; one record per row, with the cells
    of the columns that are left; and no record at all when no column
    is left. *)
Definition data_records (self : TableStoreFiledir) (df : DataDF)
    : result (list (gmap string string)) :=
  if decide (Forall (λ a, a ∈ df_columns df) (attrnames self)) then
    if decide (filter (λ c, c ∉ attrnames self) (df_columns df) = [])
    then Ok []
    else Ok ((λ row, filter (λ kv, kv.1 ∉ attrnames self) row) <$> df_rows df)
  else Raise KeyError.

(** The loop of [insert_rows] over the rows zipped with their records;
    the files written before an exception stay written. *)
Fixpoint write_rows (self : TableStoreFiledir) (fs : Files)
    (rows : list (gmap string string * gmap string string))
    : Files * result unit :=
  match rows with
  | [] => (fs, Ok tt)
  | (row, data) :: rest =>
      let step :=
        idxs_values ← idxs_values_of self row;
        filepath ← _filename_from_idxs_values self idxs_values;
        _ ← _assert_key_values self filepath idxs_values;
        Ok filepath in
      match step with
      | Raise e => (fs, Raise e)
      | Ok filepath =>
          write_rows self (<[(split_protocol filepath).2 := data]> fs) rest
      end
  end.

(** [TableStoreFiledir.insert_rows] *)
Definition insert_rows (self : TableStoreFiledir) (fs : Files) (df : DataDF)
    : Files * result unit :=
  if df_empty df then (fs, Ok tt)
  else if readonly self then (fs, Raise AssertionError)
  else
    match data_records self df with
    | Raise e => (fs, Raise e)
    | Ok records => write_rows self fs (zip (df_rows df) records)
    end.

(** The loop of [delete_rows]; [filesystem.rm] raises
    [FileNotFoundError] for a path that holds no file. *)
Fixpoint remove_rows (self : TableStoreFiledir) (fs : Files)
    (rows : list (gmap string string)) : Files * result unit :=
  match rows with
  | [] => (fs, Ok tt)
  | row :: rest =>
      match (idxs_values ← idxs_values_of self row;
             _filename_from_idxs_values self idxs_values) with
      | Raise e => (fs, Raise e)
      | Ok filename =>
          let path := (split_protocol filename).2 in
          match fs !! path with
          | None => (fs, Raise FileNotFoundError)
          | Some _ => remove_rows self (delete path fs) rest
          end
      end
  end.

(** [TableStoreFiledir.delete_rows] *)
Definition delete_rows (self : TableStoreFiledir) (fs : Files) (idx : DataDF)
    : Files * result unit :=
  if negb (enable_rm self) then (fs, Ok tt)
  else if readonly self then (fs, Raise AssertionError)
  else remove_rows self fs (df_rows idx).

(** Modelled from the spec: [update_rows], which [TableStoreFiledir]
    inherits from the [TableStore] base class
    ([datapipe/store/table_store.py] is absent): "[insert_rows(df)] /
    [update_rows(df)]: upsert by PK", the one upsert the store defines. *)
Definition update_rows (self : TableStoreFiledir) (fs : Files) (df : DataDF)
    : Files * result unit :=
  insert_rows self fs df.

(** Outside this file as well: [fsspec.open_files(glob)], the paths of
    the files that match a glob. *)
Variable open_files : string → Files → list string.

(** The dict that [_idxs_values_from_filepath] builds, key by key. *)
Definition idxs_dict (self : TableStoreFiledir) (idxs_values : list string)
    : gmap string string :=
  foldl (λ data kv, <[kv.1 := kv.2]> data) ∅ (zip (attrnames self) idxs_values).

(** The body of the loop of [read_rows] for the file at [path]: the
    record appended to [df].  Opening a file that does not exist raises
    [FileNotFoundError]. *)
Definition read_file (self : TableStoreFiledir) (fs : Files) (path : string)
    : result (gmap string string) :=
  match fs !! path with
  | None => Raise FileNotFoundError
  | Some content =>
      let data : gmap string string := if read_data self then content else ∅ in
      if read_data self
         && bool_decide (filter (λ attrname, is_Some (data !! attrname))
                                (attrnames self) ≠ [])
      then Raise AssertionError
      else
        idxs_values ← _idxs_values_from_filepath self path;
        let data1 := idxs_dict self idxs_values ∪ data in
        if add_filepath_column self then
          if decide (is_Some (data1 !! "filepath")) then Raise AssertionError
          else Ok (<["filepath" := protocol_str self +:+ path]> data1)
        else Ok data1
  end.

(** [fsspec.open(self._filename_from_idxs_values(idx.loc[row_idx,
    self.attrnames]))]: the path of the file of a row. *)
Definition file_of_row (self : TableStoreFiledir) (row : gmap string string)
    : result string :=
  idxs_values ← idxs_values_of self row;
  filename ← _filename_from_idxs_values self idxs_values;
  Ok (split_protocol filename).2.

(** The files [_iterate_files] yields, by path; the generator computes
    the name of a file when the loop asks for it, and may raise then. *)
Definition _iterate_files (self : TableStoreFiledir) (fs : Files)
    (idx : option DataDF) : list (result string) :=
  match idx with
  | None => Ok <$> open_files (filename_glob self) fs
  | Some idx => file_of_row self <$> df_rows idx
  end.

Fixpoint read_files (self : TableStoreFiledir) (fs : Files)
    (files : list (result string)) : result (list (gmap string string)) :=
  match files with
  | [] => Ok []
  | Raise e :: _ => Raise e
  | Ok path :: rest =>
      data ← read_file self fs path;
      df ← read_files self fs rest;
      Ok (data :: df)
  end.

(** [TableStoreFiledir.read_rows]: the records of the frame it returns,
    in the order of the files. *)
Definition read_rows (self : TableStoreFiledir) (fs : Files) (idx : option DataDF)
    : result (list (gmap string string)) :=
  read_files self fs (_iterate_files self fs idx).

End Store.

End Filedir.

(** ** datapipe/store/database.py: [TableStoreDB] *)

Module Database.

Local Open Scope Z_scope.

(** A [sqlalchemy.Column] of [data_sql_schema]. *)
Record Column : Type := mkCol {
  col_name : string;
  col_type : string;
  primary_key : bool
}.

(** A [TableStoreDB]: its name, its schema and the rows that [data_table]
    holds in the database.  A row maps each column to its cell, a number
    here since only the equality of cells is used; a NULL cell is absent
    from the map. *)
Record TableStoreDB : Type := mkStore {
  name : string;
  data_sql_schema : list Column;
  data_table : list KeyRow
}.

Definition get_schema (self : TableStoreDB) : list Column :=
  data_sql_schema self.

Definition get_primary_schema (self : TableStoreDB) : list Column :=
  filter (λ column, primary_key column = true) (data_sql_schema self).

(** Modelled from the spec: [TableStore.primary_keys]
    ([datapipe/store/table_store.py] is absent from the sources), the
    names of "[primary_schema() → [Column]]: declared PK columns, in
    order". *)
Definition primary_keys (self : TableStoreDB) : list string :=
  col_name <$> get_primary_schema self.

(** SQL [x IN (v1, ..., vn)]. *)
Definition in3 (a : option Z) (l : list (option Z)) : Sql.tv :=
  foldr Sql.or3 (Some false) (Sql.eq3 a <$> l).

(** SQL [(x1, ..., xm) IN ((v11, ..., v1m), ...)], the row values being
    compared column by column. *)
Definition tuple_in3 (a : list (option Z)) (l : list (list (option Z))) : Sql.tv :=
  foldr Sql.or3 (Some false)
        ((λ t, Sql.and_ (zip_with Sql.eq3 a t)) <$> l).

(** [sql_apply_idx_filter]: the condition added to the statement, as a
    test on a row of the table.  [idx[key]] raises [KeyError] for a
    missing column, and so does [r[key]] on a record of the frame.  The
    methods of the store get here with one primary key at least. *)
Definition sql_apply_idx_filter (primary_keys : list string) (idx : IndexDF)
    : result (KeyRow → bool) :=
  match primary_keys with
  | [key] =>
      if decide (key ∈ columns idx)
      then Ok (λ row, Sql.holds (in3 (row !! key) ((λ r, r !! key) <$> rows idx)))
      else Raise KeyError
  | _ =>
      if decide (rows idx = [] ∨ Forall (λ key, key ∈ columns idx) primary_keys)
      then Ok (λ row,
                 Sql.holds
                   (tuple_in3 ((λ key, row !! key) <$> primary_keys)
                              ((λ r, (λ key, r !! key) <$> primary_keys) <$> rows idx)))
      else Raise KeyError
  end.

(** [_chunk_size] *)
Definition _chunk_size (self : TableStoreDB) : result Z :=
  if decide (length (primary_keys self) = 0%nat) then Raise ZeroDivisionError
  else Ok (5000 / Z.of_nat (length (primary_keys self))).

(** [_chunk_idx_df]: the chunks the generator yields. *)
Definition _chunk_idx_df (self : TableStoreDB) (idx : IndexDF)
    : result (list IndexDF) :=
  CHUNK_SIZE ← _chunk_size self;
  n ← Planner.math_ceil_div (Z.of_nat (length (rows idx))) CHUNK_SIZE;
  Ok ((λ chunk_no : nat,
         Planner.slice_rows (Z.of_nat chunk_no * CHUNK_SIZE)
                            ((Z.of_nat chunk_no + 1) * CHUNK_SIZE) idx)
        <$> seq 0 (Z.to_nat n)).

Definition with_table (self : TableStoreDB) (table : list KeyRow) : TableStoreDB :=
  mkStore (name self) (data_sql_schema self) table.

Section Engine.

(** Outside this file, the database and its driver: how the driver binds
    a Python int to a statement when the statement is executed (it
    accepts the value, or raises for one that the database cannot hold),
    and the order in which the database returns the rows of a [SELECT],
    which a statement without [ORDER BY] leaves to it. *)
Variable bind_param : Z → result unit.
Variable fetch : list KeyRow → list KeyRow.

(** Executing the statement that [sql_apply_idx_filter] has built binds
    the key cells of the chunk, row by row; a NULL cell binds as
    [None]. *)
Definition bind_params (primary_keys : list string) (idx : IndexDF)
    : result unit :=
  _ ← mapR (λ r, mapR (λ key, match r !! key with
                              | Some v => bind_param v
                              | None => Ok tt
                              end) primary_keys) (rows idx);
  Ok tt.

(** The loop of [delete_rows]: one [DELETE] per chunk, each in a
    transaction of its own, so the chunks deleted before an exception
    stay deleted. *)
Fixpoint delete_chunks (primary_keys : list string) (table : list KeyRow)
    (chunks : list IndexDF) : list KeyRow * result unit :=
  match chunks with
  | [] => (table, Ok tt)
  | chunk_idx :: rest =>
      match (cond ← sql_apply_idx_filter primary_keys chunk_idx;
             _ ← bind_params primary_keys chunk_idx;
             Ok cond) with
      | Raise e => (table, Raise e)
      | Ok cond =>
          delete_chunks primary_keys (filter (λ row, cond row = false) table) rest
      end
  end.

(** [TableStoreDB.delete_rows] *)
Definition delete_rows (self : TableStoreDB) (idx : option IndexDF)
    : TableStoreDB * result unit :=
  match idx with
  | None => (self, Ok tt)
  | Some idx =>
      if decide (length (rows idx) = 0%nat) then (self, Ok tt)
      else
        match _chunk_idx_df self idx with
        | Raise e => (self, Raise e)
        | Ok chunks =>
            let '(table, r) := delete_chunks (primary_keys self) (data_table self) chunks in
            (with_table self table, r)
        end
  end.

(** [TableStoreDB.read_rows]: the frame it returns, its columns and its
    rows. *)
Definition read_rows (self : TableStoreDB) (idx : option IndexDF)
    : result IndexDF :=
  let cols := col_name <$> data_sql_schema self in
  match idx with
  | Some idx =>
      if decide (length (rows idx) = 0%nat) then Ok (mkIdx cols [])
      else
        chunks ← _chunk_idx_df self idx;
        res ← mapR (λ chunk_idx,
                      cond ← sql_apply_idx_filter (primary_keys self) chunk_idx;
                      _ ← bind_params (primary_keys self) chunk_idx;
                      Ok (fetch (filter (λ row, cond row = true) (data_table self))))
                   chunks;
        Ok (mkIdx cols (concat res))
  | None => Ok (mkIdx cols (fetch (data_table self)))
  end.

End Engine.

End Database.

(** ** datapipe/cli.py: [parse_labels] *)

Module Cli.

Local Open Scope string_scope.

(** What [parse_labels] returns or raises: the bare [Exception] of a
    pair without [=], or the [ValueError] of unpacking a pair that has
    more than one [=]. *)
Inductive parsed (A : Type) : Type :=
  | Parsed (a : A)
  | RaiseException
  | RaiseValueError.

Arguments Parsed {A} a.
Arguments RaiseException {A}.
Arguments RaiseValueError {A}.

(** [s.split(sep)] for a separator of one character. *)
Fixpoint split (sep : ascii) (s : string) : list string :=
  match s with
  | EmptyString => [EmptyString]
  | String c r =>
      if decide (c = sep) then EmptyString :: split sep r
      else
        match split sep r with
        | [] => [String c EmptyString]
        | w :: ws => String c w :: ws
        end
  end.

(** [sep in s] *)
Fixpoint contains (sep : ascii) (s : string) : bool :=
  match s with
  | EmptyString => false
  | String c r => if decide (c = sep) then true else contains sep r
  end.

(** The loop of [parse_labels]. *)
Fixpoint parse_pairs (kvs : list string) : parsed (list (string * string)) :=
  match kvs with
  | [] => Parsed []
  | kv :: rest =>
      if negb (contains "="%char kv) then RaiseException
      else
        match split "="%char kv with
        | [k; v] =>
            match parse_pairs rest with
            | Parsed labels_list => Parsed ((k, v) :: labels_list)
            | RaiseException => RaiseException
            | RaiseValueError => RaiseValueError
            end
        | _ => RaiseValueError
        end
  end.

(** [parse_labels] *)
Definition parse_labels (labels : string) : parsed (list (string * string)) :=
  if decide (labels = "") then Parsed []
  else parse_pairs (split ","%char labels).

End Cli.

(** * Example states *)

Module Examples.

Local Open Scope Z_scope.

(** A stand-in for the row fingerprint: it depends on the cell values
    only. *)
Definition hash_of_row (r : C12n.Row) : Z :=
  foldr (λ s acc, Z.of_nat (String.length s) + 31 * acc) 7 r.

(** Scenario A of the specification: [src] receives the rows with ids "0"
    and "1" at time 1 and the very same rows again at time 2. *)
Definition src_empty : C12n.DataTable := C12n.mkDT "src" ∅ ∅ [].

Definition chunk_ab : gmap string C12n.Row := {[ "0" := ["a"]; "1" := ["b"] ]}.

Definition src_first : C12n.DataTable :=
  (C12n.store_chunk hash_of_row src_empty chunk_ab 1).1.

Definition src_second : C12n.DataTable :=
  (C12n.store_chunk hash_of_row src_first chunk_ab 2).1.

(** Then id "0" vanishes: the sync pass sees the chunk with id "1" only. *)
Definition src_synced : C12n.DataTable :=
  C12n.sync_meta src_second [ {[ "1" ]} ] None.

(** Two input tables and one output table keyed by [id].  Input [a] has
    the key 1, updated at time 5; input [b] has no row for it.  The step
    processed the key 1 with success at time 3. *)
Definition id_col : Planner.Column := Planner.mkCol "id" "String".

Definition meta_at (id ts : Z) : Planner.MetaRecord :=
  Planner.mkMR {[ "id" := id ]} 0 ts ts ts None.

Definition tbl_a : Planner.DataTable :=
  Planner.mkDT "a" (Planner.mkMT [id_col] [meta_at 1 5]).

Definition tbl_b : Planner.DataTable :=
  Planner.mkDT "b" (Planner.mkMT [id_col] []).

Definition tbl_out : Planner.DataTable :=
  Planner.mkDT "out" (Planner.mkMT [id_col] []).

(** An output table keyed by [name], not by [id]. *)
Definition tbl_named : Planner.DataTable :=
  Planner.mkDT "named" (Planner.mkMT [Planner.mkCol "name" "String"] []).

Definition step_ab : Planner.BaseBatchTransformStep :=
  Planner.mkStep [tbl_a; tbl_b] [tbl_out] ["id"] [id_col] 1000 None
    [Planner.mkTR {[ "id" := 1 ]} 3 true 0 None].

(** A step over the single input [a] with [chunk_size = 2], and a change
    list that names three keys of [a]. *)
Definition step_a : Planner.BaseBatchTransformStep :=
  Planner.mkStep [tbl_a] [tbl_out] ["id"] [id_col] 2 None [].

Definition three_changes : ChangeList :=
  mkCL {[ "a" := mkIdx ["id"] [ {[ "id" := 1 ]}; {[ "id" := 2 ]}; {[ "id" := 3 ]} ] ]}.

(** The same three keys as rows of the input's meta table, none of them
    processed yet. *)
Definition step_a3 : Planner.BaseBatchTransformStep :=
  Planner.mkStep
    [Planner.mkDT "a" (Planner.mkMT [id_col] [meta_at 1 5; meta_at 2 5; meta_at 3 5])]
    [tbl_out] ["id"] [id_col] 2 None [].

(** A store for the executor: the input [src] has lost all its rows, the
    output [dst] still has the row with id 1 live and the row with id 2
    tombstoned at time 4; nothing is recorded in transform meta.  The
    batch names the ids 1, 2 and 3. *)
Definition read_live (dt : Compute.DataTable) (idx : IndexDF)
    : result Compute.DataDF :=
  Ok (omap (λ k, if decide (Compute.is_live (Compute.meta_table dt) k)
                 then (λ row, (k, row)) <$> Compute.table_store dt !! k
                 else None)
           (rows idx)).

Definition write_rows (dt : Compute.DataTable) (df : Compute.DataDF)
    (idx : IndexDF) (run_config : option RunConfig)
    : Compute.DataTable * result IndexDF :=
  (Compute.mkDT (list_to_map df ∪ Compute.table_store dt) (Compute.meta_table dt),
   Ok (mkIdx (columns idx) df.*1)).

Definition keep_run_config (run_config : option RunConfig) (step_name : string)
    : option RunConfig := run_config.

Definition fixed_digest (s : string) : string := "00000".

Definition dst_table : Compute.DataTable :=
  Compute.mkDT {[ ({[ "id" := 1 ]} : KeyRow) := ["A"] ]}
               {[ ({[ "id" := 1 ]} : KeyRow) := C12n.mkMeta 11 1 1 1 None;
                  ({[ "id" := 2 ]} : KeyRow) := C12n.mkMeta 12 1 1 1 (Some 4) ]}.

Definition ds_gone : Compute.DataStore :=
  Compute.mkDS {[ "src" := Compute.mkDT ∅ ∅; "dst" := dst_table ]} ∅ [].

Definition batch_123 : IndexDF :=
  mkIdx ["id"] [ {[ "id" := 1 ]}; {[ "id" := 2 ]}; {[ "id" := 3 ]} ].

Definition upper_step : Compute.ComputeStep :=
  Compute.mkStep "BatchTransformStep" "upper" ["src"] ["dst"]
    (λ _ _ _, Raise NotImplementedError)
    (λ _ _ dfs _, Ok (Compute.Frames dfs)).

(** A [DatatableTransformStep] whose function copies the table [src]
    over [dst] and then fails. *)
Definition copy_step : Compute.DatatableTransformStep :=
  Compute.mkTransformStep
    (Compute.mkStep "DatatableTransformStep" "copy" ["src"] ["dst"]
       (λ _ _ _, Raise NotImplementedError)
       (λ _ _ _ _, Raise NotImplementedError))
    (λ ds _ _ _,
       (Compute.set_table ds "dst" (Compute.get_table ds "src"), Raise ValueError)).

Definition ds_after_batch : Compute.DataStore :=
  (Compute.process_batch read_live write_rows upper_step ds_gone batch_123 None 9).1.

(** A step that names the batch with the ids 1, 2 and 3 whatever the
    change list: on the store above each run deletes nothing more and
    still yields an entry for [dst], so the change list never gets
    empty. *)
Definition cyclic_step : Compute.ComputeStep :=
  Compute.mkStep "BatchTransformStep" "cycle" ["src"] ["dst"]
    (λ _ _ _, Ok (1%Z, Ok [batch_123]))
    (λ _ _ dfs _, Ok (Compute.Frames dfs)).

Definition seed_changes : ChangeList :=
  mkCL {[ "src" := mkIdx ["id"] [ ({[ "id" := 1%Z ]} : KeyRow) ] ]}.

(** A read-only file store: the pattern has a [*], the other arguments
    of the constructor are the defaults. *)
Definition globbed_store : Filedir.TableStoreFiledir :=
  Filedir.mkStore None "/data/*/img_{id}.json" "" true false false true ["id"]
    "/data/*/img_*.json" "/data/([^/]+/)*[^/]+/img_(?P<id>[^/]+?).json"
    [("id", "String")].

Definition one_file : Filedir.Files :=
  {[ "/data/x/img_7.json" := ({[ "text" := "seven" ]} : gmap string string) ]}.

Definition frame_7 : Filedir.DataDF :=
  Filedir.mkDF ["id"; "text"] [ {[ "id" := "7"; "text" := "sept" ]} ].

(** The two batches that the three keys of [a] give with [chunk_size = 2]. *)
Definition batches_a3 : list IndexDF :=
  [ mkIdx ["id"] [ {[ "id" := 1 ]}; {[ "id" := 2 ]} ];
    mkIdx ["id"] [ {[ "id" := 3 ]} ] ].

(** A change list whose frame for [a] has the column [name] only, and
    the step over [a] without any output table. *)
Definition named_changes : ChangeList :=
  mkCL {[ "a" := mkIdx ["name"] [ ({[ "name" := 1 ]} : KeyRow) ] ]}.

Definition step_no_output : Planner.BaseBatchTransformStep :=
  Planner.mkStep [tbl_a] [] ["id"] [id_col] 2 None [].

(** Two input tables that declare [id] with different types, and a step
    from the first to the second. *)
Definition tbl_int : Planner.DataTable :=
  Planner.mkDT "ints" (Planner.mkMT [Planner.mkCol "id" "Integer"] []).

Definition step_mixed : Planner.BaseBatchTransformStep :=
  Planner.mkStep [tbl_a] [tbl_int] ["id"] [id_col] 2 None [].

(** A writable file store with one file per [id], files being removable,
    and a stand-in for [re.match] with its pattern: the text between
    [/data/] and [.json], without a [/]. *)
Definition plain_store : Filedir.TableStoreFiledir :=
  Filedir.mkStore None "/data/{id}.json" "" false true false true ["id"]
    "/data/*.json" "/data/(?P<id>[^/]+?).json" [("id", "String")].

Definition match_plain (pattern path : string) : option (gmap string string) :=
  let n := String.length path in
  let id := String.substring 6 (n - 11) path in
  if (String.prefix "/data/" path
      && String.eqb (String.substring (n - 5) 5 path) ".json"
      && Nat.ltb 11 n
      && bool_decide (String.index 0 "/" id = None))%bool
  then Some {[ "id" := id ]}
  else None.

Definition frame_78 : Filedir.DataDF :=
  Filedir.mkDF ["id"; "text"]
    [ {[ "id" := "7"; "text" := "seven" ]}; {[ "id" := "8"; "text" := "eight" ]} ].

Definition files_78 : Filedir.Files :=
  {[ "/data/7.json" := ({[ "text" := "seven" ]} : gmap string string);
     "/data/8.json" := ({[ "text" := "eight" ]} : gmap string string) ]}.

(** A table of the database keyed by [id] with two rows, a table without
    a primary key, and an index frame that names the key 1. *)
Definition db_table : Database.TableStoreDB :=
  Database.mkStore "t"
    [Database.mkCol "id" "Integer" true; Database.mkCol "v" "Integer" false]
    [ {[ "id" := 1; "v" := 10 ]}; {[ "id" := 2; "v" := 20 ]} ].

Definition db_no_key : Database.TableStoreDB :=
  Database.mkStore "log" [Database.mkCol "v" "Integer" false] [ {[ "v" := 10 ]} ].

Definition idx_1 : IndexDF := mkIdx ["id"] [ {[ "id" := 1 ]} ].

(** A driver that binds the ints of 64 bits and raises [OverflowError]
    for the others, as [sqlite3] does; and an index frame with a key
    beyond that range. *)
Definition sqlite3_bind (v : Z) : result unit :=
  if decide (- 2 ^ 63 ≤ v < 2 ^ 63)%Z then Ok tt else Raise OverflowError.

Definition idx_big : IndexDF := mkIdx ["id"] [ {[ "id" := 1 ]}; {[ "id" := (2 ^ 63)%Z ]} ].

End Examples.

(** * Notions used in the statements *)

Module Statements.

Local Open Scope Z_scope.

(** The meta row that [C12n.store_chunk] writes for a row [r] of the
    chunk, given the meta row stored for its key so far. *)
Definition ingested_meta (hash_row : C12n.Row → Z) (now : Z) (r : C12n.Row)
    (existing : option C12n.MetaRow) : C12n.MetaRow :=
  match existing with
  | None => C12n.mkMeta (hash_row r) now now now None
  | Some e =>
      if decide (hash_row r = C12n.hash e)
      then C12n.mkMeta (hash_row r) now (C12n.update_ts e) now None
      else C12n.mkMeta (hash_row r) (C12n.create_ts e) now now None
  end.

(** [k] is a primary-key column of every table of the list. *)
Definition key_of_all (mts : list Planner.MetaTable) (k : string) : Prop :=
  ∀ mt, mt ∈ mts → k ∈ Planner.primary_keys mt.

(** The input meta rows that match a transform-key tuple: the rows that
    agree with it on every transform key their table has. *)
Definition matches (transform_keys : list string) (dt : Planner.DataTable)
    (k : KeyRow) (r : Planner.MetaRecord) : Prop :=
  ∀ key, key ∈ transform_keys → key ∈ Planner.primary_keys (Planner.meta_table dt) →
         Planner.mr_key r !! key = k !! key.

(** [u] is the maximum [update_ts] over the matching input meta rows. *)
Definition max_update_ts (self : Planner.BaseBatchTransformStep) (k : KeyRow)
    (u : Z) : Prop :=
  (∃ dt r, dt ∈ Planner.input_dts self ∧
           r ∈ Planner.sql_table (Planner.meta_table dt) ∧
           matches (Planner.transform_keys self) dt k r ∧
           Planner.mr_update_ts r = u) ∧
  (∀ dt r, dt ∈ Planner.input_dts self →
           r ∈ Planner.sql_table (Planner.meta_table dt) →
           matches (Planner.transform_keys self) dt k r →
           Planner.mr_update_ts r ≤ u).

(** The stale predicate of the planner on a transform-key tuple: no
    transform-meta row, or [is_success] not true, or [is_success] true
    and the maximum [update_ts] of the matching input meta rows greater
    than [process_ts]. *)
Definition stale (self : Planner.BaseBatchTransformStep) (k : KeyRow) : Prop :=
  (∀ t, t ∈ Planner.tr_meta_rows self → Planner.tr_key t ≠ k) ∨
  (∃ t, t ∈ Planner.tr_meta_rows self ∧ Planner.tr_key t = k ∧
        (Planner.tr_is_success t = false ∨
         (Planner.tr_is_success t = true ∧
          ∃ u, max_update_ts self k u ∧ Planner.tr_process_ts t < u))).

(** A transform-key tuple the planner has to decide on: the key of an
    input meta row of [dt], or the key of a transform-meta row. *)
Definition candidate (self : Planner.BaseBatchTransformStep) (dt : Planner.DataTable) (k : KeyRow) : Prop :=
  (∃ r, r ∈ Planner.sql_table (Planner.meta_table dt) ∧ Planner.project (Planner.transform_keys self) (Planner.mr_key r) = k) ∨
  (∃ t, t ∈ Planner.tr_meta_rows self ∧ Planner.tr_key t = k).

(** A step over the single input [dt] as the planner expects it: at least
    one output; transform keys, each a primary key of the input; primary
    schema without a repeated column; key columns not NULL; the
    transform-meta table keyed by the transform keys, without a repeated
    key. *)
Record single_input (self : Planner.BaseBatchTransformStep) (dt : Planner.DataTable) : Prop := {
  si_inputs : Planner.input_dts self = [dt];
  si_outputs : Planner.output_dts self ≠ [];
  si_keys : Planner.transform_keys self ≠ [];
  si_keys_pk : ∀ key, key ∈ Planner.transform_keys self → key ∈ Planner.primary_keys (Planner.meta_table dt);
  si_pk_nodup : NoDup (Planner.primary_keys (Planner.meta_table dt));
  si_rows : ∀ r, r ∈ Planner.sql_table (Planner.meta_table dt) →
            ∀ key, key ∈ Planner.transform_keys self → is_Some (Planner.mr_key r !! key);
  si_tr_dom : ∀ t, t ∈ Planner.tr_meta_rows self →
              dom (Planner.tr_key t) = list_to_set (Planner.transform_keys self);
  si_tr_nodup : NoDup (Planner.tr_key <$> Planner.tr_meta_rows self)
}.

(** The batch is recorded in the transform meta of the step as a success
    at time [now]. *)
Definition marked_success (ds : Compute.DataStore) (step_name : string)
    (idx : IndexDF) (now : Z) : Prop :=
  ∀ k, k ∈ rows idx →
       ∃ t, t ∈ default [] (Compute.transform_meta ds !! step_name) ∧
            Planner.tr_key t = k ∧
            Planner.tr_is_success t = true ∧
            Planner.tr_process_ts t = now.

(** The store [ds'] differs from [ds] at most in the tables named in
    [outs] and in the exceptions logged: the transform meta and every
    other table are the same. *)
Definition same_but (outs : list string) (ds ds' : Compute.DataStore) : Prop :=
  Compute.transform_meta ds' = Compute.transform_meta ds ∧
  ∀ n, n ∉ outs → Compute.tables ds' !! n = Compute.tables ds !! n.


(** The type that the tables [dts] declare for the key column [k]: the
    type of the last column of that name in their primary schemas, the
    tables taken in order. *)
Definition declared_type (dts : list Planner.DataTable) (k : string)
    : option string :=
  Planner.col_type
    <$> last (filter (λ c, Planner.col_name c = k)
                     (concat ((λ dt, Planner.primary_schema (Planner.meta_table dt))
                                <$> dts))).

(** [k] is a join key of the step: it has inputs and outputs, and [k] is
    a primary-key column of every one of them. *)
Definition join_key (self : Planner.BaseBatchTransformStep) (k : string) : Prop :=
  Planner.input_dts self ≠ [] ∧ Planner.output_dts self ≠ [] ∧
  key_of_all (Planner.meta_table <$> Planner.input_dts self) k ∧
  key_of_all (Planner.meta_table <$> Planner.output_dts self) k.

(** The row [r] with the filter values [extra] assigned, one column after
    the other. *)
Definition with_columns (extra : list (string * Z)) (r : KeyRow) : KeyRow :=
  foldl (λ row kv, <[kv.1 := kv.2]> row) r extra.

(** The table row [row] has the primary key of a row of the index frame
    [idx]: none of its key cells is NULL and each equals the cell of that
    row of [idx]. *)
Definition keyed_by (primary_keys : list string) (idx : IndexDF) (row : KeyRow)
    : Prop :=
  ∃ i, i ∈ rows idx ∧
       ∀ key, key ∈ primary_keys → is_Some (row !! key) ∧ row !! key = i !! key.

#[global] Instance keyed_by_dec primary_keys idx row :
  Decision (keyed_by primary_keys idx row).
Proof.
  unfold keyed_by.
  destruct (decide (Exists (λ i, Forall (λ key, is_Some (row !! key) ∧
                                                row !! key = i !! key)
                                        primary_keys) (rows idx))) as [H|H].
  - left. apply Exists_exists in H as (i & Hi & H). exists i. split; [done|].
    intros key Hkey. by apply (proj1 (Forall_forall _ _) H).
  - right. intros (i & Hi & Hall). apply H, Exists_exists. exists i. split; [done|].
    by apply Forall_forall.
Defined.

(** [sep.join(l)] for a separator of one character. *)
Fixpoint join (sep : ascii) (l : list string) : string :=
  match l with
  | [] => ""
  | [w] => w
  | w :: ws => (w +:+ String sep (join sep ws))%string
  end.

End Statements.

(** * Properties *)

(** ** The metadata protocol of [c12n_pipe/datatable.py] *)

Module C12nFacts.

Import C12n.

Local Open Scope Z_scope.

Section Facts.

Variable hash_row : Row → Z.

Lemma read_rows_lookup {A : Type} (i : gset string) (m : gmap string A) (k : string) :
  read_rows (Some i) m !! k = if decide (k ∈ i) then m !! k else None.
Proof.
  unfold read_rows. destruct (m !! k) as [x|] eqn:E.
  - case_decide.
    + apply map_lookup_filter_Some. done.
    + apply map_lookup_filter_None. right. intros y Hy. simpl. done.
  - rewrite (proj2 (map_lookup_filter_None _ _ _)); [by case_decide|]. by left.
Qed.

Lemma delete_rows_lookup {A : Type} (i : gset string) (m : gmap string A) (k : string) :
  delete_rows i m !! k = if decide (k ∈ i) then None else m !! k.
Proof.
  unfold delete_rows. destruct (m !! k) as [x|] eqn:E.
  - case_decide.
    + apply map_lookup_filter_None. right. intros y Hy. simpl. tauto.
    + apply map_lookup_filter_Some. done.
  - rewrite (proj2 (map_lookup_filter_None _ _ _)); [by case_decide|]. by left.
Qed.

(** Every row of the chunk gets the meta row [ingested_meta]. *)
Lemma store_chunk_meta_in (dt : DataTable) (df : gmap string Row) (now : Z)
    (k : string) (r : Row) :
  df !! k = Some r →
  table_meta (store_chunk hash_row dt df now).1 !! k
  = Some (Statements.ingested_meta hash_row now r (table_meta dt !! k)).
Proof.
  intros Hk. unfold store_chunk. cbn [fst].
  set (existing := get_metadata dt (Some (dom df))).
  set (new_meta := _make_new_metadata_df hash_row now df).
  assert (Hnew : new_meta !! k = Some (mkMeta (hash_row r) now now now None)).
  { unfold new_meta, _make_new_metadata_df. by rewrite lookup_fmap, Hk. }
  assert (Hex : existing !! k = table_meta dt !! k).
  { unfold existing, get_metadata. rewrite read_rows_lookup.
    rewrite decide_True; [done|]. apply elem_of_dom. eauto. }
  rewrite decide_True.
  2:{ assert (new_meta ≠ ∅) as Hne by (intros E; rewrite E in Hnew; done).
      apply map_size_non_empty_iff in Hne. lia. }
  clearbody existing new_meta.
  unfold with_meta, insert_rows. cbn [table_meta].
  apply lookup_union_Some_l.
  unfold assign_update_ts, assign_create_ts.
  rewrite !map_lookup_imap, Hnew. cbn.
  rewrite Hex. unfold Statements.ingested_meta.
  set (changed := changed_of new_meta existing (dom existing ∩ dom new_meta)).
  destruct (table_meta dt !! k) as [e|] eqn:He.
  - assert (Hcommon : k ∈ dom existing ∩ dom new_meta).
    { apply elem_of_intersection. split; apply elem_of_dom; [rewrite Hex|]; eauto. }
    destruct (decide (hash_row r = hash e)) as [Heq|Hneq].
    + assert (k ∉ changed).
      { unfold changed, changed_of. rewrite elem_of_filter. intros [Hd _].
        unfold hash_differs in Hd. rewrite Hnew, Hex in Hd. cbn in Hd. done. }
      rewrite (decide_False (P := k ∈ changed)) by done. cbn.
      rewrite decide_True; [done|].
      apply elem_of_difference. split; [|done]. apply elem_of_dom. rewrite Hex. eauto.
    + assert (k ∈ changed).
      { unfold changed, changed_of. rewrite elem_of_filter. split; [|done].
        unfold hash_differs. rewrite Hnew, Hex. cbn. done. }
      rewrite (decide_True (P := k ∈ changed)) by done. cbn.
      rewrite decide_False; [done|].
      rewrite elem_of_difference. tauto.
  - assert (k ∉ changed).
    { unfold changed, changed_of. rewrite elem_of_filter. intros [Hd _].
      unfold hash_differs in Hd. rewrite Hnew, Hex in Hd. done. }
    rewrite (decide_False (P := k ∈ changed)) by done. cbn.
    rewrite decide_False; [done|].
    rewrite elem_of_difference. intros [Hd _]. apply elem_of_dom in Hd.
    rewrite Hex in Hd. by destruct Hd.
Qed.

(** The meta rows of keys outside the chunk are left as they are. *)
Lemma store_chunk_meta_out (dt : DataTable) (df : gmap string Row) (now : Z)
    (k : string) :
  df !! k = None →
  table_meta (store_chunk hash_row dt df now).1 !! k = table_meta dt !! k.
Proof.
  intros Hk. unfold store_chunk. cbn [fst].
  set (existing := get_metadata dt (Some (dom df))).
  set (new_meta := _make_new_metadata_df hash_row now df).
  assert (Hnew : new_meta !! k = None).
  { unfold new_meta, _make_new_metadata_df. by rewrite lookup_fmap, Hk. }
  assert (Hdom : k ∉ dom new_meta) by (by apply not_elem_of_dom).
  clearbody existing new_meta.
  case_decide; [|by case_decide].
  unfold with_meta, insert_rows. cbn [table_meta].
  rewrite lookup_union_r.
  - rewrite delete_rows_lookup, decide_False by done.
    unfold with_data. cbn [table_meta]. by case_decide.
  - unfold assign_update_ts, assign_create_ts.
    by rewrite !map_lookup_imap, Hnew.
Qed.

(** The part of the carry-forward rule that the code implements: a row
    whose hash equals the stored hash keeps the stored [update_ts], and a
    row whose hash differs gets [update_ts = now] and keeps the stored
    [create_ts]. *)
Lemma store_chunk_unchanged_row (dt : DataTable) (df : gmap string Row)
    (now : Z) (k : string) (r : Row) (e : MetaRow) :
  df !! k = Some r → table_meta dt !! k = Some e → hash_row r = hash e →
  table_meta (store_chunk hash_row dt df now).1 !! k
  = Some (mkMeta (hash e) now (update_ts e) now None).
Proof.
  intros Hk He Hh. rewrite (store_chunk_meta_in _ _ _ _ r) by done.
  rewrite He. unfold Statements.ingested_meta. rewrite decide_True by done. by rewrite Hh.
Qed.

Lemma store_chunk_changed_row (dt : DataTable) (df : gmap string Row)
    (now : Z) (k : string) (r : Row) (e : MetaRow) :
  df !! k = Some r → table_meta dt !! k = Some e → hash_row r ≠ hash e →
  table_meta (store_chunk hash_row dt df now).1 !! k
  = Some (mkMeta (hash_row r) (create_ts e) now now None).
Proof.
  intros Hk He Hh. rewrite (store_chunk_meta_in _ _ _ _ r) by done.
  rewrite He. unfold Statements.ingested_meta. by rewrite decide_False.
Qed.

(** Re-ingesting a chunk keeps [hash] and [update_ts] of each of its rows
    and sets [process_ts] to the later time; [create_ts] is what it does
    not keep. *)
Lemma store_chunk_twice (dt : DataTable) (df : gmap string Row)
    (now1 now2 : Z) (k : string) (r : Row) :
  df !! k = Some r →
  ∃ m1 : MetaRow,
    table_meta (store_chunk hash_row dt df now1).1 !! k = Some m1 ∧
    table_meta
      (store_chunk hash_row (store_chunk hash_row dt df now1).1 df now2).1 !! k
    = Some (mkMeta (hash m1) now2 (update_ts m1) now2 None).
Proof.
  intros Hk. eexists. split; [by apply store_chunk_meta_in|].
  apply (store_chunk_unchanged_row _ _ _ _ r); [done|by apply store_chunk_meta_in|].
  unfold Statements.ingested_meta. destruct (table_meta dt !! k); [case_decide|]; done.
Qed.

(** The half of the timestamp invariant that [store_chunk] keeps, with a
    clock that does not run backwards: [update_ts ≤ process_ts]. *)
Lemma store_chunk_update_le_process (dt : DataTable) (df : gmap string Row)
    (now : Z) :
  (∀ k m, table_meta dt !! k = Some m →
          update_ts m ≤ process_ts m ∧ process_ts m ≤ now) →
  ∀ k m, table_meta (store_chunk hash_row dt df now).1 !! k = Some m →
         update_ts m ≤ process_ts m ∧ process_ts m ≤ now.
Proof.
  intros Hinv k m Hm. destruct (df !! k) as [r|] eqn:E.
  - rewrite (store_chunk_meta_in _ _ _ _ r) in Hm by done. injection Hm as <-.
    unfold Statements.ingested_meta.
    destruct (table_meta dt !! k) as [e|] eqn:He; [|cbn; lia].
    destruct (Hinv k e He). case_decide; cbn; lia.
  - rewrite store_chunk_meta_out in Hm by done. by apply (Hinv k).
Qed.

Lemma foldl_union_chunks (chunks : list (gset string)) (acc : gset string) (k : string) :
  k ∈ foldl (λ a c, a ∪ c) acc chunks ↔ k ∈ acc ∨ ∃ c, c ∈ chunks ∧ k ∈ c.
Proof.
  revert acc. induction chunks as [|c chunks IH]; intros acc; cbn.
  - split; [auto|]. intros [?|(c & Hc & _)]; [done|]. by apply elem_of_nil in Hc.
  - rewrite IH, elem_of_union. split.
    + intros [[?|?]|(c' & Hc' & ?)]; [by left| |].
      * right. exists c. split; [apply list_elem_of_here|done].
      * right. exists c'. split; [by apply list_elem_of_further|done].
    + intros [?|(c' & Hc' & ?)]; [by left; left|].
      apply elem_of_cons in Hc' as [->|?]; [by left; right|].
      right. by exists c'.
Qed.

(** What [sync_meta] does to a row that it finds vanished: both its data
    row and its meta row are erased. *)
Lemma sync_meta_erases (dt : DataTable) (chunks : list (gset string))
    (processed_idx : option (gset string)) (k : string) :
  is_Some (get_metadata dt processed_idx !! k) →
  (∀ c, c ∈ chunks → k ∉ c) →
  table_meta (sync_meta dt chunks processed_idx) !! k = None ∧
  table_data (sync_meta dt chunks processed_idx) !! k = None.
Proof.
  intros Hex Hnot. unfold sync_meta.
  set (idx := foldl (λ acc chunk, acc ∪ chunk) ∅ chunks).
  assert (Hk : k ∈ dom (get_metadata dt processed_idx) ∖ idx).
  { apply elem_of_difference. split; [by apply elem_of_dom|].
    unfold idx. rewrite foldl_union_chunks. intros [?|(c & Hc & ?)]; [set_solver|].
    by apply (Hnot c). }
  rewrite decide_True.
  2:{ assert (size (dom (get_metadata dt processed_idx) ∖ idx) ≠ 0%nat); [|lia].
      intros Hz. apply size_empty_inv in Hz. apply Hz in Hk.
      by apply not_elem_of_empty in Hk. }
  unfold with_meta, with_data. cbn [table_meta table_data].
  rewrite !delete_rows_lookup, !decide_True by done. done.
Qed.

End Facts.

(** C2 (defect of the code).  Claim: a chunk row whose key already has a
    meta row keeps the existing [create_ts].  At the failing input, the
    rows "0" and "1" ingested at time 1 and ingested again unchanged at
    time 2, the code writes [create_ts = 2] for row "0", whose meta row
    existed with [create_ts = 1]; its [update_ts] is carried forward. *)
Lemma C2_unchanged_row_gets_new_create_ts :
  create_ts <$> table_meta Examples.src_first !! "0" = Some 1 ∧
  create_ts <$> table_meta Examples.src_second !! "0" = Some 2 ∧
  update_ts <$> table_meta Examples.src_second !! "0" = Some 1.
Proof. vm_compute. done. Qed.

(** C3 (defect of the code).  Claim: after each ingest every live meta
    row has [create_ts ≤ update_ts ≤ process_ts].  After the second of two
    ingests of the same rows the meta row of "0" is live and has
    [create_ts = 2 > update_ts = 1]. *)
Lemma C3_create_ts_after_update_ts :
  ∃ m : MetaRow,
    table_meta Examples.src_second !! "0" = Some m ∧
    delete_ts m = None ∧
    update_ts m < create_ts m ∧
    update_ts m ≤ process_ts m.
Proof. eexists. split; [vm_compute; reflexivity|]. vm_compute. intuition congruence. Qed.

(** C4 (defect of the code).  Claim: a second ingest of the same chunk
    keeps [hash] and [update_ts] and lets only [process_ts] advance.  At
    the failing input [hash] and [update_ts] of row "0" are kept and
    [process_ts] advances from 1 to 2, but [create_ts] advances from 1 to
    2 as well. *)
Lemma C4_reingest_advances_create_ts :
  hash <$> table_meta Examples.src_second !! "0"
    = hash <$> table_meta Examples.src_first !! "0" ∧
  update_ts <$> table_meta Examples.src_second !! "0"
    = update_ts <$> table_meta Examples.src_first !! "0" ∧
  process_ts <$> table_meta Examples.src_first !! "0" = Some 1 ∧
  process_ts <$> table_meta Examples.src_second !! "0" = Some 2 ∧
  create_ts <$> table_meta Examples.src_second !! "0"
    ≠ create_ts <$> table_meta Examples.src_first !! "0".
Proof. vm_compute. intuition congruence. Qed.

(** C5 (defect of the code).  Claim: a vanished row is tombstoned, its
    meta row retained with [delete_ts] set.  At the failing input, row
    "0" missing from the synced chunk, [sync_meta] erases the data row
    and the meta row alike. *)
Lemma C5_sync_meta_erases_meta_row :
  is_Some (table_meta Examples.src_second !! "0") ∧
  table_data Examples.src_synced !! "0" = None ∧
  table_meta Examples.src_synced !! "0" = None ∧
  is_Some (table_meta Examples.src_synced !! "1").
Proof. vm_compute. intuition eauto. Qed.

End C12nFacts.

(** ** Facts about [result] *)

Lemma bind_Ok {A B : Type} (m : result A) (f : A → result B) (b : B) :
  (m ≫= f) = Ok b ↔ ∃ a, m = Ok a ∧ f a = Ok b.
Proof.
  destruct m as [a|e]; cbn; split.
  - eauto.
  - by intros (a' & [= ->] & ?).
  - done.
  - by intros (a' & ? & ?).
Qed.

Lemma assert_Ok (P : Prop) `{Decision P} (u : unit) : assert P = Ok u ↔ P.
Proof. unfold assert. destruct u. case_decide; split; (done || tauto). Qed.

Lemma mapR_Ok_ex {A B : Type} (f : A → result B) (l : list A) :
  (∀ x, x ∈ l → ∃ y, f x = Ok y) → ∃ ys, mapR f l = Ok ys.
Proof.
  induction l as [|x l IH]; intros H; cbn; [eauto|].
  destruct (H x) as [y Hy]; [apply list_elem_of_here|]. rewrite Hy. cbn.
  destruct IH as [ys Hys]; [intros; apply H; by apply list_elem_of_further|].
  rewrite Hys. cbn. eauto.
Qed.

(** ** The planner of [datapipe/core_steps.py] *)

Module PlannerFacts.

Import Planner Statements.

Local Open Scope Z_scope.

Lemma foldl_intersection (s : gset string) (r : list (gset string)) (k : string) :
  k ∈ foldl (∩) s r ↔ k ∈ s ∧ ∀ x, x ∈ r → k ∈ x.
Proof.
  revert s. induction r as [|x r IH]; intros s; cbn.
  - split; [|tauto]. intros ?. split; [done|]. intros x Hx. by apply elem_of_nil in Hx.
  - rewrite IH, elem_of_intersection. split.
    + intros [[? ?] Hr]. split; [done|]. intros y Hy.
      apply elem_of_cons in Hy as [->|?]; auto.
    + intros [? Hr]. split; [split|]; [done| |].
      * apply Hr, list_elem_of_here.
      * intros y Hy. by apply Hr, list_elem_of_further.
Qed.

Lemma set_intersection_spec (mts : list MetaTable) (s : gset string) :
  set_intersection (pk_set <$> mts) = Ok s →
  mts ≠ [] ∧ ∀ k, k ∈ s ↔ key_of_all mts k.
Proof.
  destruct mts as [|mt mts]; cbn; [done|]. intros [= <-]. split; [done|].
  intros k. rewrite foldl_intersection. unfold key_of_all, pk_set.
  rewrite elem_of_list_to_set. split.
  - intros [H1 H2] x Hx. apply elem_of_cons in Hx as [->|Hx]; [done|].
    specialize (H2 (pk_set x)). unfold pk_set in H2.
    rewrite elem_of_list_to_set in H2. apply H2.
    apply list_elem_of_fmap. eauto.
  - intros H. split; [apply H, list_elem_of_here|].
    intros x Hx. apply list_elem_of_fmap in Hx as (y & -> & Hy).
    apply elem_of_list_to_set. by apply H, list_elem_of_further.
Qed.

Lemma set_intersection_Ok (mts : list MetaTable) :
  mts ≠ [] → ∃ s, set_intersection (pk_set <$> mts) = Ok s.
Proof. destruct mts; [done|]. cbn. eauto. Qed.

Lemma size_pos_elem (s : gset string) : (0 < size s)%nat ↔ ∃ k, k ∈ s.
Proof.
  split.
  - intros H. apply set_choose_L. intros ->. rewrite size_empty in H. lia.
  - intros [k Hk]. assert (size s ≠ 0%nat); [|lia].
    intros Hz. apply size_empty_inv in Hz. apply Hz in Hk. by apply not_elem_of_empty in Hk.
Qed.

Lemma all_keys_foldl (cols : list Column) (acc : gmap string Column) (k : string) :
  is_Some (foldl (λ a col, <[col_name col := col]> a) acc cols !! k)
  ↔ is_Some (acc !! k) ∨ k ∈ col_name <$> cols.
Proof.
  revert acc. induction cols as [|c cols IH]; intros acc; cbn.
  - split; [auto|]. intros [?|H]; [done|]. by apply elem_of_nil in H.
  - rewrite IH, elem_of_cons. destruct (decide (col_name c = k)) as [->|Hne].
    + rewrite lookup_insert_eq. split; [intros _; right; by left|intros _; left; eauto].
    + rewrite lookup_insert_ne by done. split; [intros [?|?]; auto|].
      intros [?|[?|?]]; auto. congruence.
Qed.

Lemma elem_of_concat {A : Type} (x : A) (ls : list (list A)) :
  x ∈ concat ls ↔ ∃ l, l ∈ ls ∧ x ∈ l.
Proof.
  rewrite list_elem_of_In, in_concat. split; intros (l & H1 & H2); exists l;
    by rewrite ?list_elem_of_In in *.
Qed.

Lemma all_keys_of_input (input_mts output_mts : list MetaTable) (mt : MetaTable) (k : string) :
  mt ∈ input_mts → k ∈ primary_keys mt →
  is_Some (all_keys_of input_mts output_mts !! k).
Proof.
  intros Hmt Hk. unfold all_keys_of. apply all_keys_foldl. right.
  unfold primary_keys in Hk. apply list_elem_of_fmap in Hk as (c & -> & Hc).
  apply list_elem_of_fmap. exists c. split; [done|].
  apply elem_of_concat. exists (primary_schema mt). split; [|done].
  apply list_elem_of_fmap. exists mt. split; [done|]. apply elem_of_app. by left.
Qed.

Lemma lookup_cols_Ok (input_mts output_mts : list MetaTable) (ks : list string) :
  input_mts ≠ [] → (∀ k, k ∈ ks → key_of_all input_mts k) →
  ∃ cols, lookup_cols (all_keys_of input_mts output_mts) ks = Ok cols.
Proof.
  intros Hne H. apply mapR_Ok_ex. intros k Hk.
  destruct input_mts as [|mt mts]; [done|].
  destruct (all_keys_of_input (mt :: mts) output_mts mt k) as [c Hc].
  - apply list_elem_of_here.
  - apply (H k Hk), list_elem_of_here.
  - rewrite Hc. eauto.
Qed.

(** The default transform keys, computed when none are declared. *)
Lemma compute_transform_schema_default (input_mts output_mts : list MetaTable)
    (keys : list string) (cols : list Column) :
  compute_transform_schema input_mts output_mts None = Ok (keys, cols) →
  input_mts ≠ [] ∧ keys ≠ [] ∧
  ∀ k, k ∈ keys ↔ key_of_all input_mts k ∧ key_of_all output_mts k.
Proof.
  unfold compute_transform_schema. intros H.
  apply bind_Ok in H as (u1 & Ha1 & H). apply assert_Ok in Ha1.
  apply bind_Ok in H as (inp & Hinp & H).
  apply set_intersection_spec in Hinp as [Hne Hinp].
  apply bind_Ok in H as (u2 & Ha2 & H). apply assert_Ok in Ha2.
  apply size_pos_elem in Ha2 as [k0 Hk0].
  case_decide as Hout.
  - apply bind_Ok in H as (cs & _ & [= <- <-]).
    destruct output_mts; [|done].
    split; [done|]. split.
    { intros E. assert (k0 ∈ elements inp) as Hin by (by apply elem_of_elements).
      rewrite E in Hin. by apply elem_of_nil in Hin. }
    intros k. rewrite elem_of_elements, Hinp. split; [|tauto].
    intros ?. split; [done|]. intros mt Hmt. by apply elem_of_nil in Hmt.
  - apply bind_Ok in H as (out & Hout' & H).
    apply set_intersection_spec in Hout' as [_ Hout'].
    apply bind_Ok in H as (u3 & _ & H).
    apply bind_Ok in H as (u4 & Ha4 & H). apply assert_Ok in Ha4.
    apply size_pos_elem in Ha4 as [k1 Hk1].
    apply bind_Ok in H as (cs & _ & [= <- <-]).
    split; [done|]. split.
    { intros E. assert (k1 ∈ elements (inp ∩ out)) as Hin by (by apply elem_of_elements).
      rewrite E in Hin. by apply elem_of_nil in Hin. }
    intros k. by rewrite elem_of_elements, elem_of_intersection, Hinp, Hout'.
Qed.

Lemma assert_true (P : Prop) `{Decision P} : P → assert P = Ok tt.
Proof. intros HP. unfold assert. by rewrite decide_True. Qed.

Lemma compute_transform_schema_total (input_mts output_mts : list MetaTable) :
  input_mts ≠ [] →
  (∃ k, key_of_all input_mts k ∧ key_of_all output_mts k) →
  ∃ ks, compute_transform_schema input_mts output_mts None = Ok ks.
Proof.
  intros Hne (k & Hki & Hko). unfold compute_transform_schema.
  rewrite assert_true by (destruct input_mts; [done|cbn; lia]). cbn.
  destruct (set_intersection_Ok input_mts Hne) as [inp Hinp]. rewrite Hinp. cbn.
  pose proof (set_intersection_spec _ _ Hinp) as [_ Sinp].
  rewrite (assert_true (0 < size inp)%nat)
    by (apply size_pos_elem; exists k; by apply Sinp).
  cbn.
  case_decide as Hout.
  - destruct (lookup_cols_Ok input_mts output_mts (elements inp) Hne) as [cols Hc].
    { intros k' Hk'. apply Sinp. by apply elem_of_elements. }
    rewrite Hc. cbn. eauto.
  - assert (output_mts ≠ []) as Hno by (destruct output_mts; done).
    destruct (set_intersection_Ok output_mts Hno) as [out Hout']. rewrite Hout'. cbn.
    pose proof (set_intersection_spec _ _ Hout') as [_ Sout].
    rewrite (assert_true (0 < size out)%nat)
      by (apply size_pos_elem; exists k; by apply Sout).
    cbn.
    rewrite assert_true
      by (apply size_pos_elem; exists k; by rewrite elem_of_intersection, Sinp, Sout).
    cbn.
    destruct (lookup_cols_Ok input_mts output_mts (elements (inp ∩ out)) Hne) as [cols Hc].
    { intros k' Hk'. apply Sinp. apply elem_of_elements in Hk'.
      by apply elem_of_intersection in Hk' as [? _]. }
    rewrite Hc. cbn. eauto.
Qed.

(** In these sources the constructor of a batch step raises on every
    call: [ComputeStep.__init__] has no parameter [executor_config]. *)
Lemma BaseBatchTransformStep_init_raises (input_dts output_dts : list DataTable)
    (transform_keys : option (list string)) (chunk_size : Z)
    (filters : option (gmap string Z)) (existing_meta : list TransformMetaRow) :
  BaseBatchTransformStep_init input_dts output_dts transform_keys chunk_size
                              filters existing_meta = Raise TypeError.
Proof. reflexivity. Qed.

(** C9.  [compute_transform_schema] without declared [transform_keys]:
    the keys it returns are, without a repetition, exactly the column
    names that are primary keys of every input and of every output; it
    raises, so that no step is constructed, whenever no column is common
    to all inputs and all outputs, or to all inputs, or to all outputs;
    and with at least one input and a common column it returns. *)
Theorem C9_default_transform_keys (input_mts output_mts : list MetaTable) :
  (∀ keys cols,
     compute_transform_schema input_mts output_mts None = Ok (keys, cols) →
     NoDup keys ∧
     ∀ k, k ∈ keys ↔ key_of_all input_mts k ∧ key_of_all output_mts k) ∧
  ((¬ ∃ k, key_of_all input_mts k ∧ key_of_all output_mts k) ∨
   (¬ ∃ k, key_of_all input_mts k) ∨
   (¬ ∃ k, key_of_all output_mts k) →
   ∃ e, compute_transform_schema input_mts output_mts None = Raise e) ∧
  (input_mts ≠ [] →
   (∃ k, key_of_all input_mts k ∧ key_of_all output_mts k) →
   ∃ keys cols,
     compute_transform_schema input_mts output_mts None = Ok (keys, cols)).
Proof.
  split; [|split].
  - intros keys cols H. split.
    + unfold compute_transform_schema in H.
      apply bind_Ok in H as (u1 & _ & H).
      apply bind_Ok in H as (inp & _ & H).
      apply bind_Ok in H as (u2 & _ & H).
      case_decide.
      * apply bind_Ok in H as (cs & _ & [= <- <-]). apply NoDup_elements.
      * apply bind_Ok in H as (out & _ & H).
        apply bind_Ok in H as (u3 & _ & H).
        apply bind_Ok in H as (u4 & _ & H).
        apply bind_Ok in H as (cs & _ & [= <- <-]). apply NoDup_elements.
    + by apply compute_transform_schema_default in H as (_ & _ & ?).
  - intros Hempty.
    destruct (compute_transform_schema input_mts output_mts None)
      as [[keys cols]|e] eqn:E; [exfalso|eauto].
    apply compute_transform_schema_default in E as (_ & Hne & Hkeys).
    destruct keys as [|k keys]; [done|].
    assert (Hk : key_of_all input_mts k ∧ key_of_all output_mts k).
    { apply Hkeys, list_elem_of_here. }
    destruct Hempty as [H|[H|H]]; apply H; exists k; tauto.
  - intros Hne Hk.
    destruct (compute_transform_schema_total input_mts output_mts Hne Hk)
      as [[keys cols] Hks].
    eauto.
Qed.

(** A use of C9: for the inputs [a] and [b] and the output [out], all
    keyed by [id], the transform key is [id]; for the input [a] and an
    output keyed by [name] the call raises. *)
Lemma C9_default_transform_keys_witness :
  (NoDup ["id"] ∧
   ∀ k, k ∈ ["id"] ↔
        key_of_all (meta_table <$> [Examples.tbl_a; Examples.tbl_b]) k ∧
        key_of_all (meta_table <$> [Examples.tbl_out]) k) ∧
  (∃ e, compute_transform_schema (meta_table <$> [Examples.tbl_a])
                                 (meta_table <$> [Examples.tbl_named]) None
        = Raise e).
Proof.
  split.
  - apply (proj1 (C9_default_transform_keys
                    (meta_table <$> [Examples.tbl_a; Examples.tbl_b])
                    (meta_table <$> [Examples.tbl_out]))
                 ["id"] [Examples.id_col]).
    vm_compute. reflexivity.
  - apply (proj1 (proj2 (C9_default_transform_keys
                           (meta_table <$> [Examples.tbl_a])
                           (meta_table <$> [Examples.tbl_named])))).
    left. intros (k & Hi & Ho).
    specialize (Hi _ (list_elem_of_here _ _)).
    specialize (Ho _ (list_elem_of_here _ _)).
    vm_compute in Hi, Ho.
    apply list_elem_of_singleton in Hi. apply list_elem_of_singleton in Ho.
    congruence.
Defined.

(** *** Batching *)

Lemma ceil_unique (a b n : Z) :
  0 < b → (n - 1) * b < a ≤ n * b → - ((- a) / b) = n.
Proof.
  intros Hb H. symmetry. apply Z.opp_inj. rewrite Z.opp_involutive.
  apply Z.div_unique with (r := n * b - a); lia.
Qed.

(** Below [2^53] the division in floating point loses nothing that
    [math.ceil] needs: [math.ceil(a / b)] is the ceiling of the exact
    quotient. *)
Lemma math_ceil_div_exact (a b : Z) :
  0 ≤ a < 2 ^ 53 → 0 < b < 2 ^ 53 → math_ceil_div a b = Ok (- ((- a) / b)).
Proof.
  intros Ha Hb. unfold math_ceil_div, int_true_div.
  rewrite decide_False by lia.
  destruct (decide (a = 0)) as [->|Hne]; [done|].
  rewrite (Z.abs_eq a), (Z.abs_eq b) by lia.
  assert (Hla : 0 ≤ Z.log2 a ≤ 52).
  { split; [apply Z.log2_nonneg|]. assert (Z.log2 a < 53); [|lia].
    apply Z.log2_lt_pow2; lia. }
  assert (Hlb : 0 ≤ Z.log2 b ≤ 52).
  { split; [apply Z.log2_nonneg|]. assert (Z.log2 b < 53); [|lia].
    apply Z.log2_lt_pow2; lia. }
  pose proof (Z.log2_spec a ltac:(lia)) as Sa.
  pose proof (Z.log2_spec b ltac:(lia)) as Sb.
  set (d := Z.log2 a - Z.log2 b) in *.
  set (p := if decide (scaled_den d b ≤ scaled_num d a) then d else d - 1).
  assert (Hp : d - 1 ≤ p ≤ d) by (unfold p; case_decide; lia).
  rewrite Z.max_l by lia.
  set (e := p - 52) in *.
  destruct (decide (0 ≤ e)) as [He|He].
  - (* the quotient is [2^52] at least: [b = 1] *)
    assert (e = 0) as He0 by lia.
    assert (Z.log2 b = 0) as Hb0 by lia. rewrite Hb0 in Sb.
    assert (b = 1) as -> by (cbn in Sb; lia).
    unfold scaled_num, scaled_den. rewrite !(decide_True (P := 0 ≤ e)) by lia.
    rewrite He0. cbn [Z.pow Z.mul]. rewrite Z.mul_1_l. change (2 ^ 0) with 1.
    rewrite Z.div_1_r, Z.mod_1_r.
    rewrite (decide_False (P := 1 < 2 * 0 ∨ _)) by lia.
    rewrite decide_False by (change (2 ^ 1024) with (2 ^ 53 * 2 ^ 971); lia).
    cbn. unfold math_ceil. cbn [fst snd]. rewrite decide_True by lia.
    f_equal. rewrite Z.div_1_r.
    replace (Z.sgn a) with 1 by (symmetry; apply Z.sgn_pos; lia). cbn. lia.
  - unfold scaled_num, scaled_den. rewrite !(decide_False (P := 0 ≤ e)) by done.
    rewrite (decide_False (P := 0 ≤ e ∧ _)) by lia.
    cbn. unfold math_ceil. cbn [fst snd]. rewrite (decide_False (P := 0 ≤ e)) by done.
    replace (Z.sgn a) with 1 by (symmetry; apply Z.sgn_pos; lia).
    replace (Z.sgn b) with 1 by (symmetry; apply Z.sgn_pos; lia).
    rewrite !Z.mul_1_l. f_equal.
    assert (HK : 0 < 2 ^ (- e)) by (apply Z.pow_pos_nonneg; lia).
    assert (HbK : b < 2 * 2 ^ (- e)).
    { assert (Z.log2 b ≤ - e) by lia.
      assert (2 ^ (Z.log2 b) ≤ 2 ^ (- e)) by (apply Z.pow_le_mono_r; lia).
      rewrite Z.pow_succ_r in Sb by lia. lia. }
    generalize dependent (2 ^ (- e)). intros K HK HbK.
    set (n := - (- a / b)).
    assert (Hn : (n - 1) * b < a ≤ n * b).
    { unfold n. pose proof (Z.div_mod (- a) b ltac:(lia)).
      pose proof (Z.mod_pos_bound (- a) b ltac:(lia)). nia. }
    clearbody n.
    pose proof (Z.div_mod (a * K) b ltac:(lia)) as Hdm.
    pose proof (Z.mod_pos_bound (a * K) b ltac:(lia)) as Hmb.
    set (m0 := a * K / b) in *. set (r := (a * K) mod b) in *.
    clearbody m0 r. clear - HK HbK Hn Hdm Hmb Hb.
    apply ceil_unique; [done|].
    assert (Hlo : (n - 1) * K ≤ m0) by nia.
    assert (Hhi : m0 ≤ n * K) by nia.
    case_decide as Hr.
    + split; [lia|]. assert (m0 ≠ n * K) by nia. lia.
    + split; [|lia]. assert (m0 ≠ (n - 1) * K) by nia. lia.
Qed.

(** Beyond that range the two differ: a chunk size that the division
    turns into a quotient of zero gives no batch at all. *)
Lemma math_ceil_div_huge :
  math_ceil_div 3 (10 ^ 400) = Ok 0 ∧
  math_ceil_div (2 ^ 53 + 1) 1 = Ok (2 ^ 53) ∧
  math_ceil_div (10 ^ 400) 3 = Raise OverflowError.
Proof. repeat split; vm_compute; reflexivity. Qed.

Lemma chunked_length {A : Type} (fuel n : nat) (l : list A) :
  Forall (λ c, length c ≤ n)%nat (chunked fuel n l).
Proof.
  revert l. induction fuel as [|fuel IH]; intros l; cbn; [constructor|].
  destruct l as [|x l]; [constructor|]. constructor; [|apply IH].
  rewrite length_take. lia.
Qed.

Lemma add_column_rows_length (k : string) (v : Z) (df : IndexDF) :
  length (rows (add_column k v df)) = length (rows df).
Proof. unfold add_column. cbn. by rewrite length_fmap. Qed.

Lemma add_columns_rows_length (extra : list (string * Z)) (df : IndexDF) :
  length (rows (foldl (λ d kv, add_column kv.1 kv.2 d) df extra)) = length (rows df).
Proof.
  revert df. induction extra as [|kv extra IH]; intros df; cbn; [done|].
  by rewrite IH, add_column_rows_length.
Qed.

(** [get_full_process_ids] returns the ceiling of the number of selected
    keys over the chunk size, and batches of at most that many keys. *)
Lemma get_full_process_ids_batches (self : BaseBatchTransformStep)
    (ds : DataStore) (run_config : option RunConfig) (n : Z)
    (batches : list IndexDF) :
  0 < chunk_size self → input_dts self ≠ [] →
  get_full_process_ids self ds None run_config = Ok (n, batches) →
  (∃ q, _build_changed_idx_sql self ds
          (_apply_filters_to_run_config self
             (_apply_filters_to_run_config self run_config)) = Ok q ∧
        math_ceil_div (Z.of_nat (length q.2)) (chunk_size self) = Ok n) ∧
  Forall (λ b, Z.of_nat (length (rows b)) ≤ chunk_size self) batches.
Proof.
  intros Hcs Hin H. unfold get_full_process_ids in H.
  rewrite decide_False in H by (by destruct (input_dts self)).
  apply bind_Ok in H as (cnt & Hcnt & H).
  unfold get_changed_idx_count in Hcnt.
  apply bind_Ok in Hcnt as (q0 & Hq0 & [= <-]).
  apply bind_Ok in H as (q & Hq & H).
  apply bind_Ok in H as (m & Hm & [= <- <-]).
  split; [eauto|].
  apply Forall_fmap, Forall_forall. intros b Hb. cbn.
  rewrite add_columns_rows_length.
  unfold read_sql_query in Hb. destruct (q.2) as [|x l] eqn:El.
  - apply list_elem_of_singleton in Hb as ->. cbn. lia.
  - apply list_elem_of_fmap in Hb as (c & -> & Hc). cbn.
    pose proof (chunked_length (length (x :: l)) (Z.to_nat (chunk_size self)) (x :: l)) as HF.
    rewrite Forall_forall in HF. specialize (HF c Hc). lia.
Qed.

(** Cutting a list into consecutive slices of [c] elements loses
    nothing. *)
Lemma concat_slices {A : Type} (c : nat) (l : list A) :
  (0 < c)%nat →
  concat ((λ i : nat, take c (drop (i * c) l))
            <$> seq 0 ((length l + c - 1) `div` c)) = l.
Proof.
  intros Hc. remember (length l) as len eqn:Hlen.
  revert l Hlen. induction len as [len IH] using lt_wf_ind. intros l Hlen.
  destruct l as [|x l'].
  - cbn in Hlen. subst len.
    replace ((0 + c - 1) `div` c)%nat with 0%nat; [done|].
    symmetry. apply Nat.div_small. lia.
  - set (l := x :: l') in *.
    assert (Hpos : (0 < len)%nat) by (subst len; cbn; lia).
    assert (Hdiv : ((len + c - 1) `div` c = S ((len - c + c - 1) `div` c))%nat).
    { destruct (decide (c ≤ len)%nat).
      - replace (len + c - 1)%nat with ((len - c + c - 1) + 1 * c)%nat by lia.
        rewrite Nat.div_add by lia. lia.
      - replace (len - c + c - 1)%nat with (c - 1)%nat by lia.
        rewrite (Nat.div_small (c - 1)) by lia.
        replace (len + c - 1)%nat with ((len - 1) + 1 * c)%nat by lia.
        rewrite Nat.div_add by lia. rewrite Nat.div_small by lia. done. }
    rewrite Hdiv. cbn [seq fmap list_fmap concat]. rewrite Nat.mul_0_l, drop_0.
    rewrite <- fmap_S_seq, <- list_fmap_compose.
    transitivity (take c l ++ drop c l); [|apply take_drop]. f_equal.
    transitivity
      (concat ((λ i : nat, take c (drop (i * c) (drop c l)))
                 <$> seq 0 ((len - c + c - 1) `div` c))).
    + f_equal. apply list_fmap_ext. intros i j _. cbn.
      rewrite drop_drop. do 2 f_equal; lia.
    + apply (IH (len - c)%nat); [lia|]. rewrite length_drop. lia.
Qed.

(** [get_change_list_process_ids] returns the number of keys as its first
    component, and its batches hold at most [chunk_size] keys each. *)
Lemma get_change_list_process_ids_batches (self : BaseBatchTransformStep)
    (ds : DataStore) (change_list : ChangeList) (run_config : option RunConfig)
    (n : Z) (batches : list IndexDF) :
  0 < chunk_size self < 2 ^ 53 → n < 2 ^ 53 →
  get_change_list_process_ids self ds change_list run_config = Ok (n, Ok batches) →
  Forall (λ b, Z.of_nat (length (rows b)) ≤ chunk_size self) batches ∧
  n = Z.of_nat (length (concat (rows <$> batches))).
Proof.
  intros Hcs Hlen H. unfold get_change_list_process_ids in H.
  apply bind_Ok in H as (listed & _ & [= <- Hgen]).
  set (idx := drop_duplicates [] (concat (rows <$> listed))) in *.
  clearbody idx.
  apply bind_Ok in Hgen as (m & Hm & [= <-]).
  cbn [rows] in Hlen, Hm.
  rewrite math_ceil_div_exact in Hm by lia.
  injection Hm as <-. cbn [rows].
  set (cs := chunk_size self) in *.
  assert (Hslice : ∀ i : nat,
            rows (slice_rows (Z.of_nat i * cs) ((Z.of_nat i + 1) * cs)
                             (mkIdx (transform_keys self) idx))
            = take (Z.to_nat cs) (drop (i * Z.to_nat cs) idx)).
  { intros i. unfold slice_rows. cbn. f_equal; [f_equal; lia|f_equal; nia]. }
  split.
  - apply Forall_fmap, Forall_forall. intros i _. cbn -[slice_rows].
    rewrite Hslice, length_take. lia.
  - rewrite <- list_fmap_compose.
    erewrite (list_fmap_ext _ (λ i : nat, take (Z.to_nat cs) (drop (i * Z.to_nat cs) idx)));
      [|intros; apply Hslice].
    assert (Hc : (0 < Z.to_nat cs)%nat) by lia.
    assert (Hn : Z.to_nat (- (- Z.of_nat (length idx) / cs))
                 = Nat.div (length idx + Z.to_nat cs - 1) (Z.to_nat cs)).
    { apply Nat2Z.inj. rewrite Nat2Z.inj_div, Nat2Z.inj_sub, Nat2Z.inj_add by lia.
      rewrite !Z2Nat.id.
      - generalize (Z.of_nat (length idx)). intros a.
        replace (a + cs - Z.of_nat 1) with ((cs - 1 - - a)) by lia.
        assert (0 < cs) by lia.
        pose proof (Z.div_mod (- a) cs ltac:(lia)).
        pose proof (Z.mod_pos_bound (- a) cs ltac:(lia)).
        apply Z.div_unique with (r := cs - 1 - (- a) mod cs); lia.
      - lia.
      - assert (- Z.of_nat (length idx) / cs ≤ 0); [|lia].
        apply Z.div_le_upper_bound; lia. }
    rewrite Hn. by rewrite concat_slices.
Qed.

(** C8 (defect of the code).  Claim: both planner entry points return
    [ceil(total / chunk_size)] as the batch count.  At the failing input,
    three changed keys and [chunk_size = 2], [get_change_list_process_ids]
    returns 3, the number of keys, with its two batches of at most two
    keys; [ceil(3 / 2)] is 2, which is what [get_full_process_ids]
    returns for three stale keys. *)
Lemma C8_change_list_count_is_key_count :
  (∃ batches,
     get_change_list_process_ids Examples.step_a (mkDS "sqlite")
                                 Examples.three_changes None
       = Ok (3, Ok batches) ∧
     length batches = 2%nat ∧
     Forall (λ b, Z.of_nat (length (rows b)) ≤ 2) batches) ∧
  math_ceil_div 3 2 = Ok 2 ∧
  (∃ batches,
     get_full_process_ids Examples.step_a3 (mkDS "sqlite") None None
       = Ok (2, batches) ∧
     length batches = 2%nat).
Proof.
  split; [|split].
  - eexists. split; [vm_compute; reflexivity|]. split; [done|].
    repeat constructor; cbn; lia.
  - vm_compute. reflexivity.
  - eexists. split; [vm_compute; reflexivity|done].
Qed.

(** *** The planner statement on a single input *)

Lemma elem_of_full_outer_join {A B : Type} (on : A → B → bool)
    (L : list A) (R : list B) (p : option A * option B) :
  p ∈ Sql.full_outer_join on L R ↔
  (∃ l r, p = (Some l, Some r) ∧ l ∈ L ∧ r ∈ R ∧ on l r = true) ∨
  (∃ l, p = (Some l, None) ∧ l ∈ L ∧ ∀ r, r ∈ R → on l r = false) ∨
  (∃ r, p = (None, Some r) ∧ r ∈ R ∧ ∀ l, l ∈ L → on l r = false).
Proof.
  unfold Sql.full_outer_join. rewrite !elem_of_app. 
  assert (Hnone : ∀ (X Y : Type) (f : X → Y → bool) (x : X) (ys : list Y),
            forallb (λ y, negb (f x y)) ys = true ↔ ∀ y, y ∈ ys → f x y = false).
  { intros X Y f x ys. rewrite forallb_forall. split; intros H y Hy.
    - apply list_elem_of_In in Hy. apply H in Hy. by destruct (f x y).
    - apply list_elem_of_In in Hy. by rewrite (H y Hy). }
  assert (Hnone' : ∀ (X Y : Type) (f : X → Y → bool) (y : Y) (xs : list X),
            forallb (λ x, negb (f x y)) xs = true ↔ ∀ x, x ∈ xs → f x y = false).
  { intros X Y f y xs. rewrite forallb_forall. split; intros H x Hx.
    - apply list_elem_of_In in Hx. apply H in Hx. by destruct (f x y).
    - apply list_elem_of_In in Hx. by rewrite (H x Hx). }
  split.
  - intros [H|[H|H]].
    + left. apply list_elem_of_In, in_flat_map in H as (l & Hl & H).
      apply list_elem_of_In, list_elem_of_fmap in H as (r & -> & Hr).
      apply list_elem_of_filter in Hr as [Hon Hr].
      exists l, r. rewrite list_elem_of_In. split; [done|]. split; [done|].
      split; [done|]. by apply Is_true_eq_true.
    + right. left. apply list_elem_of_fmap in H as (l & -> & Hl).
      apply list_elem_of_filter in Hl as [Hno Hl].
      exists l. split; [done|]. split; [done|]. apply Hnone. by apply Is_true_eq_true.
    + right. right. apply list_elem_of_fmap in H as (r & -> & Hr).
      apply list_elem_of_filter in Hr as [Hno Hr].
      exists r. split; [done|]. split; [done|]. apply Hnone'. by apply Is_true_eq_true.
  - intros [(l & r & -> & Hl & Hr & Hon)|[(l & -> & Hl & Hno)|(r & -> & Hr & Hno)]].
    + left. apply list_elem_of_In, in_flat_map. exists l. split; [by apply list_elem_of_In|].
      apply list_elem_of_In, list_elem_of_fmap. exists r. split; [done|].
      apply list_elem_of_filter. split; [by apply Is_true_eq_left|done].
    + right. left. apply list_elem_of_fmap. exists l. split; [done|].
      apply list_elem_of_filter. split; [|done]. apply Is_true_eq_left. by apply Hnone.
    + right. right. apply list_elem_of_fmap. exists r. split; [done|].
      apply list_elem_of_filter. split; [|done]. apply Is_true_eq_left. by apply Hnone'.
Qed.

Lemma max_agg_spec (l : list Z) (u : Z) :
  Sql.max_agg l = Some u ↔ u ∈ l ∧ ∀ x, x ∈ l → x ≤ u.
Proof.
  destruct l as [|x r]; cbn.
  - split; [done|]. intros [H _]. by apply elem_of_nil in H.
  - assert (H : foldr Z.max x r ∈ x :: r ∧ ∀ y, y ∈ x :: r → y ≤ foldr Z.max x r).
    { induction r as [|y r IH]; cbn.
      - split; [apply list_elem_of_here|]. intros y Hy.
        apply list_elem_of_singleton in Hy as ->. lia.
      - destruct IH as [IH1 IH2]. split.
        + destruct (Z.max_spec y (foldr Z.max x r)) as [[_ ->]|[_ ->]].
          * apply elem_of_cons in IH1 as [->|?]; [apply list_elem_of_here|].
            by do 2 apply list_elem_of_further.
          * apply list_elem_of_further, list_elem_of_here.
        + intros z Hz. apply elem_of_cons in Hz as [->|Hz].
          * specialize (IH2 x (list_elem_of_here _ _)). lia.
          * apply elem_of_cons in Hz as [->|Hz]; [lia|].
            specialize (IH2 z (list_elem_of_further _ _ _ Hz)). lia. }
    split.
    + by intros [= <-].
    + intros [Hu Hmax]. f_equal. destruct H as [H1 H2].
      apply Z.le_antisymm; [by apply Hmax|by apply H2].
Qed.

Lemma max_agg_None (l : list Z) : Sql.max_agg l = None ↔ l = [].
Proof. by destruct l. Qed.

Lemma elem_of_drop_duplicates {A : Type} `{EqDecision A} (seen l : list A) (x : A) :
  x ∈ drop_duplicates seen l ↔ x ∈ l ∧ x ∉ seen.
Proof.
  revert seen. induction l as [|y l IH]; intros seen; cbn.
  - split; [intros H; by apply elem_of_nil in H|]. intros [H _]. by apply elem_of_nil in H.
  - case_decide as Hy.
    + rewrite IH, elem_of_cons. split; [tauto|]. intros [[->|?] ?]; tauto.
    + rewrite !elem_of_cons, IH, not_elem_of_cons. split.
      * intros [->|[? [? ?]]]; tauto.
      * intros [[->|?] ?]; [by left|]. destruct (decide (x = y)); [by left|]. right. tauto.
Qed.

Lemma NoDup_fmap_inj_on {A B : Type} (f : A → B) (l : list A) (x y : A) :
  NoDup (f <$> l) → x ∈ l → y ∈ l → f x = f y → x = y.
Proof.
  induction l as [|z l IH]; cbn; intros Hnd Hx Hy Hf.
  - by apply elem_of_nil in Hx.
  - apply NoDup_cons in Hnd as [Hz Hnd].
    apply elem_of_cons in Hx as [->|Hx]; apply elem_of_cons in Hy as [->|Hy].
    + done.
    + exfalso. apply Hz. rewrite Hf. apply list_elem_of_fmap. eauto.
    + exfalso. apply Hz. rewrite <- Hf. apply list_elem_of_fmap. eauto.
    + by apply IH.
Qed.

(** With unique keys the [GROUP BY] of the [transform] CTE keeps the
    rows as they are. *)
Lemma elem_of_transform_cte (rws : list TransformMetaRow) (t : TransformMetaRow) :
  NoDup (tr_key <$> rws) → t ∈ transform_cte rws ↔ t ∈ rws.
Proof.
  intros Hnd. unfold transform_cte. rewrite list_elem_of_fmap.
  assert (Hhead : ∀ g, g ∈ tr_key <$> rws →
            ∃ t0, head (filter (λ r, tr_key r = g) rws) = Some t0 ∧ t0 ∈ rws ∧ tr_key t0 = g).
  { intros g Hg. apply list_elem_of_fmap in Hg as (t1 & -> & Ht1).
    destruct (filter (λ r, tr_key r = tr_key t1) rws) as [|t0 l] eqn:E.
    - assert (t1 ∈ filter (λ r, tr_key r = tr_key t1) rws) as Hin
        by (by apply list_elem_of_filter).
      rewrite E in Hin. by apply elem_of_nil in Hin.
    - exists t0. split; [done|].
      assert (t0 ∈ filter (λ r, tr_key r = tr_key t1) rws) as Hin
        by (rewrite E; apply list_elem_of_here).
      apply list_elem_of_filter in Hin. tauto. }
  split.
  - intros (g & -> & Hg). apply elem_of_drop_duplicates in Hg as [Hg _].
    destruct (Hhead g Hg) as (t0 & -> & Ht0 & _). done.
  - intros Ht. exists (tr_key t). split.
    + destruct (Hhead (tr_key t)) as (t0 & -> & Ht0 & Hk).
      { apply list_elem_of_fmap. eauto. }
      cbn. by apply (NoDup_fmap_inj_on tr_key rws).
    + apply elem_of_drop_duplicates. split; [|apply not_elem_of_nil].
      apply list_elem_of_fmap. eauto.
Qed.

Lemma elem_of_group_by_max (keys : list string) (rws : list (KeyRow * Z))
    (g : KeyRow) (u : option Z) :
  keys ≠ [] →
  (g, u) ∈ group_by_max keys rws ↔
  g ∈ rws.*1 ∧ u = Sql.max_agg (filter (λ r, r.1 = g) rws).*2.
Proof.
  intros Hk. unfold group_by_max. destruct keys as [|k0 keys]; [done|].
  split.
  - intros H. apply list_elem_of_fmap in H as (g' & Heq & Hg).
    cbn in Heq. injection Heq as -> ->.
    apply elem_of_drop_duplicates in Hg as [Hg _]. done.
  - intros [Hg ->]. apply list_elem_of_fmap. exists g. split; [done|].
    apply elem_of_drop_duplicates. split; [done|apply not_elem_of_nil].
Qed.

Lemma holds_and_ (l : list Sql.tv) :
  Sql.holds (Sql.and_ l) = true ↔ Forall (λ b, b = Some true) l.
Proof.
  induction l as [|b l IH]; cbn.
  - split; [constructor|done].
  - rewrite Forall_cons, <- IH. unfold Sql.and_ in *.
    destruct b as [[|]|], (foldr Sql.and3 (Some true) l) as [[|]|]; cbn; intuition congruence.
Qed.

(** On key tuples that have every transform key, the join condition is
    equality of the tuples. *)
Lemma on_clause_eq (tk : list string) (g k : KeyRow) :
  dom g = list_to_set tk → dom k = list_to_set tk →
  Sql.holds (Sql.and_ ((λ key, Sql.eq3 (g !! key) (k !! key)) <$> tk)) = true
  ↔ g = k.
Proof.
  intros Hg Hk. rewrite holds_and_, Forall_fmap, Forall_forall. split.
  - intros H. apply map_eq. intros i.
    destruct (decide (i ∈ tk)) as [Hi|Hi].
    + specialize (H i Hi). cbn in H.
      destruct (g !! i), (k !! i); cbn in H; try done.
      injection H as H. apply bool_decide_eq_true in H. by subst.
    + assert (i ∉ dom g) as H1 by (rewrite Hg; by rewrite elem_of_list_to_set).
      assert (i ∉ dom k) as H2 by (rewrite Hk; by rewrite elem_of_list_to_set).
      apply not_elem_of_dom in H1, H2. by rewrite H1, H2.
  - intros -> i Hi. cbn.
    assert (i ∈ dom k) as H1 by (rewrite Hk; by rewrite elem_of_list_to_set).
    apply elem_of_dom in H1 as [v ->]. cbn. by rewrite bool_decide_eq_true_2.
Qed.

(** Reading the key columns of a tuple one by one gives the tuple back. *)
Lemma list_to_map_columns (tk : list string) (m : KeyRow) (f : string → option Z) :
  dom m = list_to_set tk → (∀ key, key ∈ tk → f key = m !! key) →
  list_to_map (omap (λ key, (λ v : Z, (key, v)) <$> f key) tk) = m.
Proof.
  intros Hd Hf. apply map_eq. intros i.
  destruct (m !! i) as [v|] eqn:E.
  - assert (i ∈ tk) as Hi.
    { apply (elem_of_list_to_set (C := gset string)). rewrite <- Hd. apply elem_of_dom. eauto. }
    apply elem_of_list_to_map_1'.
    + intros y Hy. apply list_elem_of_omap in Hy as (key & Hkey & Hy).
      rewrite (Hf key Hkey) in Hy. destruct (m !! key) eqn:E'; cbn in Hy; [|done].
      injection Hy as -> ->. congruence.
    + apply list_elem_of_omap. exists i. split; [done|]. by rewrite (Hf i Hi), E.
  - apply not_elem_of_list_to_map_1. intros Hi.
    apply list_elem_of_fmap in Hi as ([key v] & -> & Hkv).
    apply list_elem_of_omap in Hkv as (key' & Hkey & Hy).
    rewrite (Hf key' Hkey) in Hy. destruct (m !! key') eqn:E'; cbn in Hy; [|done].
    injection Hy as -> ->. cbn in E. congruence.
Qed.

Lemma dom_project (tk : list string) (m : KeyRow) :
  (∀ key, key ∈ tk → is_Some (m !! key)) →
  dom (project tk m) = list_to_set tk.
Proof.
  intros H. apply set_eq. intros i. unfold project.
  rewrite elem_of_dom, elem_of_list_to_set. split.
  - intros [v Hv]. apply map_lookup_filter_Some in Hv as [_ Hi]. done.
  - intros Hi. destruct (H i Hi) as [v Hv]. exists v.
    by apply map_lookup_filter_Some.
Qed.

Lemma project_lookup (tk : list string) (m : KeyRow) (key : string) :
  key ∈ tk → project tk m !! key = m !! key.
Proof.
  intros Hk. unfold project. destruct (m !! key) as [v|] eqn:E.
  - by apply map_lookup_filter_Some.
  - apply map_lookup_filter_None. by left.
Qed.

(** Every column name counted once when the primary schema of the only
    input names each column once. *)
Lemma counts_once (cols : list Column) (acc : gmap string nat) :
  NoDup (col_name <$> cols) →
  map_Forall (λ _ v, v = 1%nat) acc →
  (∀ c, c ∈ cols → acc !! col_name c = None) →
  map_Forall (λ _ v, v = 1%nat)
    (foldl (λ a col, <[col_name col := S (default 0%nat (a !! col_name col))]> a)
           acc cols).
Proof.
  revert acc. induction cols as [|c cols IH]; intros acc Hnd Hacc Hfresh; cbn; [done|].
  apply NoDup_cons in Hnd as [Hc Hnd]. apply IH; [done| |].
  - rewrite (Hfresh c (list_elem_of_here _ _)). cbn.
    apply map_Forall_insert_2; [done|done].
  - intros c' Hc'. rewrite lookup_insert_ne.
    + apply Hfresh. by apply list_elem_of_further.
    + intros E. apply Hc. rewrite E. apply list_elem_of_fmap. eauto.
Qed.

Lemma filter_all {A : Type} (P : A → Prop) `{∀ x, Decision (P x)} (l : list A) :
  Forall P l → filter P l = l.
Proof.
  induction 1 as [|x l Hx _ IH]; [done|]. rewrite filter_cons_True by done. by rewrite IH.
Qed.

Lemma mapR_all_Ok {A : Type} (P : A → Prop) `{∀ x, Decision (P x)} (e : exn) (l : list A) :
  Forall P l →
  mapR (λ x, if decide (P x) then Ok tt else Raise e) l = Ok (replicate (length l) tt).
Proof.
  induction 1 as [|x l Hx _ IH]; cbn; [done|].
  rewrite decide_True by done. cbn. rewrite IH. done.
Qed.

Lemma make_agg_cte_single (self : BaseBatchTransformStep) (dt : DataTable) :
  single_input self dt →
  _make_agg_cte (transform_keys self) None dt
  = (transform_keys self,
     group_by_max (transform_keys self)
       ((λ r, (project (transform_keys self) (mr_key r), mr_update_ts r))
          <$> sql_table (meta_table dt))).
Proof.
  intros W. unfold _make_agg_cte.
  rewrite (filter_all (λ k, k ∈ primary_keys (meta_table dt)))
    by (apply Forall_forall; apply (si_keys_pk _ _ W)).
  rewrite filter_all; [done|]. apply Forall_forall. intros r _. done.
Qed.

Lemma build_single_input_rows (self : BaseBatchTransformStep) (dt : DataTable)
    (ds : DataStore) :
  single_input self dt →
  _build_changed_idx_sql self ds None
  = Ok (transform_keys self,
        order_by ds (transform_keys self)
          ((λ p, (tr_priority <$> p.2, select_keys (transform_keys self) p))
             <$> filter (λ p, where_clause p)
                   (Sql.full_outer_join
                      (λ (i : CteRow) (o : TransformMetaRow),
                         Sql.holds (Sql.and_ ((λ key, Sql.eq3 (i.1 !! key) (tr_key o !! key))
                                                <$> transform_keys self)))
                      (group_by_max (transform_keys self)
                         ((λ r, (project (transform_keys self) (mr_key r), mr_update_ts r))
                            <$> sql_table (meta_table dt)))
                      (transform_cte (tr_meta_rows self))))).
Proof.
  intros W. unfold _build_changed_idx_sql.
  rewrite decide_False by (destruct (transform_keys self) eqn:E; [by destruct (si_keys _ _ W)|done]).
  destruct (output_dts self) as [|o outs] eqn:Eo; [by destruct (si_outputs _ _ W)|].
  cbn [fmap list_fmap set_intersection mbind result_bind].
  rewrite (si_inputs _ _ W).
  rewrite assert_true.
  2:{ eapply map_Forall_impl.
      - unfold all_input_keys_counts. cbn [fmap list_fmap concat]. rewrite app_nil_r.
        apply counts_once; [apply (si_pk_nodup _ _ W)|apply map_Forall_empty|].
        intros; apply lookup_empty.
      - cbn. intros _ v ->. by left. }
  cbn [mbind result_bind fmap list_fmap].
  rewrite (make_agg_cte_single _ _ W).
  unfold _make_agg_of_agg. rewrite assert_true by (cbn; lia).
  cbn [mbind result_bind fst snd].
  rewrite (mapR_all_Ok (λ key, key ∈ transform_keys self)) by (by apply Forall_forall).
  cbn [mbind result_bind]. done.
Qed.

Section SingleInput.

Variable self : BaseBatchTransformStep.
Variable dt : DataTable.
Hypothesis W : single_input self dt.

Abbreviation tk := (transform_keys self).
Abbreviation projected :=
  ((λ r, (project (transform_keys self) (mr_key r), mr_update_ts r))
     <$> sql_table (meta_table dt)).

Lemma matches_project (k : KeyRow) (r : MetaRecord) :
  dom k = list_to_set tk → r ∈ sql_table (meta_table dt) →
  matches tk dt k r ↔ project tk (mr_key r) = k.
Proof.
  intros Hd Hr. unfold matches. split.
  - intros H. apply map_eq. intros i. destruct (decide (i ∈ tk)) as [Hi|Hi].
    + rewrite project_lookup by done. apply H; [done|]. by apply (si_keys_pk _ _ W).
    + assert (i ∉ dom k) as H1 by (rewrite Hd; by rewrite elem_of_list_to_set).
      apply not_elem_of_dom in H1. rewrite H1.
      unfold project. apply map_lookup_filter_None. right. intros v _. done.
  - intros <- key Hk _. by rewrite project_lookup.
Qed.

Lemma elem_of_projected_values (k : KeyRow) (x : Z) :
  x ∈ (filter (λ r : KeyRow * Z, r.1 = k) projected).*2 ↔
  ∃ r, r ∈ sql_table (meta_table dt) ∧ project tk (mr_key r) = k ∧ mr_update_ts r = x.
Proof.
  rewrite list_elem_of_fmap. split.
  - intros ([g u] & -> & H). apply list_elem_of_filter in H as [Hg H]. cbn in Hg.
    apply list_elem_of_fmap in H as (r & [= -> ->] & Hr). eauto.
  - intros (r & Hr & <- & <-). eexists (_, _). split; [reflexivity|].
    apply list_elem_of_filter. split; [done|]. apply list_elem_of_fmap. eauto.
Qed.

Lemma max_update_ts_single (k : KeyRow) (u : Z) :
  dom k = list_to_set tk →
  max_update_ts self k u ↔
  Sql.max_agg (filter (λ r : KeyRow * Z, r.1 = k) projected).*2 = Some u.
Proof.
  intros Hd. rewrite max_agg_spec. unfold max_update_ts. rewrite (si_inputs _ _ W).
  split.
  - intros [(dt' & r & Hdt & Hr & Hm & Hu) Hmax].
    apply list_elem_of_singleton in Hdt as ->. split.
    + apply elem_of_projected_values. exists r. by rewrite <- matches_project.
    + intros x Hx. apply elem_of_projected_values in Hx as (r' & Hr' & Hp & <-).
      apply (Hmax dt r'); [apply list_elem_of_here|done|]. by apply matches_project.
  - intros [Hu Hmax]. apply elem_of_projected_values in Hu as (r & Hr & Hp & Hu). split.
    + exists dt, r. split; [apply list_elem_of_here|]. split; [done|].
      split; [by apply matches_project|done].
    + intros dt' r' Hdt Hr' Hm. apply list_elem_of_singleton in Hdt as ->.
      apply Hmax, elem_of_projected_values. exists r'. by rewrite <- matches_project.
Qed.

Lemma elem_of_inp (g : KeyRow) (u : option Z) :
  (g, u) ∈ group_by_max tk projected ↔
  (∃ r, r ∈ sql_table (meta_table dt) ∧ project tk (mr_key r) = g) ∧
  u = Sql.max_agg (filter (λ r : KeyRow * Z, r.1 = g) projected).*2.
Proof.
  rewrite elem_of_group_by_max by apply (si_keys _ _ W).
  rewrite list_elem_of_fmap. split.
  - intros [([g' u'] & -> & H) ->]. split; [|done].
    apply list_elem_of_fmap in H as (r & [= -> ->] & Hr). eauto.
  - intros [(r & Hr & <-) ->]. split; [|done].
    eexists (_, _). split; [reflexivity|]. apply list_elem_of_fmap. eauto.
Qed.

Lemma dom_inp (g : KeyRow) (u : option Z) :
  (g, u) ∈ group_by_max tk projected → dom g = list_to_set tk.
Proof.
  intros H. apply elem_of_inp in H as [(r & Hr & <-) _].
  apply dom_project. by apply (si_rows _ _ W).
Qed.

Lemma select_keys_inp (g : KeyRow) (u : option Z) (o : option TransformMetaRow) :
  dom g = list_to_set tk → select_keys tk (Some (g, u), o) = g.
Proof.
  intros Hd. unfold select_keys. apply list_to_map_columns; [done|].
  intros key Hk. cbn.
  assert (key ∈ dom g) as H1 by (rewrite Hd; by rewrite elem_of_list_to_set).
  apply elem_of_dom in H1 as [v ->]. done.
Qed.

Lemma select_keys_out (t : TransformMetaRow) :
  dom (tr_key t) = list_to_set tk → select_keys tk (None, Some t) = tr_key t.
Proof.
  intros Hd. unfold select_keys. apply list_to_map_columns; [done|].
  intros key Hk. cbn. by destruct (tr_key t !! key).
Qed.
End SingleInput.

Lemma where_matched (u : option Z) (t : TransformMetaRow) (g : KeyRow) :
  where_clause (Some (g, u), Some t) = true ↔
  tr_is_success t = false ∨
  (tr_is_success t = true ∧ ∃ x, u = Some x ∧ tr_process_ts t < x).
Proof.
  unfold where_clause. cbn. destruct (tr_is_success t), u as [x|]; cbn.
  - case_bool_decide; cbn; split; try done.
    + intros _. right. split; [done|]. exists x. split; [done|lia].
    + intros [?|[_ (y & [= <-] & ?)]]; [done|lia].
  - split; [done|]. intros [?|[_ (y & ? & _)]]; done.
  - split; [by left|done].
  - split; [by left|done].
Qed.

Lemma where_left_only (p : CteRow) : where_clause (Some p, None) = true.
Proof. unfold where_clause. cbn. by destruct (p.2) as [x|]. Qed.

Lemma where_right_only (t : TransformMetaRow) :
  where_clause (None, Some t) = true ↔ tr_is_success t = false.
Proof. unfold where_clause. cbn. by destruct (tr_is_success t). Qed.

(** X16.  The planner on a step with a single input, on every driver:
    it selects exactly the candidate tuples that satisfy the stale
    predicate. *)
Theorem planner_single_input (self : BaseBatchTransformStep) (dt : DataTable)
    (ds : DataStore) :
  single_input self dt →
  ∃ selected,
    _build_changed_idx_sql self ds None = Ok (transform_keys self, selected) ∧
    ∀ k, k ∈ selected ↔ candidate self dt k ∧ stale self k.
Proof.
  intros W. rewrite (build_single_input_rows _ _ _ W).
  eexists. split; [reflexivity|]. intros k. unfold order_by.
  rewrite merge_sort_Permutation, <- list_fmap_compose.
  set (tk := transform_keys self).
  set (on := λ (i : CteRow) (o : TransformMetaRow),
               Sql.holds (Sql.and_ ((λ key, Sql.eq3 (i.1 !! key) (tr_key o !! key)) <$> tk))).
  set (L := group_by_max tk _).
  assert (HR : ∀ t, t ∈ transform_cte (tr_meta_rows self) ↔ t ∈ tr_meta_rows self).
  { intros t. apply elem_of_transform_cte, (si_tr_nodup _ _ W). }
  assert (Hon : ∀ g u t, (g, u) ∈ L → t ∈ tr_meta_rows self →
                  on (g, u) t = true ↔ g = tr_key t).
  { intros g u t Hg Ht. unfold on. cbn. apply on_clause_eq.
    - by apply (dom_inp _ _ W g u).
    - by apply (si_tr_dom _ _ W). }
  rewrite list_elem_of_fmap. split.
  - intros (p & -> & Hp). unfold compose. cbn [snd].
    apply list_elem_of_filter in Hp as [Hw Hp].
    apply Is_true_eq_true in Hw.
    apply elem_of_full_outer_join in Hp
      as [(l & t & -> & Hl & Ht & Ho)|[(l & -> & Hl & Hno)|(t & -> & Ht & Hno)]].
    + destruct l as [g u]. apply HR in Ht. apply Hon in Ho; [|done|done].
      pose proof (dom_inp _ _ W g u Hl) as Hd.
      rewrite (select_keys_inp self g u _ Hd).
      pose proof Hl as Hl'. apply (elem_of_inp _ _ W) in Hl' as [Hr Hu].
      split; [by left|]. right. exists t. split; [done|]. split; [done|].
      apply where_matched in Hw as [?|[? (x & Hx & ?)]]; [by left|right].
      split; [done|]. exists x. split; [|done].
      apply (max_update_ts_single _ _ W); [done|]. by rewrite <- Hu.
    + destruct l as [g u].
      pose proof (dom_inp _ _ W g u Hl) as Hd.
      rewrite (select_keys_inp self g u _ Hd).
      pose proof Hl as Hl'. apply (elem_of_inp _ _ W) in Hl' as [Hr Hu].
      split; [by left|]. left. intros t Ht Hk.
      specialize (Hno t (proj2 (HR t) Ht)).
      assert (on (g, u) t = true) as Hyes by (apply Hon; done). congruence.
    + apply HR in Ht.
      replace (select_keys tk (None, Some t)) with (tr_key t)
        by (symmetry; by apply select_keys_out, (si_tr_dom _ _ W)).
      apply where_right_only in Hw. split; [right; eauto|].
      right. exists t. split; [done|]. split; [done|]. by left.
  - intros [Hc Hs].
    destruct Hs as [Hnone|(t & Ht & Hk & Hs)].
    + destruct Hc as [(r & Hr & Hp)|(t & Ht & Hk)]; [|by destruct (Hnone t Ht)].
      set (u := Sql.max_agg (filter (λ r : KeyRow * Z, r.1 = k)
                 ((λ r, (project tk (mr_key r), mr_update_ts r))
                    <$> sql_table (meta_table dt))).*2).
      assert (Hl : (k, u) ∈ L) by (apply (elem_of_inp _ _ W); eauto).
      exists (Some (k, u), None). split.
      * unfold compose. cbn [snd]. symmetry. apply select_keys_inp. by apply (dom_inp _ _ W k u).
      * apply list_elem_of_filter. split; [apply Is_true_eq_left, where_left_only|].
        apply elem_of_full_outer_join. right. left. exists (k, u).
        split; [done|]. split; [done|]. intros t Ht. apply HR in Ht.
        destruct (on (k, u) t) eqn:E; [|done].
        apply Hon in E; [|done|done]. by destruct (Hnone t Ht).
    + pose proof (si_tr_dom _ _ W t Ht) as Hd. rewrite Hk in Hd.
      set (u := Sql.max_agg (filter (λ r : KeyRow * Z, r.1 = k)
                 ((λ r, (project tk (mr_key r), mr_update_ts r))
                    <$> sql_table (meta_table dt))).*2).
      assert (Hdec : (∃ r, r ∈ sql_table (meta_table dt) ∧ project tk (mr_key r) = k) ∨
                     ¬ (∃ r, r ∈ sql_table (meta_table dt) ∧ project tk (mr_key r) = k)).
      { destruct (decide (k ∈ (λ r, project tk (mr_key r)) <$> sql_table (meta_table dt)))
          as [Hin|Hout].
        - left. apply list_elem_of_fmap in Hin as (r & -> & Hr). eauto.
        - right. intros (r & Hr & Hp). apply Hout, list_elem_of_fmap. eauto. }
      destruct Hdec as [Hin|Hout].
      * assert (Hl : (k, u) ∈ L) by (apply (elem_of_inp _ _ W); eauto).
        exists (Some (k, u), Some t). split.
        -- unfold compose. cbn [snd]. symmetry. by apply select_keys_inp.
        -- apply list_elem_of_filter. split.
           ++ apply Is_true_eq_left, where_matched.
              destruct Hs as [?|[? (x & Hx & ?)]]; [by left|right].
              split; [done|]. exists x. split; [|done].
              by apply (max_update_ts_single _ _ W) in Hx.
           ++ apply elem_of_full_outer_join. left. exists (k, u), t.
              split; [done|]. split; [done|]. split; [by apply HR|].
              apply Hon; done.
      * exists (None, Some t). split.
        -- unfold compose. cbn [snd]. rewrite <- Hk. symmetry.
           by apply select_keys_out, (si_tr_dom _ _ W).
        -- apply list_elem_of_filter. split.
           ++ apply Is_true_eq_left, where_right_only.
              destruct Hs as [?|[_ (x & Hx & _)]]; [done|].
              apply (max_update_ts_single _ _ W) in Hx; [|done].
              apply max_agg_spec in Hx as [Hx _].
              apply (elem_of_projected_values self dt) in Hx as (r & ? & ? & _).
              destruct Hout. eauto.
           ++ apply elem_of_full_outer_join. right. right. exists t.
              split; [done|]. split; [by apply HR|].
              intros [g v] Hl. destruct (on (g, v) t) eqn:E; [|done].
              apply Hon in E; [|done|done]. subst g.
              apply (elem_of_inp _ _ W) in Hl as [Hr _]. rewrite Hk in Hr.
              by destruct Hout.
Qed.

(** The step over the input with the keys 1, 2 and 3 is such a step. *)
Lemma single_input_example :
  single_input Examples.step_a3
    (mkDT "a" (mkMT [Examples.id_col]
                 [Examples.meta_at 1 5; Examples.meta_at 2 5; Examples.meta_at 3 5])).
Proof.
  constructor.
  - reflexivity.
  - done.
  - done.
  - intros key Hk. exact Hk.
  - apply NoDup_singleton.
  - intros r Hr key Hk. cbn in Hr, Hk. apply list_elem_of_singleton in Hk as ->.
    repeat (apply elem_of_cons in Hr as [->|Hr]; [by eexists|]).
    by apply elem_of_nil in Hr.
  - intros t Ht. by apply elem_of_nil in Ht.
  - constructor.
Qed.

(** X17.  With no output table the planner raises before it builds the
    statement: [set.intersection] is called without an argument. *)
Lemma planner_without_outputs_raises (self : BaseBatchTransformStep)
    (ds : DataStore) (run_config : option RunConfig) :
  transform_keys self ≠ [] → output_dts self = [] →
  _build_changed_idx_sql self ds run_config = Raise TypeError.
Proof.
  intros Hk Ho. unfold _build_changed_idx_sql.
  rewrite decide_False by (by destruct (transform_keys self)).
  by rewrite Ho.
Qed.

(** C1 (defect of the code).  Claim: for a step with at least one input
    the planner selects exactly the stale transform-key tuples.  At the
    failing input, key 1 updated at time 5 in input [a], absent from
    input [b], processed with success at time 3, the tuple is stale; on
    the SQLite driver [greatest_func] is [max], NULL as soon as one
    input has no row, and the planner selects nothing; on any other
    driver it selects the tuple. *)
Lemma C1_sqlite_misses_key_absent_from_one_input :
  stale Examples.step_ab {[ "id" := 1 ]} ∧
  _build_changed_idx_sql Examples.step_ab (mkDS "sqlite") None
    = Ok (["id"], []) ∧
  _build_changed_idx_sql Examples.step_ab (mkDS "psycopg2") None
    = Ok (["id"], [ {[ "id" := 1 ]} ]).
Proof.
  split; [|split; vm_compute; reflexivity].
  right. eexists. split; [apply list_elem_of_here|]. split; [reflexivity|].
  right. split; [reflexivity|]. exists 5. split; [|cbn; lia].
  split.
  - exists Examples.tbl_a, (Examples.meta_at 1 5).
    split; [apply list_elem_of_here|]. split; [apply list_elem_of_here|].
    split; [|reflexivity]. intros key Hkey _.
    apply list_elem_of_singleton in Hkey as ->. reflexivity.
  - intros dt r Hdt Hr _. cbn in Hdt.
    apply elem_of_cons in Hdt as [->|Hdt].
    + cbn in Hr. apply list_elem_of_singleton in Hr as ->. reflexivity.
    + apply list_elem_of_singleton in Hdt as ->. cbn in Hr.
      by apply elem_of_nil in Hr.
Qed.

End PlannerFacts.

(** ** The executor and the driver of [datapipe/compute.py] *)

Module ComputeFacts.

Import Compute Statements.

Local Open Scope Z_scope.

Lemma get_table_set_eq (ds : DataStore) (n : string) (dt : DataTable) :
  get_table (set_table ds n dt) n = dt.
Proof. unfold get_table, set_table. cbn. by rewrite lookup_insert_eq. Qed.

Lemma get_table_set_ne (ds : DataStore) (n m : string) (dt : DataTable) :
  n ≠ m → get_table (set_table ds n dt) m = get_table ds m.
Proof. intros. unfold get_table, set_table. cbn. by rewrite lookup_insert_ne. Qed.

Lemma ChangeList_append_eq (cl : ChangeList) (n : string) (idx : IndexDF) :
  changes cl !! n = None → changes (ChangeList_append cl n idx) !! n = Some idx.
Proof. intros H. unfold ChangeList_append. rewrite H. cbn. by rewrite lookup_insert_eq. Qed.

Lemma ChangeList_append_ne (cl : ChangeList) (n m : string) (idx : IndexDF) :
  n ≠ m → changes (ChangeList_append cl n idx) !! m = changes cl !! m.
Proof.
  intros H. unfold ChangeList_append.
  destruct (changes cl !! n); cbn; by rewrite lookup_insert_ne.
Qed.

Lemma total_len_empty (input_dfs : list DataDF) :
  Forall (λ df, df = []) input_dfs → total_len input_dfs = 0%nat.
Proof. induction 1 as [|df dfs -> _ IH]; cbn; [done|]. exact IH. Qed.

Lemma delete_by_idx_store (dt : DataTable) (idx : IndexDF) (now : Z) (k : KeyRow) :
  table_store (delete_by_idx dt idx now) !! k
  = if decide (k ∈ rows idx) then None else table_store dt !! k.
Proof.
  unfold delete_by_idx. cbn. destruct (table_store dt !! k) as [x|] eqn:E.
  - case_decide.
    + apply map_lookup_filter_None. right. intros y Hy. cbn. tauto.
    + by apply map_lookup_filter_Some.
  - rewrite (proj2 (map_lookup_filter_None _ _ _)); [by case_decide|]. by left.
Qed.

Lemma delete_by_idx_meta (dt : DataTable) (idx : IndexDF) (now : Z) (k : KeyRow) :
  meta_table (delete_by_idx dt idx now) !! k
  = (λ m, if decide (k ∈ rows idx) then C12n.set_delete_ts (Some now) m else m)
      <$> meta_table dt !! k.
Proof.
  unfold delete_by_idx, mark_rows_deleted. cbn. rewrite map_lookup_imap.
  by destruct (meta_table dt !! k).
Qed.

Lemma list_difference_nil_r {A : Type} `{EqDecision A} (l : list A) :
  list_difference l [] = l.
Proof.
  induction l as [|x l IH]; cbn; [done|].
  destruct (decide_rel elem_of x []) as [H|H]; [by apply elem_of_nil in H|].
  by rewrite IH.
Qed.

Lemma filter_none {A : Type} (P : A → Prop) `{∀ x, Decision (P x)} (l : list A) :
  (∀ x, x ∈ l → ¬ P x) → filter P l = [].
Proof.
  induction l as [|x l IH]; intros H'; [done|].
  rewrite filter_cons_False by apply H', list_elem_of_here.
  apply IH. intros y Hy. by apply H', list_elem_of_further.
Qed.

(** Deleting no row changes nothing. *)
Lemma delete_by_idx_nil (dt : DataTable) (cols : list string) (now : Z) :
  delete_by_idx dt (mkIdx cols []) now = dt.
Proof.
  destruct dt as [store meta]. unfold delete_by_idx, mark_rows_deleted. cbn. f_equal.
  - apply map_filter_id. intros k x _. cbn. apply not_elem_of_nil.
  - apply map_eq. intros k. rewrite map_lookup_imap.
    destruct (meta !! k); [cbn|done].
    by rewrite decide_False by apply not_elem_of_nil.
Qed.

(** After the live rows of a batch are deleted, no row of the batch is
    live. *)
Lemma get_existing_idx_deleted (dt : DataTable) (idx : IndexDF) (now : Z) :
  get_existing_idx
    (meta_table (delete_by_idx dt (get_existing_idx (meta_table dt) idx) now)) idx
  = mkIdx (columns idx) [].
Proof.
  unfold get_existing_idx at 1. f_equal. apply filter_none.
  intros k Hk (m & Hm & Hd). rewrite delete_by_idx_meta in Hm.
  destruct (meta_table dt !! k) as [m0|] eqn:E; [|done]. cbn in Hm.
  injection Hm as <-. case_decide as Hin.
  - done.
  - apply Hin. cbn. apply list_elem_of_filter. split; [|done]. exists m0. done.
Qed.

Lemma ChangeList_append_nil (cl : ChangeList) (n : string) (old : IndexDF)
    (cols : list string) :
  changes cl !! n = Some old →
  ChangeList_append cl n (mkIdx cols []) = cl.
Proof.
  intros H. unfold ChangeList_append. rewrite H. cbn.
  unfold list_union. rewrite list_difference_nil_r, app_nil_r.
  destruct cl as [m]. cbn in *. f_equal. destruct old. cbn. by apply insert_id.
Qed.

(** The loop over the outputs of a delete batch: [T] gives the tables
    before the loop, [done] the outputs the loop has been through. *)
Lemma delete_missing_inv (T : string → DataTable) (idx : IndexDF) (now : Z)
    (outs : list string) (ds : DataStore) (cl : ChangeList) (done : list string) :
  (∀ n, n ∈ done →
        get_table ds n
        = delete_by_idx (T n) (get_existing_idx (meta_table (T n)) idx) now ∧
        changes cl !! n = Some (get_existing_idx (meta_table (T n)) idx)) →
  (∀ n, n ∉ done → get_table ds n = T n ∧ changes cl !! n = None) →
  transform_meta (delete_missing ds outs idx now cl).1 = transform_meta ds ∧
  ∀ n, n ∈ done ∨ n ∈ outs →
       get_table (delete_missing ds outs idx now cl).1 n
       = delete_by_idx (T n) (get_existing_idx (meta_table (T n)) idx) now ∧
       changes (delete_missing ds outs idx now cl).2 !! n
       = Some (get_existing_idx (meta_table (T n)) idx).
Proof.
  unfold delete_missing. revert ds cl done.
  induction outs as [|o outs IH]; intros ds cl done Hdone Hnew; cbn [foldl fst snd].
  - split; [done|]. intros n [Hn|Hn]; [by apply Hdone|by apply elem_of_nil in Hn].
  - set (del := get_existing_idx (meta_table (get_table ds o)) idx).
    set (ds1 := set_table ds o (delete_by_idx (get_table ds o) del now)).
    set (cl1 := ChangeList_append cl o del).
    destruct (decide (o ∈ done)) as [Ho|Ho].
    + destruct (Hdone o Ho) as [Ht Hc].
      assert (Hdel : del = mkIdx (columns idx) []).
      { unfold del. rewrite Ht. apply get_existing_idx_deleted. }
      assert (Hcl : cl1 = cl).
      { unfold cl1. rewrite Hdel. by eapply ChangeList_append_nil. }
      destruct (IH ds1 cl1 done) as [Htm Hall].
      * intros n Hn. rewrite Hcl. destruct (decide (o = n)) as [<-|Hne].
        -- unfold ds1. rewrite get_table_set_eq, Hdel, Ht, delete_by_idx_nil. done.
        -- unfold ds1. rewrite get_table_set_ne by done. by apply Hdone.
      * intros n Hn. rewrite Hcl. unfold ds1.
        rewrite get_table_set_ne by (intros <-; done). by apply Hnew.
      * split; [by rewrite Htm|]. intros n [Hn|Hn]; [apply Hall; by left|].
        apply elem_of_cons in Hn as [->|Hn]; apply Hall; [by left|by right].
    + destruct (Hnew o Ho) as [Ht Hc].
      destruct (IH ds1 cl1 (o :: done)) as [Htm Hall].
      * intros n Hn. apply elem_of_cons in Hn as [->|Hn].
        -- unfold ds1, cl1, del. rewrite get_table_set_eq, Ht. split; [done|].
           by apply ChangeList_append_eq.
        -- assert (o ≠ n) by (intros <-; done). unfold ds1, cl1.
           rewrite get_table_set_ne, ChangeList_append_ne by done. by apply Hdone.
      * intros n Hn. apply not_elem_of_cons in Hn as [Hne Hn]. unfold ds1, cl1.
        rewrite get_table_set_ne, ChangeList_append_ne by done. by apply Hnew.
      * split; [by rewrite Htm|]. intros n [Hn|Hn].
        -- apply Hall. left. by apply list_elem_of_further.
        -- apply elem_of_cons in Hn as [->|Hn]; apply Hall; [left; apply list_elem_of_here|by right].
Qed.

Section BatchFacts.

Variable get_data : DataTable → IndexDF → result DataDF.
Variable store_chunk :
  DataTable → DataDF → IndexDF → option RunConfig → DataTable * result IndexDF.

(** The delete branch of [process_batch]: when every fetched input frame
    is empty, the generator yields one change list; for each output
    table the entry of the change list is the live part of the batch
    index, [get_existing_idx] of the batch, exactly those keys are
    removed from the table's data and tombstoned in its row meta, and
    the transform meta is left as it was. *)
Lemma process_batch_delete_branch (self : ComputeStep) (ds : DataStore) (idx : IndexDF)
    (run_config : option RunConfig) (now : Z) (input_dfs : list DataDF) :
  get_batch_input_dfs get_data self ds idx run_config = Ok input_dfs →
  Forall (λ df, df = []) input_dfs →
  ∃ ds' cl,
    process_batch get_data store_chunk self ds idx run_config now = (ds', Ok [cl]) ∧
    transform_meta ds' = transform_meta ds ∧
    ∀ n, n ∈ output_dts self →
      changes cl !! n = Some (get_existing_idx (meta_table (get_table ds n)) idx) ∧
      (∀ k, table_store (get_table ds' n) !! k
            = if decide (k ∈ rows idx ∧ is_live (meta_table (get_table ds n)) k)
              then None
              else table_store (get_table ds n) !! k) ∧
      (∀ k, meta_table (get_table ds' n) !! k
            = (λ m, if decide (k ∈ rows idx ∧ is_live (meta_table (get_table ds n)) k)
                    then C12n.set_delete_ts (Some now) m else m)
                <$> meta_table (get_table ds n) !! k).
Proof.
  intros Hget Hempty. unfold process_batch. rewrite Hget.
  rewrite decide_False by (rewrite total_len_empty by done; lia).
  destruct (delete_missing ds (output_dts self) idx now ChangeList_new)
    as [ds' cl] eqn:E.
  exists ds', cl. split; [done|].
  destruct (delete_missing_inv (get_table ds) idx now (output_dts self) ds
              ChangeList_new []) as (Htm & Hin).
  { intros n Hn. by apply elem_of_nil in Hn. }
  { intros n _. split; [done|apply lookup_empty]. }
  rewrite E in Htm, Hin. cbn [fst snd] in Htm, Hin. split; [done|].
  intros n Hn. destruct (Hin n (or_intror Hn)) as [Ht Hc]. split; [|split].
  - done.
  - intros k. rewrite Ht, delete_by_idx_store. cbn.
    apply decide_ext. rewrite list_elem_of_filter. tauto.
  - intros k. rewrite Ht, delete_by_idx_meta. cbn.
    destruct (meta_table (get_table ds n) !! k); [cbn|done]. f_equal.
    apply decide_ext. rewrite list_elem_of_filter. tauto.
Qed.

End BatchFacts.

Section DriverFacts.

Variable get_data : DataTable → IndexDF → result DataDF.
Variable store_chunk :
  DataTable → DataDF → IndexDF → option RunConfig → DataTable * result IndexDF.
Variable add_labels : option RunConfig → string → option RunConfig.
Variable shake_128_hexdigest5 : string → string.

(** The loop of [run_steps_changelist], from any state it can be in. *)
Lemma while_changes_spec (fuel : nat) (steps : list ComputeStep)
    (run_config : option RunConfig) (now : Z) (ds : DataStore)
    (current : ChangeList) (iteration : Z) (started : list ChangeList) :
  0 ≤ iteration ≤ 100 → 100 - iteration ≤ Z.of_nat fuel →
  Z.of_nat (length started) = iteration →
  Forall (λ c, ChangeList_empty c = false) started →
  ∃ r, while_changes get_data store_chunk add_labels shake_128_hexdigest5
         fuel ds steps run_config now current iteration started = Some r ∧
       (length (end_started r) ≤ 100)%nat ∧
       Forall (λ c, ChangeList_empty c = false) (end_started r) ∧
       match end_outcome r with
       | Ok _ =>
           end_iteration r = Z.of_nat (length (end_started r)) ∧
           (end_iteration r = 100 ∨ ChangeList_empty (end_current r) = true)
       | Raise _ =>
           end_iteration r < 100 ∧
           Z.of_nat (length (end_started r)) = end_iteration r + 1
       end.
Proof.
  revert ds current iteration started.
  induction fuel as [|fuel IH]; intros ds current iteration started Hi Hf Hl Hs.
  - cbn. rewrite bool_decide_eq_false_2 by lia. rewrite andb_false_r.
    eexists. split; [done|]. cbn. split; [lia|]. split; [done|]. split; [lia|]. left. lia.
  - cbn. destruct (ChangeList_empty current) eqn:Hem; cbn.
    { eexists. split; [done|]. cbn. split; [lia|]. split; [done|]. split; [lia|]. by right. }
    case_bool_decide as Hlt; cbn.
    2:{ eexists. split; [done|]. cbn. split; [lia|]. split; [done|]. split; [lia|]. left. lia. }
    destruct (run_steps_once get_data store_chunk add_labels shake_128_hexdigest5
                ds steps current run_config now ChangeList_new) as [ds1 [next|e]].
    + apply IH; [lia|lia| |].
      * rewrite length_app. cbn. lia.
      * apply Forall_app. split; [done|]. by constructor.
    + eexists. split; [done|]. cbn. rewrite length_app. cbn.
      split; [lia|]. split; [|lia].
      apply Forall_app. split; [done|]. by constructor.
Qed.

(** More fuel than the cap leaves room for changes nothing. *)
Lemma while_changes_fuel (fuel1 fuel2 : nat) (steps : list ComputeStep)
    (run_config : option RunConfig) (now : Z) (ds : DataStore)
    (current : ChangeList) (iteration : Z) (started : list ChangeList) :
  100 - iteration ≤ Z.of_nat fuel1 → 100 - iteration ≤ Z.of_nat fuel2 →
  while_changes get_data store_chunk add_labels shake_128_hexdigest5
    fuel1 ds steps run_config now current iteration started
  = while_changes get_data store_chunk add_labels shake_128_hexdigest5
      fuel2 ds steps run_config now current iteration started.
Proof.
  revert fuel2 ds current iteration started.
  induction fuel1 as [|fuel1 IH]; intros fuel2 ds current iteration started H1 H2.
  - destruct fuel2; cbn; rewrite bool_decide_eq_false_2 by lia;
      by rewrite andb_false_r.
  - destruct fuel2 as [|fuel2]; cbn.
    + rewrite bool_decide_eq_false_2 by lia. by rewrite andb_false_r.
    + destruct (negb (ChangeList_empty current) && bool_decide (iteration < 100))
        eqn:G; [|done].
      apply andb_true_iff in G as [_ G]. apply bool_decide_eq_true in G.
      destruct (run_steps_once get_data store_chunk add_labels
                  shake_128_hexdigest5 ds steps current run_config now
                  ChangeList_new) as [ds1 [next|e]]; [|done].
      apply IH; lia.
Qed.



End DriverFacts.

(** Three runs of the driver on the store where [src] has lost its rows:
    a step that keeps the change list non-empty is stopped by the cap
    after 100 iterations; without any step the seed is consumed by one
    iteration and the loop stops on the empty change list; an empty seed
    starts no iteration. *)
Lemma run_steps_changelist_examples :
  (λ r, (end_outcome r, end_iteration r, ChangeList_empty (end_current r)))
    <$> run_steps_changelist Examples.read_live Examples.write_rows
          Examples.keep_run_config Examples.fixed_digest Examples.ds_gone
          [Examples.cyclic_step] Examples.seed_changes None 9
    = Some (Ok tt, 100, false) ∧
  (λ r, (end_outcome r, end_iteration r, ChangeList_empty (end_current r)))
    <$> run_steps_changelist Examples.read_live Examples.write_rows
          Examples.keep_run_config Examples.fixed_digest Examples.ds_gone
          [] Examples.seed_changes None 9
    = Some (Ok tt, 1, true) ∧
  (λ r, (end_outcome r, end_iteration r, length (end_started r)))
    <$> run_steps_changelist Examples.read_live Examples.write_rows
          Examples.keep_run_config Examples.fixed_digest Examples.ds_gone
          [Examples.cyclic_step] ChangeList_new None 9
    = Some (Ok tt, 0, 0%nat).
Proof. split; [|split]; vm_compute; reflexivity. Qed.

(** The delete branch on the store where the input [src] has lost its
    rows. *)
Lemma process_batch_delete_branch_example :
  ∃ ds' cl,
    process_batch Examples.read_live Examples.write_rows Examples.upper_step
                  Examples.ds_gone Examples.batch_123 None 9 = (ds', Ok [cl]) ∧
    transform_meta ds' = transform_meta Examples.ds_gone ∧
    ∀ n, n ∈ output_dts Examples.upper_step →
      changes cl !! n
      = Some (get_existing_idx (meta_table (get_table Examples.ds_gone n))
                               Examples.batch_123) ∧
      (∀ k, table_store (get_table ds' n) !! k
            = if decide (k ∈ rows Examples.batch_123 ∧
                         is_live (meta_table (get_table Examples.ds_gone n)) k)
              then None
              else table_store (get_table Examples.ds_gone n) !! k) ∧
      (∀ k, meta_table (get_table ds' n) !! k
            = (λ m, if decide (k ∈ rows Examples.batch_123 ∧
                               is_live (meta_table (get_table Examples.ds_gone n)) k)
                    then C12n.set_delete_ts (Some 9) m else m)
                <$> meta_table (get_table Examples.ds_gone n) !! k).
Proof.
  apply (process_batch_delete_branch Examples.read_live Examples.write_rows
           Examples.upper_step Examples.ds_gone Examples.batch_123 None 9 [[]]).
  - vm_compute. reflexivity.
  - repeat constructor.
Defined.

(** What the spec asks for is what [mark_rows_processed_success] would
    establish. *)
Lemma mark_rows_processed_success_marks (ds : DataStore) (step_name : string)
    (idx : IndexDF) (now : Z) :
  marked_success (mark_rows_processed_success ds step_name idx now) step_name idx now.
Proof.
  intros k Hk. unfold mark_rows_processed_success. cbn [transform_meta].
  rewrite lookup_insert_eq. cbn [default].
  eexists (Planner.mkTR k now true _ None). split; [|done].
  apply elem_of_app. right. apply list_elem_of_fmap. exists k. split; [done|].
  by apply elem_of_remove_dups.
Qed.

(** C6 (defect of the code).  Claim: a batch whose fetched input frames
    are all empty is deleted from the outputs, listed in the change
    list, and marked in the transform meta as a success with
    [process_ts = now].  At the failing input, the store where [src]
    has lost its rows and the batch of the keys 1, 2 and 3 at the time
    9: the fetched frame is empty, the live row of [dst] is deleted and
    listed in the change list that is yielded, and yet the transform
    meta of the step holds no row at all, so that no key of the batch is
    marked; the mark is what [mark_rows_processed_success] would have
    left, had [process_batch] called it. *)
Lemma C6_transform_meta_not_marked :
  get_batch_input_dfs Examples.read_live Examples.upper_step Examples.ds_gone
                      Examples.batch_123 None = Ok [[]] ∧
  match (process_batch Examples.read_live Examples.write_rows Examples.upper_step
                       Examples.ds_gone Examples.batch_123 None 9).2 with
  | Ok [cl] => changes cl !! "dst" = Some (mkIdx ["id"] [ {[ "id" := 1 ]} ])
  | _ => False
  end ∧
  table_store (get_table Examples.ds_after_batch "dst") !! ({[ "id" := 1 ]} : KeyRow)
    = None ∧
  transform_meta Examples.ds_after_batch
    !! get_name Examples.fixed_digest Examples.upper_step = None ∧
  ¬ marked_success Examples.ds_after_batch
                   (get_name Examples.fixed_digest Examples.upper_step)
                   Examples.batch_123 9 ∧
  marked_success
    (mark_rows_processed_success Examples.ds_after_batch
       (get_name Examples.fixed_digest Examples.upper_step) Examples.batch_123 9)
    (get_name Examples.fixed_digest Examples.upper_step) Examples.batch_123 9.
Proof.
  split; [vm_compute; reflexivity|].
  split; [vm_compute; reflexivity|].
  split; [vm_compute; reflexivity|].
  split; [vm_compute; reflexivity|].
  split; [|apply mark_rows_processed_success_marks].
  intros H. destruct (H {[ "id" := 1 ]}) as (t & Ht & _).
  - apply list_elem_of_here.
  - vm_compute in Ht. by apply elem_of_nil in Ht.
Qed.

End ComputeFacts.

(** ** The file-directory store of [datapipe/store/filedir.py] *)

Module FiledirFacts.

Import Filedir.

Section Facts.

Variable resolve : string → string.
Variable re_match : string → string → option (gmap string string).
Variable attrname_to_cls : string → string → string → result string.

(** The constructor builds a read-only store from a pattern with a [*]
    and when it is told to; it passes [enable_rm] on. *)
Lemma init_readonly (filename_pattern : string) (add_filepath_column : bool)
    (primary_schema : option (list (string * string))) (read_data : bool)
    (readonly_arg : option bool) (enable_rm_arg : bool) (st : TableStoreFiledir) :
  TableStoreFiledir_init resolve filename_pattern add_filepath_column
    primary_schema read_data readonly_arg enable_rm_arg = Ok st →
  has_star (split_protocol filename_pattern).2 = true ∨ readonly_arg = Some true →
  readonly st = true ∧ enable_rm st = enable_rm_arg.
Proof.
  unfold TableStoreFiledir_init.
  destruct (split_protocol filename_pattern) as [protocol path]. cbn [snd].
  intros H Hwhy.
  apply bind_Ok in H as (ro & Hro & H).
  apply bind_Ok in H as (attrs & _ & H).
  apply bind_Ok in H as (schema & _ & [= <-]). cbn.
  destruct Hwhy as [Hstar| ->].
  - rewrite Hstar in Hro. destruct readonly_arg as [[|]|]; by inversion Hro.
  - destruct (has_star path); by inversion Hro.
Qed.

(** On a read-only store no write operation changes the files. *)
Lemma readonly_writes (st : TableStoreFiledir) (fs : Files) (df : DataDF) :
  readonly st = true →
  insert_rows re_match attrname_to_cls st fs df
    = (fs, if df_empty df then Ok tt else Raise AssertionError) ∧
  update_rows re_match attrname_to_cls st fs df
    = (fs, if df_empty df then Ok tt else Raise AssertionError) ∧
  delete_rows st fs df
    = (fs, if enable_rm st then Raise AssertionError else Ok tt).
Proof.
  intros Hro. unfold update_rows, insert_rows, delete_rows. rewrite Hro.
  by destruct (df_empty df), (enable_rm st).
Qed.

(** C10 (amended).  A store constructed from a pattern with a [*], or
    with [readonly=True], is read-only, and no write operation on it
    changes the stored files: [insert_rows] and [update_rows] raise on a
    frame that is not empty and return at once on an empty frame;
    [delete_rows] raises when [enable_rm] is set and returns at once when
    it is not. *)
Theorem C10_readonly_store_keeps_files (filename_pattern : string)
    (add_filepath_column : bool) (primary_schema : option (list (string * string)))
    (read_data : bool) (readonly_arg : option bool) (enable_rm_arg : bool)
    (st : TableStoreFiledir) (fs : Files) (df : DataDF) :
  TableStoreFiledir_init resolve filename_pattern add_filepath_column
    primary_schema read_data readonly_arg enable_rm_arg = Ok st →
  has_star (split_protocol filename_pattern).2 = true ∨ readonly_arg = Some true →
  readonly st = true ∧
  insert_rows re_match attrname_to_cls st fs df
    = (fs, if df_empty df then Ok tt else Raise AssertionError) ∧
  update_rows re_match attrname_to_cls st fs df
    = (fs, if df_empty df then Ok tt else Raise AssertionError) ∧
  delete_rows st fs df
    = (fs, if enable_rm_arg then Raise AssertionError else Ok tt).
Proof.
  intros Hinit Hwhy.
  destruct (init_readonly _ _ _ _ _ _ _ Hinit Hwhy) as [Hro Hrm].
  split; [done|]. rewrite <- Hrm. by apply readonly_writes.
Qed.

End Facts.

(** A use of C10 on the store with the pattern [/data/*/img_{id}.json]. *)
Lemma C10_readonly_store_keeps_files_witness :
  readonly Examples.globbed_store = true ∧
  insert_rows (λ _ _, None) (λ _ _ v, Ok v) Examples.globbed_store
              Examples.one_file Examples.frame_7
    = (Examples.one_file,
       if df_empty Examples.frame_7 then Ok tt else Raise AssertionError) ∧
  update_rows (λ _ _, None) (λ _ _ v, Ok v) Examples.globbed_store
              Examples.one_file Examples.frame_7
    = (Examples.one_file,
       if df_empty Examples.frame_7 then Ok tt else Raise AssertionError) ∧
  delete_rows Examples.globbed_store Examples.one_file Examples.frame_7
    = (Examples.one_file, if false then Raise AssertionError else Ok tt).
Proof.
  apply (C10_readonly_store_keeps_files (λ p, p) (λ _ _, None) (λ _ _ v, Ok v)
           "/data/*/img_{id}.json" false None true None false
           Examples.globbed_store Examples.one_file Examples.frame_7).
  - vm_compute. reflexivity.
  - left. reflexivity.
Defined.

(** C10 as stated fails: the store built from [/data/*/img_{id}.json]
    with the default arguments is read-only, and [delete_rows] on it
    returns without raising; so does [insert_rows] on an empty frame. *)
Lemma C10_delete_rows_returns_on_readonly_store :
  TableStoreFiledir_init (λ p, p) "/data/*/img_{id}.json" false None true None false
    = Ok Examples.globbed_store ∧
  readonly Examples.globbed_store = true ∧
  delete_rows Examples.globbed_store Examples.one_file Examples.frame_7
    = (Examples.one_file, Ok tt) ∧
  insert_rows (λ _ _, None) (λ _ _ v, Ok v) Examples.globbed_store
              Examples.one_file (mkDF ["id"; "text"] [])
    = (Examples.one_file, Ok tt).
Proof. split; [vm_compute; reflexivity|]. repeat split. Qed.

End FiledirFacts.

(** ** Ingest, sync and generation in [c12n_pipe/datatable.py] *)

Module IngestFacts.

Import C12n.

Local Open Scope Z_scope.

Section Facts.

Variable hash_row : Row → Z.

Lemma loc_lookup {A : Type} (i : gset string) (m : gmap string A) (k : string) :
  loc i m !! k = if decide (k ∈ i) then m !! k else None.
Proof. apply (C12nFacts.read_rows_lookup i m k). Qed.

(** When a key of the chunk counts as changed and when as new. *)
Lemma to_write_idx_spec (dt : DataTable) (df : gmap string Row) (now : Z)
    (k : string) (r : Row) :
  df !! k = Some r →
  let existing := get_metadata dt (Some (dom df)) in
  let new_meta := _make_new_metadata_df hash_row now df in
  (k ∈ changed_of new_meta existing (dom existing ∩ dom new_meta)
   ↔ ∃ e, table_meta dt !! k = Some e ∧ hash_row r ≠ hash e) ∧
  (k ∈ dom new_meta ∖ dom existing ↔ table_meta dt !! k = None).
Proof.
  intros Hk existing new_meta.
  assert (Hnew : new_meta !! k = Some (mkMeta (hash_row r) now now now None)).
  { unfold new_meta, _make_new_metadata_df. by rewrite lookup_fmap, Hk. }
  assert (Hex : existing !! k = table_meta dt !! k).
  { unfold existing, get_metadata. rewrite C12nFacts.read_rows_lookup.
    rewrite decide_True; [done|]. apply elem_of_dom. eauto. }
  split.
  - unfold changed_of. rewrite elem_of_filter. unfold hash_differs.
    rewrite Hnew, Hex. destruct (table_meta dt !! k) as [e|] eqn:He; cbn.
    + split.
      * intros [Hd _]. eauto.
      * intros (e' & [= <-] & Hd). split; [done|].
        apply elem_of_intersection.
        split; apply elem_of_dom; [eexists; exact Hex|eauto].
    + split; [by intros [[] _]|]. by intros (e & ? & _).
  - rewrite elem_of_difference, !elem_of_dom, Hnew, Hex.
    destruct (table_meta dt !! k); split.
    + intros [_ Hn]. destruct Hn. eauto.
    + done.
    + done.
    + intros _. split; [eauto|]. by intros [? ?].
Qed.

(** X1.  [store_chunk] and the meta table, key by key: a key of the
    chunk gets the meta row [ingested_meta] (a new key all timestamps
    [now]; a key whose hash differs the stored [create_ts] and
    [update_ts = now]; a key whose hash is the stored one the stored
    [update_ts] and [create_ts = now]; [process_ts = now] and no
    [delete_ts] in each case), and the meta row of every other key is
    left as it is. *)
Theorem store_chunk_meta (dt : DataTable) (df : gmap string Row) (now : Z)
    (k : string) :
  table_meta (store_chunk hash_row dt df now).1 !! k
  = match df !! k with
    | Some r => Some (Statements.ingested_meta hash_row now r (table_meta dt !! k))
    | None => table_meta dt !! k
    end.
Proof.
  destruct (df !! k) as [r|] eqn:E.
  - by apply C12nFacts.store_chunk_meta_in.
  - by apply C12nFacts.store_chunk_meta_out.
Qed.

Lemma hash_ingested_meta (now : Z) (r : Row) (existing : option MetaRow) :
  hash (Statements.ingested_meta hash_row now r existing) = hash_row r.
Proof.
  unfold Statements.ingested_meta. destruct existing; [case_decide|]; done.
Qed.

(** No event is logged for a chunk whose rows all have their stored
    hash. *)
Lemma store_chunk_events_same (dt : DataTable) (df : gmap string Row) (now : Z) :
  (∀ k r, df !! k = Some r → ∃ e, table_meta dt !! k = Some e ∧ hash_row r = hash e) →
  events (store_chunk hash_row dt df now).1 = events dt.
Proof.
  intros Hsame. unfold store_chunk. cbn [fst].
  set (existing := get_metadata dt (Some (dom df))).
  set (new_meta := _make_new_metadata_df hash_row now df).
  set (changed := changed_of new_meta existing (dom existing ∩ dom new_meta)).
  set (new_idx := dom new_meta ∖ dom existing).
  assert (Hin : ∀ k, k ∈ dom new_meta → ∃ r, df !! k = Some r).
  { intros k Hk. apply elem_of_dom in Hk as [m Hm].
    unfold new_meta, _make_new_metadata_df in Hm. rewrite lookup_fmap in Hm.
    destruct (df !! k) as [r|]; [eauto|done]. }
  assert (Hc : changed = ∅).
  { apply set_eq. intros k. split; [|intros Hk; by apply not_elem_of_empty in Hk].
    intros Hk. exfalso.
    assert (k ∈ dom new_meta) as Hd.
    { unfold changed, changed_of in Hk. apply elem_of_filter in Hk as [_ Hk].
      by apply elem_of_intersection in Hk as [_ ?]. }
    destruct (Hin k Hd) as [r Hr].
    destruct (to_write_idx_spec dt df now k r Hr) as [Hch _].
    apply Hch in Hk as (e & He & Hne).
    destruct (Hsame k r Hr) as (e' & He' & Heq). congruence. }
  assert (Hn : new_idx = ∅).
  { apply set_eq. intros k. split; [|intros Hk; by apply not_elem_of_empty in Hk].
    intros Hk. exfalso.
    assert (k ∈ dom new_meta) as Hd by (by apply elem_of_difference in Hk as [? _]).
    destruct (Hin k Hd) as [r Hr].
    destruct (to_write_idx_spec dt df now k r Hr) as [_ Hnw].
    apply Hnw in Hk. destruct (Hsame k r Hr) as (e' & He' & _). congruence. }
  rewrite Hc, Hn. clearbody existing new_meta. clear.
  rewrite (decide_False (P := (0 < size (∅ : gset string) ∨ 0 < size (∅ : gset string))%nat))
    by (rewrite size_empty; lia).
  by destruct (decide (0 < size new_meta)%nat).
Qed.

(** X2.  [store_chunk] and the data table: it writes the rows of the
    chunk that are new or whose hash differs from the stored one, and no
    other row; so ingesting the same chunk a second time writes no data
    and logs no event. *)
Theorem store_chunk_data_written (dt : DataTable) (df : gmap string Row)
    (now1 now2 : Z) :
  (∀ k, table_data (store_chunk hash_row dt df now1).1 !! k
        = match df !! k, table_meta dt !! k with
          | Some r, Some e =>
              if decide (hash_row r = hash e) then table_data dt !! k else Some r
          | Some r, None => Some r
          | None, _ => table_data dt !! k
          end) ∧
  table_data (store_chunk hash_row (store_chunk hash_row dt df now1).1 df now2).1
    = table_data (store_chunk hash_row dt df now1).1 ∧
  events (store_chunk hash_row (store_chunk hash_row dt df now1).1 df now2).1
    = events (store_chunk hash_row dt df now1).1.
Proof.
  assert (Hdata : ∀ (dt : DataTable) (now : Z) (k : string),
            table_data (store_chunk hash_row dt df now).1 !! k
            = match df !! k, table_meta dt !! k with
              | Some r, Some e =>
                  if decide (hash_row r = hash e) then table_data dt !! k else Some r
              | Some r, None => Some r
              | None, _ => table_data dt !! k
              end).
  { clear dt. intros dt now k. unfold store_chunk. cbn [fst].
    set (existing := get_metadata dt (Some (dom df))).
    set (new_meta := _make_new_metadata_df hash_row now df).
    set (changed := changed_of new_meta existing (dom existing ∩ dom new_meta)).
    set (new_idx := dom new_meta ∖ dom existing).
    assert (Hd1 : table_data
              (if decide (0 < size new_idx ∨ 0 < size changed)%nat
               then log_event dt (size new_idx) (size changed) 0 else dt)
            = table_data dt)
      by (destruct (decide (0 < size new_idx ∨ 0 < size changed)%nat); reflexivity).
    assert (Hd3 : ∀ dt', table_data
              (if decide (0 < size new_meta)%nat
               then with_meta
                      (insert_rows
                         (assign_update_ts (dom existing ∖ changed) existing
                            (assign_create_ts changed existing new_meta))
                         (delete_rows (dom new_meta) (table_meta dt')))
                      dt'
               else dt') = table_data dt').
    { intros dt'. by destruct (decide (0 < size new_meta)%nat). }
    rewrite Hd3. unfold with_data. cbn [table_data].
    rewrite Hd1. unfold update_rows.
    destruct (df !! k) as [r|] eqn:E.
    - destruct (to_write_idx_spec dt df now k r E) as [Hch Hnw].
      fold existing new_meta in Hch, Hnw. fold changed in Hch. fold new_idx in Hnw.
      destruct (table_meta dt !! k) as [e|] eqn:He.
      + destruct (decide (hash_row r = hash e)) as [Heq|Hne].
        * rewrite lookup_union_r; [done|].
          rewrite loc_lookup, decide_False; [done|].
          rewrite elem_of_union, Hch, Hnw. intros [(e' & [= <-] & ?)|?]; done.
        * apply lookup_union_Some_l. rewrite loc_lookup, decide_True; [done|].
          apply elem_of_union. left. apply Hch. eauto.
      + apply lookup_union_Some_l. rewrite loc_lookup, decide_True; [done|].
        apply elem_of_union. right. by apply Hnw.
    - rewrite lookup_union_r; [done|]. rewrite loc_lookup, E.
      by destruct (decide (k ∈ changed ∪ new_idx)). }
  split; [apply Hdata|]. split.
  - apply map_eq. intros k. rewrite (Hdata _ now2).
    destruct (df !! k) as [r|] eqn:E; [|done].
    rewrite (C12nFacts.store_chunk_meta_in _ _ _ _ _ r E), hash_ingested_meta.
    by rewrite decide_True.
  - apply store_chunk_events_same. intros k r Hr.
    eexists. split; [by apply C12nFacts.store_chunk_meta_in|].
    by rewrite hash_ingested_meta.
Qed.

(** X3.  An empty chunk: [store_chunk] leaves the table as it is, logs no
    event and returns the empty index. *)
Theorem store_chunk_empty (dt : DataTable) (now : Z) :
  store_chunk hash_row dt ∅ now = (dt, ∅).
Proof.
  unfold store_chunk, _make_new_metadata_df.
  rewrite fmap_empty, !dom_empty_L.
  assert (Hch : ∀ ex : gmap string MetaRow, changed_of ∅ ex (dom ex ∩ ∅) = ∅).
  { intros ex. apply set_eq. intros k. unfold changed_of.
    rewrite elem_of_filter. split; [intros [_ Hk]|intros Hk].
    - by apply elem_of_intersection in Hk as [_ Hk].
    - by apply not_elem_of_empty in Hk. }
  rewrite Hch. rewrite (left_id_L ∅ (∪)).
  replace (∅ ∖ dom (get_metadata dt (Some ∅))) with (∅ : gset string)
    by (apply set_eq; intros x; rewrite elem_of_difference; split;
        [intros Hx|intros [Hx _]]; by apply not_elem_of_empty in Hx).
  rewrite (decide_False (P := (0 < size (∅ : gset string) ∨ 0 < size (∅ : gset string))%nat))
    by (rewrite size_empty; lia).
  rewrite decide_False by (rewrite map_size_empty; lia).
  f_equal. unfold with_data, update_rows, loc.
  rewrite map_filter_empty, (left_id_L ∅ (∪)). by destruct dt.
Qed.

(** [sync_meta] leaves a row that has not vanished as it is. *)
Lemma sync_meta_kept (dt : DataTable) (chunks : list (gset string))
    (processed_idx : option (gset string)) (k : string) :
  ¬ (is_Some (get_metadata dt processed_idx !! k) ∧ (∀ c, c ∈ chunks → k ∉ c)) →
  table_meta (sync_meta dt chunks processed_idx) !! k = table_meta dt !! k ∧
  table_data (sync_meta dt chunks processed_idx) !! k = table_data dt !! k.
Proof.
  intros Hnot. unfold sync_meta.
  set (idx := foldl (λ acc chunk, acc ∪ chunk) ∅ chunks).
  assert (Hk : k ∉ dom (get_metadata dt processed_idx) ∖ idx).
  { rewrite elem_of_difference, elem_of_dom. intros [Hs Hi]. apply Hnot.
    split; [done|]. intros c Hc Hkc. apply Hi. unfold idx.
    apply C12nFacts.foldl_union_chunks. right. eauto. }
  clearbody idx.
  destruct (decide (0 < size (dom (get_metadata dt processed_idx) ∖ idx))%nat); [|done].
  unfold with_meta, with_data. cbn [table_meta table_data].
  by rewrite !C12nFacts.delete_rows_lookup, !decide_False.
Qed.

(** X4.  [sync_meta], key by key: a key that has a meta row among the
    processed ones and is in none of the chunks loses its meta row and
    its data row; every other key keeps both as they are. *)
Theorem sync_meta_keeps_or_erases (dt : DataTable) (chunks : list (gset string))
    (processed_idx : option (gset string)) (k : string) :
  (is_Some (get_metadata dt processed_idx !! k) ∧ (∀ c, c ∈ chunks → k ∉ c) →
   table_meta (sync_meta dt chunks processed_idx) !! k = None ∧
   table_data (sync_meta dt chunks processed_idx) !! k = None) ∧
  (¬ (is_Some (get_metadata dt processed_idx !! k) ∧ (∀ c, c ∈ chunks → k ∉ c)) →
   table_meta (sync_meta dt chunks processed_idx) !! k = table_meta dt !! k ∧
   table_data (sync_meta dt chunks processed_idx) !! k = table_data dt !! k).
Proof.
  split; [intros [? ?]; by apply C12nFacts.sync_meta_erases|apply sync_meta_kept].
Qed.

(** X5.  [store]: afterwards the meta table holds the keys of the frame
    and no other key, each with the meta row that the ingest gave it. *)
Theorem store_meta (dt : DataTable) (df : gmap string Row) (now : Z) (k : string) :
  table_meta (store hash_row dt df now) !! k
  = (λ r, Statements.ingested_meta hash_row now r (table_meta dt !! k)) <$> df !! k.
Proof.
  unfold store.
  pose proof (C12nFacts.store_chunk_meta_in hash_row dt df now k) as Hin.
  pose proof (C12nFacts.store_chunk_meta_out hash_row dt df now k) as Hout.
  destruct (store_chunk hash_row dt df now) as [dt1 chunk] eqn:Hsc.
  assert (chunk = dom df) as -> by (unfold store_chunk in Hsc; by injection Hsc).
  cbn [fst] in Hin, Hout.
  destruct (df !! k) as [r|] eqn:E.
  - destruct (sync_meta_kept dt1 [dom df] None k) as [-> _]; [|by rewrite (Hin r)].
    intros [_ Hno]. apply (Hno (dom df)); [apply list_elem_of_here|].
    apply elem_of_dom. eauto.
  - cbn. destruct (table_meta dt1 !! k) as [m|] eqn:Em.
    + apply C12nFacts.sync_meta_erases.
      * unfold get_metadata, read_rows. rewrite Em. eauto.
      * intros c Hc. apply list_elem_of_singleton in Hc as ->.
        by apply not_elem_of_dom.
    + destruct (sync_meta_kept dt1 [dom df] None k) as [-> _]; [|done].
      intros [Hs _]. unfold get_metadata, read_rows in Hs. rewrite Em in Hs.
      by destruct Hs.
Qed.

Lemma store_chunk_meta_is_Some (dt : DataTable) (df : gmap string Row) (now : Z)
    (k : string) :
  is_Some (table_meta (store_chunk hash_row dt df now).1 !! k)
  ↔ is_Some (df !! k) ∨ is_Some (table_meta dt !! k).
Proof.
  destruct (df !! k) as [r|] eqn:E.
  - rewrite (C12nFacts.store_chunk_meta_in _ _ _ _ _ r E). split; eauto.
  - rewrite (C12nFacts.store_chunk_meta_out _ _ _ _ _ E). split; [auto|].
    intros [[? ?]|?]; done.
Qed.

(** The loop of [gen_process]: the chunks it collects and the keys that
    have a meta row after it. *)
Lemma gen_process_loop (iterable : list (gmap string Row * Z)) (dt : DataTable)
    (chunks : list (gset string)) (res : DataTable * list (gset string)) :
  foldl (λ acc chunk_df,
           let '(dt', chunk) :=
             store_chunk hash_row acc.1 chunk_df.1 chunk_df.2 in
           (dt', acc.2 ++ [chunk]))
        (dt, chunks) iterable = res →
  res.2 = chunks ++ ((λ c, dom c.1) <$> iterable) ∧
  ∀ k, is_Some (table_meta res.1 !! k)
       ↔ is_Some (table_meta dt !! k) ∨ ∃ c, c ∈ iterable ∧ is_Some (c.1 !! k).
Proof.
  revert dt chunks. induction iterable as [|c iterable IH]; intros dt chunks Hres.
  - cbn in Hres. subst res. cbn. split; [by rewrite app_nil_r|].
    intros k. split; [auto|].
    intros [?|(c & Hc & _)]; [done|]. by apply elem_of_nil in Hc.
  - cbn [foldl] in Hres. cbn [fst snd] in Hres.
    pose proof (store_chunk_meta_is_Some dt c.1 c.2) as Hm.
    destruct (store_chunk hash_row dt c.1 c.2) as [dt1 chunk] eqn:Hsc.
    assert (chunk = dom c.1) as -> by (unfold store_chunk in Hsc; by injection Hsc).
    cbn [fst] in Hm.
    destruct (IH dt1 (chunks ++ [dom c.1]) Hres) as [IH1 IH2].
    split; [by rewrite IH1, <- app_assoc|].
    intros k. rewrite IH2, Hm. split.
    + intros [[Hs|Hs]|(c' & Hc' & Hs)].
      * right. exists c. split; [apply list_elem_of_here|done].
      * by left.
      * right. exists c'. split; [by apply list_elem_of_further|done].
    + intros [Hs|(c' & Hc' & Hs)].
      * left. by right.
      * apply elem_of_cons in Hc' as [->|Hc'].
        -- left. by left.
        -- right. eauto.
Qed.

(** X6.  [gen_process]: afterwards a key has a meta row exactly when one
    of the frames of the iterable holds it. *)
Theorem gen_process_meta_keys (dt : DataTable)
    (iterable : list (gmap string Row * Z)) (k : string) :
  is_Some (table_meta (gen_process hash_row dt iterable) !! k)
  ↔ ∃ c, c ∈ iterable ∧ is_Some (c.1 !! k).
Proof.
  unfold gen_process.
  destruct (foldl _ (dt, []) iterable) as [dt1 chunks_k] eqn:Hf.
  destruct (gen_process_loop _ _ _ _ Hf) as [Hch Hkeys]. cbn [fst snd] in Hch, Hkeys.
  rewrite app_nil_l in Hch. subst chunks_k.
  pose proof (C12nFacts.sync_meta_erases dt1 ((λ c, dom c.1) <$> iterable) None k)
    as Hgone.
  pose proof (sync_meta_kept dt1 ((λ c, dom c.1) <$> iterable) None k) as Hkept.
  split.
  - intros Hs.
    destruct (decide (k ∈ ⋃ ((λ c : gmap string Row * Z, dom c.1) <$> iterable)))
      as [Hin|Hno].
    + apply elem_of_union_list in Hin as (s & Hs1 & Hs2).
      apply list_elem_of_fmap in Hs1 as (c & -> & Hc).
      exists c. split; [done|]. by apply elem_of_dom.
    + exfalso. destruct (table_meta dt1 !! k) as [m|] eqn:E.
      * destruct Hgone as [Hg _].
        -- unfold get_metadata, read_rows. rewrite E. eauto.
        -- intros c Hc Hk. apply Hno. apply elem_of_union_list. eauto.
        -- rewrite Hg in Hs. by destruct Hs.
      * destruct Hkept as [Hk1 _].
        -- intros [Hx _]. unfold get_metadata, read_rows in Hx.
           rewrite E in Hx. by destruct Hx.
        -- rewrite Hk1 in Hs. by destruct Hs.
  - intros (c & Hc & Hs).
    destruct Hkept as [-> _].
    + intros [_ Hno]. apply (Hno (dom c.1)).
      * apply list_elem_of_fmap. eauto.
      * by apply elem_of_dom.
    + apply Hkeys. right. eauto.
Qed.

(** A meta row that [sync_meta] leaves is the row it found. *)
Lemma sync_meta_meta_Some (dt : DataTable) (chunks : list (gset string))
    (processed_idx : option (gset string)) (k : string) (m : MetaRow) :
  table_meta (sync_meta dt chunks processed_idx) !! k = Some m →
  table_meta dt !! k = Some m.
Proof.
  unfold sync_meta. case_decide; [|done].
  unfold with_meta, with_data. cbn [table_meta].
  rewrite C12nFacts.delete_rows_lookup. by case_decide.
Qed.

(** The loop of [gen_process] keeps [update_ts ≤ process_ts] when the
    clock does not go back. *)
Lemma gen_process_loop_inv (iterable : list (gmap string Row * Z)) (dt : DataTable)
    (chunks : list (gset string)) (t0 : Z) (res : DataTable * list (gset string)) :
  foldl (λ acc chunk_df,
           let '(dt', chunk) :=
             store_chunk hash_row acc.1 chunk_df.1 chunk_df.2 in
           (dt', acc.2 ++ [chunk]))
        (dt, chunks) iterable = res →
  (∀ k m, table_meta dt !! k = Some m →
          update_ts m ≤ process_ts m ∧ process_ts m ≤ t0) →
  Sorted Z.le (t0 :: iterable.*2) →
  ∃ t1, ∀ k m, table_meta res.1 !! k = Some m →
               update_ts m ≤ process_ts m ∧ process_ts m ≤ t1.
Proof.
  revert dt chunks t0.
  induction iterable as [|c iterable IH]; intros dt chunks t0 Hf Hinv Hclock.
  - cbn in Hf. subst res. eauto.
  - cbn [foldl] in Hf. cbn [fst snd] in Hf.
    pose proof (C12nFacts.store_chunk_update_le_process hash_row dt c.1 c.2) as Hstep.
    destruct (store_chunk hash_row dt c.1 c.2) as [dt2 chunk]. cbn [fst] in Hstep.
    cbn in Hclock. apply Sorted_inv in Hclock as [Hclock Hhd].
    apply HdRel_inv in Hhd.
    apply (IH dt2 _ c.2 Hf); [|done].
    apply Hstep. intros k' m' Hm'. destruct (Hinv k' m' Hm'). lia.
Qed.

(** X7.  [gen_process] and the order of [update_ts] and [process_ts]:
    when every stored meta row has [update_ts ≤ process_ts ≤ t0] and
    the clock readings of the ingests start at [t0] or later and never
    go back, every meta row has [update_ts ≤ process_ts] afterwards. *)
Theorem gen_process_update_le_process (dt : DataTable)
    (iterable : list (gmap string Row * Z)) (t0 : Z) :
  (∀ k m, table_meta dt !! k = Some m →
          update_ts m ≤ process_ts m ∧ process_ts m ≤ t0) →
  Sorted Z.le (t0 :: iterable.*2) →
  ∀ k m, table_meta (gen_process hash_row dt iterable) !! k = Some m →
         update_ts m ≤ process_ts m.
Proof.
  intros Hinv Hclock k m Hm. unfold gen_process in Hm.
  destruct (foldl _ (dt, []) iterable) as [dt1 chunks_k] eqn:Hf.
  apply sync_meta_meta_Some in Hm.
  destruct (gen_process_loop_inv _ _ _ _ _ Hf Hinv Hclock) as [t1 Hloop].
  by destruct (Hloop k m Hm).
Qed.

End Facts.

Lemma size_list_to_set_le (l : list string) :
  (size (list_to_set l : gset string) ≤ length l)%nat.
Proof.
  induction l as [|x l IH]; cbn; [by rewrite size_empty|].
  rewrite size_union_alt, size_singleton.
  assert (Hsub : (list_to_set l : gset string) ∖ {[x]} ⊆ list_to_set l).
  { intros y Hy. by apply elem_of_difference in Hy as [? _]. }
  apply subseteq_size in Hsub. lia.
Qed.

(** X8.  [get_data_chunked] with a positive chunk size returns frames of
    at most that many rows, and a row is in one of the frames exactly
    when its key has a meta row and a data row. *)
Theorem get_data_chunked_covers (dt : DataTable) (chunksize : Z) :
  0 < chunksize →
  ∃ frames, get_data_chunked dt chunksize = Ok frames ∧
    Forall (λ f : gmap string Row, Z.of_nat (size f) ≤ chunksize) frames ∧
    ∀ k r, (∃ f, f ∈ frames ∧ f !! k = Some r)
           ↔ is_Some (table_meta dt !! k) ∧ table_data dt !! k = Some r.
Proof.
  intros Hpos. unfold get_data_chunked.
  rewrite decide_False by lia. rewrite decide_False by lia.
  eexists. split; [reflexivity|].
  unfold get_metadata, get_data.
  change (read_rows None (table_meta dt)) with (table_meta dt).
  set (index := elements (dom (table_meta dt))).
  set (c := Z.to_nat chunksize).
  assert (Hc : (0 < c)%nat) by (unfold c; lia).
  split.
  - apply Forall_fmap, Forall_forall. intros i _. cbn. unfold read_rows.
    set (slice := take c (drop (i * c) index)).
    assert (Hlen : (length slice ≤ c)%nat) by (unfold slice; rewrite length_take; lia).
    assert (Hsub : dom (filter (λ kv : string * Row, kv.1 ∈ (list_to_set slice : gset string))
                               (table_data dt)) ⊆ list_to_set slice).
    { intros k Hk. apply elem_of_dom in Hk as [r Hr].
      by apply map_lookup_filter_Some in Hr as [_ ?]. }
    apply subseteq_size in Hsub. rewrite size_dom in Hsub.
    pose proof (size_list_to_set_le slice). unfold c in *. lia.
  - intros k r.
    assert (Hidx : k ∈ index ↔ is_Some (table_meta dt !! k)).
    { unfold index. by rewrite elem_of_elements, elem_of_dom. }
    assert (Hcat : k ∈ index
              ↔ ∃ l, l ∈ (λ i : nat, take c (drop (i * c) index))
                           <$> seq 0 ((length index + c - 1) `div` c)
                     ∧ k ∈ l).
    { rewrite <- PlannerFacts.elem_of_concat. by rewrite PlannerFacts.concat_slices. }
    rewrite <- Hidx, Hcat. split.
    + intros (f & Hf & Hk). apply list_elem_of_fmap in Hf as (i & -> & Hi).
      rewrite C12nFacts.read_rows_lookup in Hk.
      destruct (decide (k ∈ list_to_set (take c (drop (i * c) index)))) as [Hin|]; [|done].
      split; [|done]. eexists. split; [|by apply elem_of_list_to_set in Hin].
      apply list_elem_of_fmap. by exists i.
    + intros [(l & Hl & Hk) Hr]. apply list_elem_of_fmap in Hl as (i & -> & Hi).
      eexists. split; [apply list_elem_of_fmap; by exists i|].
      rewrite C12nFacts.read_rows_lookup, decide_True; [done|].
      by apply elem_of_list_to_set.
Qed.

(** A use of X7 on the table of scenario A after its first ingest, with
    one more ingest of the same chunk at time 2, and a use of X8 on the
    table after both ingests, read one row at a time. *)
Lemma gen_process_update_le_process_witness :
  ∃ m, table_meta (gen_process Examples.hash_of_row Examples.src_first
                     [(Examples.chunk_ab, 2)]) !! "0" = Some m ∧
       update_ts m ≤ process_ts m.
Proof.
  eexists. split; [vm_compute; reflexivity|].
  apply (gen_process_update_le_process Examples.hash_of_row Examples.src_first
           [(Examples.chunk_ab, 2)] 1) with (k := "0").
  - apply (bool_decide_unpack
             (map_Forall (λ (_ : string) (m : MetaRow),
                            update_ts m ≤ process_ts m ∧ process_ts m ≤ 1)
                         (table_meta Examples.src_first))).
    vm_compute. exact I.
  - repeat constructor. cbn. lia.
  - vm_compute. reflexivity.
Defined.

Lemma get_data_chunked_covers_witness :
  ∃ frames, get_data_chunked Examples.src_second 1 = Ok frames ∧
    Forall (λ f : gmap string Row, Z.of_nat (size f) ≤ 1) frames ∧
    ∀ k r, (∃ f, f ∈ frames ∧ f !! k = Some r)
           ↔ is_Some (table_meta Examples.src_second !! k) ∧
             table_data Examples.src_second !! k = Some r.
Proof. apply (get_data_chunked_covers Examples.src_second 1). lia. Defined.

End IngestFacts.

(** ** Transform keys and their types ([core_steps.py], [compute.py]) *)

Module SchemaFacts.

Import Planner Statements.

Local Open Scope Z_scope.

(** What the dict comprehension of [compute_transform_schema] holds for
    a name. *)
Lemma all_keys_foldl_Some (cols : list Column) (acc : gmap string Column)
    (k : string) (c : Column) :
  foldl (λ a col, <[col_name col := col]> a) acc cols !! k = Some c →
  acc !! k = Some c ∨ (c ∈ cols ∧ col_name c = k).
Proof.
  revert acc. induction cols as [|col cols IH]; intros acc; cbn; [auto|].
  intros H. apply IH in H as [H|[H1 H2]].
  - destruct (decide (col_name col = k)) as [<-|Hne].
    + rewrite lookup_insert_eq in H. injection H as <-.
      right. split; [apply list_elem_of_here|done].
    + rewrite lookup_insert_ne in H by done. by left.
  - right. split; [by apply list_elem_of_further|done].
Qed.

Lemma lookup_cols_spec (all_keys : gmap string Column) (ks : list string) :
  (Forall (λ k, is_Some (all_keys !! k)) ks →
   ∃ cols, lookup_cols all_keys ks = Ok cols ∧
           Forall2 (λ k c, all_keys !! k = Some c) ks cols) ∧
  (¬ Forall (λ k, is_Some (all_keys !! k)) ks →
   lookup_cols all_keys ks = Raise KeyError).
Proof.
  unfold lookup_cols. induction ks as [|k ks [IH1 IH2]]; cbn.
  - split; [eauto|]. intros H. destruct H. constructor.
  - split.
    + intros H. apply Forall_cons in H as [[c Hc] H].
      destruct (IH1 H) as (cols & -> & HF). rewrite Hc. cbn.
      eexists. split; [done|]. by constructor.
    + intros H. destruct (all_keys !! k) as [c|] eqn:Hc; [|done]. cbn.
      rewrite IH2; [done|]. intros HF. apply H. constructor; eauto.
Qed.

(** X9.  [compute_transform_schema] with explicit transform keys: when
    every key is a primary-key column of some input or output table, the
    keys come back as given, with one column per key, of the key's name
    and taken from the primary schema of one of the tables; when a key is
    a column of none of them, the call raises [KeyError]. *)
Theorem compute_transform_schema_explicit (input_mts output_mts : list MetaTable)
    (tk : list string) :
  (Forall (λ k, ∃ mt, mt ∈ input_mts ++ output_mts ∧ k ∈ primary_keys mt) tk →
   ∃ cols, compute_transform_schema input_mts output_mts (Some tk) = Ok (tk, cols) ∧
           col_name <$> cols = tk ∧
           Forall (λ c, ∃ mt, mt ∈ input_mts ++ output_mts ∧ c ∈ primary_schema mt)
                  cols) ∧
  (¬ Forall (λ k, ∃ mt, mt ∈ input_mts ++ output_mts ∧ k ∈ primary_keys mt) tk →
   compute_transform_schema input_mts output_mts (Some tk) = Raise KeyError).
Proof.
  assert (Hkey : ∀ k, is_Some (all_keys_of input_mts output_mts !! k)
                      ↔ ∃ mt, mt ∈ input_mts ++ output_mts ∧ k ∈ primary_keys mt).
  { intros k. unfold all_keys_of. rewrite PlannerFacts.all_keys_foldl.
    rewrite lookup_empty. unfold primary_keys. split.
    - intros [[? ?]|H]; [done|].
      apply list_elem_of_fmap in H as (c & -> & Hc).
      apply PlannerFacts.elem_of_concat in Hc as (l & Hl & Hc).
      apply list_elem_of_fmap in Hl as (mt & -> & Hmt).
      exists mt. split; [done|]. apply list_elem_of_fmap. eauto.
    - intros (mt & Hmt & Hk). right.
      apply list_elem_of_fmap in Hk as (c & -> & Hc).
      apply list_elem_of_fmap. exists c. split; [done|].
      apply PlannerFacts.elem_of_concat. exists (primary_schema mt).
      split; [|done]. apply list_elem_of_fmap. eauto. }
  assert (HF : Forall (λ k, is_Some (all_keys_of input_mts output_mts !! k)) tk
               ↔ Forall (λ k, ∃ mt, mt ∈ input_mts ++ output_mts ∧ k ∈ primary_keys mt) tk).
  { rewrite !Forall_forall. split; intros H k Hk; apply Hkey; auto. }
  destruct (lookup_cols_spec (all_keys_of input_mts output_mts) tk) as [H1 H2].
  unfold compute_transform_schema. split.
  - intros H. apply HF in H. destruct (H1 H) as (cols & -> & H2c). cbn.
    exists cols. split; [done|].
    assert (Hall : Forall2 (λ k c, col_name c = k ∧
                     ∃ mt, mt ∈ input_mts ++ output_mts ∧ c ∈ primary_schema mt) tk cols).
    { eapply Forall2_impl; [exact H2c|]. intros k c Hc. cbn in Hc.
      unfold all_keys_of in Hc. apply all_keys_foldl_Some in Hc as [Hc|[Hc Hn]].
      - by rewrite lookup_empty in Hc.
      - split; [done|]. apply PlannerFacts.elem_of_concat in Hc as (l & Hl & Hc).
        apply list_elem_of_fmap in Hl as (mt & -> & Hmt). eauto. }
    clear -Hall. induction Hall as [|k c tk cols [Hn Hm] _ [IH1 IH2]]; cbn.
    + split; [done|constructor].
    + split; [by rewrite Hn, IH1|by constructor].
  - intros H. rewrite H2; [done|]. by rewrite HF.
Qed.

(** The dict comprehensions of [validate]: the last column of a name
    gives its type. *)
Lemma types_foldl (cols : list Column) (acc : gmap string string) (k : string) :
  foldl (λ a col, <[col_name col := col_type col]> a) acc cols !! k
  = match last (filter (λ c, col_name c = k) cols) with
    | Some c => Some (col_type c)
    | None => acc !! k
    end.
Proof.
  revert acc. induction cols as [|col cols IH]; intros acc; cbn [foldl]; [done|].
  rewrite IH. destruct (decide (col_name col = k)) as [Heq|Hne].
  - rewrite filter_cons_True by done.
    destruct (filter (λ c, col_name c = k) cols) as [|c' l'] eqn:E.
    + subst k. cbn [last]. apply lookup_insert_eq.
    + rewrite (last_cons col). destruct (last (c' :: l')); [done|].
      subst k. apply lookup_insert_eq.
  - rewrite filter_cons_False by done.
    destruct (last _); [done|]. by rewrite lookup_insert_ne.
Qed.

Lemma filter_filter_name (jk : gset string) (k : string) (cols : list Column) :
  filter (λ c, col_name c = k) (filter (λ c, col_name c ∈ jk) cols)
  = if decide (k ∈ jk) then filter (λ c, col_name c = k) cols else [].
Proof.
  induction cols as [|c cols IH]; [by case_decide|].
  destruct (decide (col_name c ∈ jk)) as [Hin|Hout].
  - rewrite (filter_cons_True (λ c, col_name c ∈ jk)) by done.
    destruct (decide (col_name c = k)) as [Heq|Hne].
    + rewrite !filter_cons_True by done. rewrite IH.
      rewrite decide_True by (by rewrite <- Heq). by rewrite decide_True by (by rewrite <- Heq).
    + rewrite !filter_cons_False by done. done.
  - rewrite (filter_cons_False (λ c, col_name c ∈ jk)) by done. rewrite IH.
    case_decide; [|done]. rewrite filter_cons_False; [done|]. intros Heq. by rewrite Heq in Hout.
Qed.

Lemma key_to_column_type_lookup (dts : list DataTable) (jk : gset string) (k : string) :
  key_to_column_type dts jk !! k
  = if decide (k ∈ jk) then declared_type dts k else None.
Proof.
  unfold key_to_column_type, declared_type.
  rewrite types_foldl, filter_filter_name, lookup_empty.
  case_decide; [|done]. by destruct (last _).
Qed.

Lemma intersection_or_empty_spec (dts : list DataTable) (k : string) :
  k ∈ intersection_or_empty ((λ dt, pk_set (meta_table dt)) <$> dts)
  ↔ dts ≠ [] ∧ key_of_all (meta_table <$> dts) k.
Proof.
  destruct dts as [|dt dts].
  - cbn. split; [intros H; by apply not_elem_of_empty in H|by intros [? _]].
  - pose proof (PlannerFacts.set_intersection_spec (meta_table <$> (dt :: dts))) as Hs.
    rewrite <- list_fmap_compose in Hs. cbn in Hs. cbn.
    destruct (Hs _ eq_refl) as [_ Hk]. rewrite Hk. split; [by intros ?|by intros [_ ?]].
Qed.

Lemma declared_type_is_Some (dts : list DataTable) (k : string) :
  dts ≠ [] → key_of_all (meta_table <$> dts) k → is_Some (declared_type dts k).
Proof.
  intros Hne Hall. destruct dts as [|dt dts]; [done|].
  assert (Hk : k ∈ primary_keys (meta_table dt)).
  { apply Hall. apply list_elem_of_fmap. exists dt. split; [done|apply list_elem_of_here]. }
  unfold primary_keys in Hk. apply list_elem_of_fmap in Hk as (c & -> & Hc).
  unfold declared_type. rewrite fmap_is_Some.
  assert (Hin : c ∈ filter (λ c', col_name c' = col_name c)
                  (concat ((λ dt, primary_schema (meta_table dt)) <$> dt :: dts))).
  { apply list_elem_of_filter. split; [done|]. cbn. apply elem_of_app. by left. }
  destruct (filter _ _) as [|x l] eqn:E; [by apply elem_of_nil in Hin|].
  rewrite last_is_Some. done.
Qed.

(** X10.  [ComputeStep.validate] returns exactly when, for every join key
    (a primary-key column of every input and every output), the type
    declared last among the inputs is the type declared last among the
    outputs; otherwise it raises [ValueError], and it raises nothing
    else.  A step without inputs or without outputs has no join key. *)
Theorem validate_spec (self : BaseBatchTransformStep) :
  (validate self = Ok tt ↔
   ∀ k, join_key self k →
        declared_type (input_dts self) k = declared_type (output_dts self) k) ∧
  (validate self = Ok tt ∨ validate self = Raise ValueError).
Proof.
  unfold validate.
  set (jk := intersection_or_empty ((λ inp, pk_set (meta_table inp)) <$> input_dts self)
             ∩ intersection_or_empty ((λ out, pk_set (meta_table out)) <$> output_dts self)).
  assert (Hjk : ∀ k, k ∈ jk ↔ join_key self k).
  { intros k. unfold jk, join_key.
    rewrite elem_of_intersection, !intersection_or_empty_spec. tauto. }
  set (check := λ key : string,
         match key_to_column_type (input_dts self) jk !! key,
               key_to_column_type (output_dts self) jk !! key with
         | Some ti, Some to => if decide (ti ≠ to) then Raise ValueError else Ok tt
         | _, _ => Raise KeyError
         end).
  assert (Hcheck : ∀ k, k ∈ jk →
            check k = if decide (declared_type (input_dts self) k
                                 = declared_type (output_dts self) k)
                      then Ok tt else Raise ValueError).
  { intros k Hk. unfold check. rewrite !key_to_column_type_lookup, !decide_True by done.
    apply Hjk in Hk as (Hi & Ho & Hki & Hko).
    destruct (declared_type_is_Some _ _ Hi Hki) as [ti ->].
    destruct (declared_type_is_Some _ _ Ho Hko) as [to ->].
    destruct (decide (ti = to)) as [->|Hne].
    - rewrite decide_False by (intros H; by apply H). by rewrite decide_True.
    - rewrite decide_True by done. by rewrite decide_False by congruence. }
  assert (Hloop : ∀ l : list string, (∀ k, k ∈ l → k ∈ jk) →
            (mapR check l = Ok (replicate (length l) tt) ∧
             ∀ k, k ∈ l → declared_type (input_dts self) k
                          = declared_type (output_dts self) k) ∨
            (mapR check l = Raise ValueError ∧
             ∃ k, k ∈ l ∧ declared_type (input_dts self) k
                          ≠ declared_type (output_dts self) k)).
  { induction l as [|k l IH]; intros Hl.
    - left. split; [done|]. intros k Hk. by apply elem_of_nil in Hk.
    - cbn. rewrite Hcheck by apply Hl, list_elem_of_here.
      destruct (decide (declared_type (input_dts self) k
                        = declared_type (output_dts self) k)) as [Heq|Hne]; cbn.
      + destruct IH as [[-> Hall]|[-> (k' & Hk' & Hne)]].
        * intros k' Hk'. by apply Hl, list_elem_of_further.
        * left. split; [done|]. intros k' Hk'.
          apply elem_of_cons in Hk' as [->|Hk']; auto.
        * right. split; [done|]. exists k'. split; [by apply list_elem_of_further|done].
      + right. split; [done|]. exists k. split; [apply list_elem_of_here|done]. }
  clearbody check.
  destruct (Hloop (elements jk)) as [[-> Hall]|[-> (k & Hk & Hne)]].
  - intros k Hk. by apply elem_of_elements in Hk.
  - cbn. split; [|by left]. split; [|done]. intros _ k Hk.
    apply Hall, elem_of_elements, Hjk, Hk.
  - cbn. split; [|by right]. split; [done|]. intros Hall. exfalso. apply Hne.
    apply Hall, Hjk. by apply elem_of_elements in Hk.
Qed.

(** The step from [a] and [b] to [out] declares [id] as a string
    everywhere; the step from [a] to [ints] declares it as a string and
    as an integer. *)
Lemma validate_examples :
  validate Examples.step_ab = Ok tt ∧
  validate Examples.step_mixed = Raise ValueError.
Proof. split; vm_compute; reflexivity. Qed.

End SchemaFacts.

(** ** Filters and batches of the planner ([core_steps.py]) *)

Module BatchingFacts.

Import Planner Statements.

Local Open Scope Z_scope.

(** Applying the step's filters a second time changes nothing. *)
Lemma apply_filters_twice (self : BaseBatchTransformStep)
    (run_config : option RunConfig) :
  _apply_filters_to_run_config self (_apply_filters_to_run_config self run_config)
    = _apply_filters_to_run_config self run_config.
Proof.
  unfold _apply_filters_to_run_config.
  destruct (filters self) as [fs|]; [|done].
  destruct run_config as [rc|]; cbn; do 2 f_equal.
  - by rewrite <- (assoc_L (∪)), (idemp_L (∪)).
  - by rewrite (idemp_L (∪)).
Qed.

(** X11.  [_apply_filters_to_run_config]: applying it twice gives what
    applying it once gives, which is why [get_full_process_ids] may pass
    a run configuration that it has already completed on to
    [get_changed_idx_count]; and in the result a filter of the run
    takes precedence over the step's filter of the same column. *)
Theorem apply_filters_to_run_config_idempotent (self : BaseBatchTransformStep)
    (run_config : option RunConfig) :
  _apply_filters_to_run_config self (_apply_filters_to_run_config self run_config)
    = _apply_filters_to_run_config self run_config ∧
  ∀ fs k, filters self = Some fs →
          (_apply_filters_to_run_config self run_config ≫= λ rc, rc_filters rc !! k)
          = match run_config ≫= (λ rc, rc_filters rc !! k) with
            | Some v => Some v
            | None => fs !! k
            end.
Proof.
  split; [apply apply_filters_twice|].
  unfold _apply_filters_to_run_config.
  intros fs k ->. destruct run_config as [rc|]; cbn; [|done].
  rewrite lookup_union. by destruct (rc_filters rc !! k), (fs !! k).
Qed.

(** [math.ceil(a / b)] is the least number of chunks of [b] rows that
    hold [a] rows. *)
Lemma math_ceil_div_spec (a b n : Z) :
  0 ≤ a < 2 ^ 53 → 0 < b < 2 ^ 53 →
  math_ceil_div a b = Ok n → n * b - b < a ≤ n * b.
Proof.
  intros Ha Hb. rewrite PlannerFacts.math_ceil_div_exact by done. intros [= <-].
  pose proof (Z.div_mod (- a) b ltac:(lia)).
  pose proof (Z.mod_pos_bound (- a) b ltac:(lia)). nia.
Qed.

Lemma math_ceil_div_nat (len : nat) (cs : Z) :
  0 < cs →
  Z.to_nat (- (- Z.of_nat len / cs)) = Nat.div (len + Z.to_nat cs - 1) (Z.to_nat cs).
Proof.
  intros Hcs. apply Nat2Z.inj.
  rewrite Nat2Z.inj_div, Nat2Z.inj_sub, Nat2Z.inj_add by lia.
  rewrite !Z2Nat.id.
  - generalize (Z.of_nat len). intros a.
    replace (a + cs - Z.of_nat 1) with ((cs - 1 - - a)) by lia.
    pose proof (Z.div_mod (- a) cs ltac:(lia)).
    pose proof (Z.mod_pos_bound (- a) cs ltac:(lia)).
    apply Z.div_unique with (r := cs - 1 - (- a) mod cs); lia.
  - lia.
  - assert (- Z.of_nat len / cs ≤ 0); [|lia].
    apply Z.div_le_upper_bound; lia.
Qed.

Lemma chunked_concat {A : Type} (fuel n : nat) (l : list A) :
  (0 < n)%nat → (length l ≤ fuel)%nat → concat (chunked fuel n l) = l.
Proof.
  intros Hn. revert l. induction fuel as [|fuel IH]; intros l Hl.
  - destruct l; [done|cbn in Hl; lia].
  - destruct l as [|x l]; [done|]. cbn [chunked concat].
    rewrite IH; [apply take_drop|]. rewrite length_drop. cbn in *. lia.
Qed.

Lemma add_columns_rows (extra : list (string * Z)) (df : IndexDF) :
  rows (foldl (λ d kv, add_column kv.1 kv.2 d) df extra)
  = with_columns extra <$> rows df.
Proof.
  unfold with_columns. revert df. induction extra as [|kv extra IH]; intros df; cbn.
  - by rewrite list_fmap_id.
  - rewrite IH. cbn. rewrite <- list_fmap_compose. done.
Qed.

Lemma concat_fmap_rows (g : KeyRow → KeyRow) (frames : list IndexDF) :
  concat ((λ b, g <$> rows b) <$> frames) = g <$> concat (rows <$> frames).
Proof.
  induction frames as [|b frames IH]; cbn; [done|]. by rewrite IH, fmap_app.
Qed.

(** X12.  [get_full_process_ids] on a step with inputs and a positive
    chunk size, when it returns [(n, batches)]: [n] is the least number
    of chunks that hold the keys the planner statement selects, every
    batch has at most [chunk_size] rows, and the rows of the batches, one
    after the other, are the selected keys in their order, each with the
    filter columns that are no transform key added.  The chunk size is
    below [2^31], a C int for the [fetchmany] of the driver, and the
    count is stated for fewer than [2^53] selected keys, where the
    division in floating point is exact enough for the ceiling. *)
Theorem get_full_process_ids_rows (self : BaseBatchTransformStep)
    (ds : DataStore) (run_config : option RunConfig) (n : Z)
    (batches : list IndexDF) :
  0 < chunk_size self < 2 ^ 31 → input_dts self ≠ [] →
  get_full_process_ids self ds None run_config = Ok (n, batches) →
  ∃ q extra,
    _build_changed_idx_sql self ds (_apply_filters_to_run_config self run_config)
      = Ok q ∧
    (Z.of_nat (length q.2) < 2 ^ 53 →
     n * chunk_size self - chunk_size self < Z.of_nat (length q.2)
       ≤ n * chunk_size self) ∧
    Forall (λ b, Z.of_nat (length (rows b)) ≤ chunk_size self) batches ∧
    concat (rows <$> batches) = with_columns extra <$> q.2 ∧
    ∀ k v, (k, v) ∈ extra ↔
           (k ∉ q.1) ∧
           (_apply_filters_to_run_config self run_config ≫= λ rc, rc_filters rc !! k)
             = Some v.
Proof.
  intros Hcs Hin H.
  destruct (PlannerFacts.get_full_process_ids_batches self ds run_config n batches
              (proj1 Hcs) Hin H) as [(q & Hq & Hn) Hsize].
  pose proof (apply_filters_twice self run_config) as Hidem.
  rewrite Hidem in Hq.
  unfold get_full_process_ids in H.
  rewrite decide_False in H by (by destruct (input_dts self)).
  apply bind_Ok in H as (cnt & Hcnt & H).
  unfold get_changed_idx_count in Hcnt. rewrite Hidem, Hq in Hcnt.
  injection Hcnt as <-.
  apply bind_Ok in H as (q' & Hq' & H).
  rewrite Hq in Hq'. injection Hq' as <-.
  apply bind_Ok in H as (m & Hm & [= _ <-]).
  set (rc' := _apply_filters_to_run_config self run_config) in *.
  exists q.
  exists (match rc' with
          | Some rc => map_to_list (filter (λ kv, kv.1 ∉ q.1) (rc_filters rc))
          | None => []
          end).
  split; [done|]. split; [intros Hlen; apply math_ceil_div_spec; [lia|lia|done]|].
  split; [done|]. split.
  - rewrite <- list_fmap_compose.
    erewrite list_fmap_ext; [|intros i b _; apply add_columns_rows].
    rewrite concat_fmap_rows. f_equal.
    unfold read_sql_query. destruct (q.2) as [|x l] eqn:El; [done|].
    rewrite <- list_fmap_compose.
    erewrite list_fmap_ext; [|intros i b _; reflexivity]. cbn [rows compose].
    rewrite list_fmap_id. apply chunked_concat; [lia|done].
  - intros k v. destruct rc' as [rc|]; cbn.
    + rewrite elem_of_map_to_list, map_lookup_filter_Some. cbn. tauto.
    + split; [intros Hx; by apply elem_of_nil in Hx|by intros [_ ?]].
Qed.




Lemma mapR_Raise {A B : Type} (f : A → result B) (l : list A) (e : exn) (x : A) :
  x ∈ l → f x = Raise e → (∀ y e', y ∈ l → f y = Raise e' → e' = e) →
  mapR f l = Raise e.
Proof.
  induction l as [|y l IH]; intros Hx Hfx Hall; [by apply elem_of_nil in Hx|].
  cbn. destruct (f y) as [b|e'] eqn:Hy; cbn.
  - apply elem_of_cons in Hx as [->|Hx]; [congruence|].
    rewrite IH; [done|done|done|]. intros z e' Hz. apply Hall. by apply list_elem_of_further.
  - f_equal. apply (Hall y); [apply list_elem_of_here|done].
Qed.

(** The rows of the batches of [get_change_list_process_ids], one after
    the other, are the rows of the frame it cut. *)
Lemma change_list_batches_concat (cs : Z) (cols : list string) (idx : list KeyRow)
    (n : Z) :
  0 < cs < 2 ^ 53 → Z.of_nat (length idx) < 2 ^ 53 →
  math_ceil_div (Z.of_nat (length idx)) cs = Ok n →
  concat (rows <$> ((λ i : nat, slice_rows (Z.of_nat i * cs) ((Z.of_nat i + 1) * cs)
                                           (mkIdx cols idx))
                      <$> seq 0 (Z.to_nat n))) = idx.
Proof.
  intros Hcs Hlen Hn. rewrite PlannerFacts.math_ceil_div_exact in Hn by lia.
  injection Hn as <-. rewrite <- list_fmap_compose.
  erewrite (list_fmap_ext _ (λ i : nat, take (Z.to_nat cs) (drop (i * Z.to_nat cs) idx))).
  - rewrite math_ceil_div_nat by lia. apply PlannerFacts.concat_slices. lia.
  - intros _ i _. unfold slice_rows. cbn. f_equal; [f_equal; lia|f_equal; nia].
Qed.


Lemma omap_names {B : Type} (g : string → option B) (l : list DataTable) :
  omap (λ inp, g (name inp)) l = omap g (name <$> l).
Proof. induction l as [|x l IH]; cbn; [done|]. by rewrite IH. Qed.

(** X14.  What [get_change_list_process_ids] reads: the names of the
    input tables, the transform keys, the chunk size and the entries of
    the change list for those names.  It reads neither the meta tables
    nor the transform meta, the filters, the run configuration or the
    store. *)
Theorem get_change_list_process_ids_reads (self self' : BaseBatchTransformStep)
    (ds ds' : DataStore) (change_list change_list' : ChangeList)
    (run_config run_config' : option RunConfig) :
  name <$> input_dts self = name <$> input_dts self' →
  transform_keys self = transform_keys self' →
  chunk_size self = chunk_size self' →
  (∀ inp, inp ∈ input_dts self →
          changes change_list !! name inp = changes change_list' !! name inp) →
  get_change_list_process_ids self ds change_list run_config
  = get_change_list_process_ids self' ds' change_list' run_config'.
Proof.
  intros Hnames Htk Hcs Hcl. unfold get_change_list_process_ids.
  assert (Hom : omap (λ inp, changes change_list !! name inp) (input_dts self)
                = omap (λ inp, changes change_list' !! name inp) (input_dts self')).
  { rewrite (omap_names (λ n, changes change_list' !! n) (input_dts self')).
    rewrite <- Hnames, <- omap_names.
    clear -Hcl. induction (input_dts self) as [|inp l IH]; [done|]. cbn.
    rewrite (Hcl inp) by apply list_elem_of_here.
    rewrite IH; [done|]. intros x Hx. by apply Hcl, list_elem_of_further. }
  by rewrite Hom, Htk, Hcs.
Qed.

(** X15.  [get_change_list_process_ids] raises [KeyError] when the frame
    that the change list holds for an input table lacks a transform key
    among its columns. *)
Theorem get_change_list_process_ids_missing_column (self : BaseBatchTransformStep)
    (ds : DataStore) (change_list : ChangeList) (run_config : option RunConfig)
    (inp : DataTable) (idx : IndexDF) (key : string) :
  inp ∈ input_dts self → changes change_list !! name inp = Some idx →
  key ∈ transform_keys self → key ∉ columns idx →
  get_change_list_process_ids self ds change_list run_config = Raise KeyError.
Proof.
  intros Hinp Hch Hkey Hcol. unfold get_change_list_process_ids.
  rewrite (mapR_Raise _ _ KeyError idx); [done| | |].
  - apply list_elem_of_omap. eauto.
  - unfold data_to_index. rewrite decide_False; [done|].
    rewrite Forall_forall. intros H. by apply Hcol, H.
  - intros y e' _. unfold data_to_index. case_decide; [done|]. by intros [= <-].
Qed.

(** Uses of X12 to X15 on the steps over [a] with [chunk_size = 2] and
    three keys, and of the two facts about the planner statement, on
    the step with three unprocessed keys and on the step without
    output. *)
Lemma get_full_process_ids_rows_witness :
  ∃ q extra,
    _build_changed_idx_sql Examples.step_a3 (mkDS "sqlite")
      (_apply_filters_to_run_config Examples.step_a3 None) = Ok q ∧
    (Z.of_nat (length q.2) < 2 ^ 53 →
     2 * chunk_size Examples.step_a3 - chunk_size Examples.step_a3
       < Z.of_nat (length q.2) ≤ 2 * chunk_size Examples.step_a3) ∧
    Forall (λ b, Z.of_nat (length (rows b)) ≤ chunk_size Examples.step_a3)
           Examples.batches_a3 ∧
    concat (rows <$> Examples.batches_a3) = with_columns extra <$> q.2 ∧
    ∀ k v, (k, v) ∈ extra ↔
           (k ∉ q.1) ∧
           (_apply_filters_to_run_config Examples.step_a3 None
              ≫= λ rc, rc_filters rc !! k) = Some v.
Proof.
  apply (get_full_process_ids_rows Examples.step_a3 (mkDS "sqlite") None 2
           Examples.batches_a3).
  - split; reflexivity.
  - discriminate.
  - vm_compute. reflexivity.
Defined.


Lemma get_change_list_process_ids_reads_witness :
  get_change_list_process_ids Examples.step_a (mkDS "sqlite")
    Examples.three_changes None
  = get_change_list_process_ids Examples.step_a3 (mkDS "psycopg2")
      Examples.three_changes (Some (mkRC {[ "id" := 1 ]})).
Proof.
  apply (get_change_list_process_ids_reads Examples.step_a Examples.step_a3).
  - reflexivity.
  - reflexivity.
  - reflexivity.
  - intros inp _. reflexivity.
Defined.

Lemma get_change_list_process_ids_missing_column_witness :
  get_change_list_process_ids Examples.step_a (mkDS "sqlite")
    Examples.named_changes None = Raise KeyError.
Proof.
  apply (get_change_list_process_ids_missing_column Examples.step_a (mkDS "sqlite")
           Examples.named_changes None Examples.tbl_a
           (mkIdx ["name"] [ ({[ "name" := 1 ]} : KeyRow) ]) "id").
  - apply list_elem_of_here.
  - vm_compute. reflexivity.
  - apply list_elem_of_here.
  - intros H. apply list_elem_of_singleton in H. discriminate.
Defined.

Lemma planner_single_input_witness :
  ∃ selected,
    _build_changed_idx_sql Examples.step_a3 (mkDS "sqlite") None
      = Ok (transform_keys Examples.step_a3, selected) ∧
    ∀ k, k ∈ selected ↔
         candidate Examples.step_a3
           (mkDT "a" (mkMT [Examples.id_col]
                        [Examples.meta_at 1 5; Examples.meta_at 2 5;
                         Examples.meta_at 3 5])) k ∧
         stale Examples.step_a3 k.
Proof.
  apply (PlannerFacts.planner_single_input Examples.step_a3 _ (mkDS "sqlite")).
  apply PlannerFacts.single_input_example.
Defined.

Lemma planner_without_outputs_raises_witness :
  _build_changed_idx_sql Examples.step_no_output (mkDS "sqlite") None
  = Raise TypeError.
Proof.
  apply (PlannerFacts.planner_without_outputs_raises Examples.step_no_output).
  - discriminate.
  - reflexivity.
Defined.

End BatchingFacts.

(** ** What the executor and the drivers leave alone ([compute.py]) *)

Module ExecutorFacts.

Import Compute Statements.

Local Open Scope Z_scope.

Lemma same_but_refl (outs : list string) (ds : DataStore) : same_but outs ds ds.
Proof. by split. Qed.

Lemma same_but_trans (outs : list string) (ds1 ds2 ds3 : DataStore) :
  same_but outs ds1 ds2 → same_but outs ds2 ds3 → same_but outs ds1 ds3.
Proof.
  intros [H1 H2] [H3 H4]. split; [congruence|].
  intros n Hn. rewrite H4, H2; done.
Qed.

Lemma same_but_mono (outs outs' : list string) (ds ds' : DataStore) :
  (∀ n, n ∈ outs → n ∈ outs') → same_but outs ds ds' → same_but outs' ds ds'.
Proof. intros Hsub [H1 H2]. split; [done|]. intros n Hn. apply H2. auto. Qed.

Lemma same_but_set_table (outs : list string) (ds : DataStore) (n : string)
    (dt : DataTable) :
  n ∈ outs → same_but outs ds (set_table ds n dt).
Proof.
  intros Hn. split; [done|]. intros m Hm. cbn.
  rewrite lookup_insert_ne; [done|]. by intros ->.
Qed.

Lemma same_but_log_exception (outs : list string) (ds : DataStore) (e : exn)
    (idx : IndexDF) :
  same_but outs ds (log_exception ds e idx).
Proof. by split. Qed.

Lemma ChangeList_append_keys (cl : ChangeList) (n m : string) (idx : IndexDF) :
  is_Some (changes (ChangeList_append cl n idx) !! m)
  ↔ m = n ∨ is_Some (changes cl !! m).
Proof.
  unfold ChangeList_append.
  destruct (changes cl !! n) as [old|] eqn:E; cbn;
    (destruct (decide (m = n)) as [->|Hne];
     [rewrite lookup_insert_eq|rewrite lookup_insert_ne by done]).
  - split; eauto.
  - split; [auto|]. by intros [?|?].
  - split; eauto.
  - split; [auto|]. by intros [?|?].
Qed.

Section BatchFrame.

Variable get_data : DataTable → IndexDF → result DataDF.
Variable store_chunk :
  DataTable → DataDF → IndexDF → option RunConfig → DataTable * result IndexDF.

Lemma store_output_batch_frame (outs : list (string * DataDF)) (ds : DataStore)
    (idx : IndexDF) (run_config : option RunConfig) (changes0 : ChangeList) :
  same_but outs.*1 ds
    (store_output_batch store_chunk ds outs idx run_config changes0).1 ∧
  ∀ cl, (store_output_batch store_chunk ds outs idx run_config changes0).2 = Ok cl →
        ∀ n, is_Some (changes cl !! n) → n ∈ outs.*1 ∨ is_Some (changes changes0 !! n).
Proof.
  revert ds changes0. induction outs as [|[n df] outs IH]; intros ds changes0; cbn.
  - split; [apply same_but_refl|]. intros cl [= <-] n Hn. by right.
  - destruct (store_chunk (get_table ds n) df idx run_config) as [dt [change_idx|e]].
    + destruct (IH (set_table ds n dt) (ChangeList_append changes0 n change_idx))
        as [IH1 IH2].
      split.
      * eapply same_but_trans.
        -- apply (same_but_set_table _ ds n dt), list_elem_of_here.
        -- eapply same_but_mono; [|exact IH1]. intros m Hm. by apply list_elem_of_further.
      * intros cl Hcl m Hm. destruct (IH2 cl Hcl m Hm) as [Hin|Hs].
        -- left. by apply list_elem_of_further.
        -- apply ChangeList_append_keys in Hs as [->|Hs]; [left; apply list_elem_of_here|by right].
    + cbn. split; [apply same_but_set_table, list_elem_of_here|]. done.
Qed.

Lemma delete_missing_frame (outs : list string) (ds : DataStore) (idx : IndexDF)
    (now : Z) (changes0 : ChangeList) :
  same_but outs ds (delete_missing ds outs idx now changes0).1 ∧
  ∀ n, is_Some (changes (delete_missing ds outs idx now changes0).2 !! n)
       → n ∈ outs ∨ is_Some (changes changes0 !! n).
Proof.
  unfold delete_missing.
  revert ds changes0. induction outs as [|n outs IH]; intros ds changes0; cbn [foldl].
  - split; [apply same_but_refl|]. intros n Hn. by right.
  - cbn [fst snd].
    set (ds1 := set_table ds n _). set (cl1 := ChangeList_append changes0 n _).
    destruct (IH ds1 cl1) as [IH1 IH2]. split.
    + eapply same_but_trans.
      * apply (same_but_set_table _ ds n), list_elem_of_here.
      * eapply same_but_mono; [|exact IH1]. intros m Hm. by apply list_elem_of_further.
    + intros m Hm. destruct (IH2 m Hm) as [Hin|Hs].
      * left. by apply list_elem_of_further.
      * apply ChangeList_append_keys in Hs as [->|Hs]; [left; apply list_elem_of_here|by right].
Qed.

Lemma zip_fst_subset {A B : Type} (l : list A) (k : list B) (x : A) :
  x ∈ (zip l k).*1 → x ∈ l.
Proof.
  revert k. induction l as [|a l IH]; intros [|b k] Hx; cbn in Hx;
    try (by apply elem_of_nil in Hx).
  apply elem_of_cons in Hx as [->|Hx]; [apply list_elem_of_here|].
  apply list_elem_of_further. by apply (IH k).
Qed.

(** What one batch does to the store and what it yields. *)
Lemma process_batch_effect (self : ComputeStep) (ds : DataStore) (idx : IndexDF)
    (run_config : option RunConfig) (now : Z) :
  same_but (output_dts self) ds
    (process_batch get_data store_chunk self ds idx run_config now).1 ∧
  ∀ yielded,
    (process_batch get_data store_chunk self ds idx run_config now).2 = Ok yielded →
    yielded = [] ∨
    ∃ cl, yielded = [cl] ∧ ∀ n, is_Some (changes cl !! n) → n ∈ output_dts self.
Proof.
  unfold process_batch.
  destruct (get_batch_input_dfs get_data self ds idx run_config) as [input_dfs|e].
  2:{ split; [apply same_but_log_exception|]. intros y [= <-]. by left. }
  case_decide.
  - destruct (process_batch_dfs self ds idx input_dfs run_config) as [res|e].
    2:{ split; [apply same_but_log_exception|]. intros y [= <-]. by left. }
    set (checked := match res with
                    | OneFrame df => _
                    | Frames dfs => _
                    end).
    destruct checked as [chunks_df|e]; [|split; [apply same_but_refl|done]].
    destruct (store_output_batch_frame (zip (output_dts self) chunks_df) ds idx
                run_config ChangeList_new) as [Hf Hc].
    destruct (store_output_batch store_chunk ds (zip (output_dts self) chunks_df)
                idx run_config ChangeList_new) as [ds1 [changes1|e]].
    + cbn in *. split.
      * eapply same_but_mono; [|exact Hf]. apply zip_fst_subset.
      * intros y [= <-]. right. exists changes1. split; [done|].
        intros n Hn. destruct (Hc _ eq_refl n Hn) as [Hin|Hs].
        -- by apply zip_fst_subset in Hin.
        -- cbn in Hs. rewrite lookup_empty in Hs. by destruct Hs.
    + cbn in *. split.
      * eapply same_but_trans; [|apply same_but_log_exception].
        eapply same_but_mono; [|exact Hf]. apply zip_fst_subset.
      * intros y [= <-]. by left.
  - destruct (delete_missing_frame (output_dts self) ds idx now ChangeList_new)
      as [Hf Hc].
    destruct (delete_missing ds (output_dts self) idx now ChangeList_new)
      as [ds1 changes1].
    cbn in *. split; [done|]. intros y [= <-]. right. exists changes1.
    split; [done|]. intros n Hn. destruct (Hc n Hn) as [?|Hs]; [done|].
    rewrite lookup_empty in Hs. by destruct Hs.
Qed.

(** X18.  [process_batch], on every path: it leaves the transform meta
    as it is, it leaves every table that is no output of the step as it
    is, and it yields nothing or one change list, whose entries are
    named after outputs of the step. *)
Theorem process_batch_frame (self : ComputeStep) (ds : DataStore) (idx : IndexDF)
    (run_config : option RunConfig) (now : Z) :
  transform_meta (process_batch get_data store_chunk self ds idx run_config now).1
    = transform_meta ds ∧
  (∀ n, n ∉ output_dts self →
        tables (process_batch get_data store_chunk self ds idx run_config now).1 !! n
        = tables ds !! n) ∧
  ∀ yielded,
    (process_batch get_data store_chunk self ds idx run_config now).2 = Ok yielded →
    yielded = [] ∨
    ∃ cl, yielded = [cl] ∧ ∀ n, is_Some (changes cl !! n) → n ∈ output_dts self.
Proof.
  destruct (process_batch_effect self ds idx run_config now) as [[? ?] ?]. done.
Qed.

End BatchFrame.

Section DriverFrame.

Variable get_data : DataTable → IndexDF → result DataDF.
Variable store_chunk :
  DataTable → DataDF → IndexDF → option RunConfig → DataTable * result IndexDF.
Variable add_labels : option RunConfig → string → option RunConfig.
Variable shake_128_hexdigest5 : string → string.

Lemma process_batch_same_but (self : ComputeStep) (ds : DataStore) (idx : IndexDF)
    (run_config : option RunConfig) (now : Z) :
  same_but (output_dts self) ds
    (process_batch get_data store_chunk self ds idx run_config now).1.
Proof. apply (process_batch_effect get_data store_chunk). Qed.

Lemma process_batches_frame (self : ComputeStep) (batches : list IndexDF)
    (ds : DataStore) (run_config : option RunConfig) (now : Z) (res : ChangeList) :
  same_but (output_dts self) ds
    (process_batches get_data store_chunk self ds batches run_config now res).1.
Proof.
  revert ds res. induction batches as [|idx batches IH]; intros ds res; cbn.
  - apply same_but_refl.
  - pose proof (process_batch_same_but self ds idx run_config now) as Hb.
    destruct (process_batch get_data store_chunk self ds idx run_config now)
      as [ds1 [yielded|e]]; cbn in Hb; [|done].
    eapply same_but_trans; [exact Hb|apply IH].
Qed.

Lemma run_changelist_frame (self : ComputeStep) (ds : DataStore)
    (change_list : ChangeList) (run_config : option RunConfig) (now : Z) :
  same_but (output_dts self) ds
    (run_changelist get_data store_chunk add_labels shake_128_hexdigest5
       self ds change_list run_config now).1.
Proof.
  unfold run_changelist.
  destruct (get_change_list_process_ids self ds change_list _)
    as [[idx_count [batches|e]]|e]; try apply same_but_refl.
  - case_decide; [apply same_but_refl|apply process_batches_frame].
  - case_decide; apply same_but_refl.
Qed.

Lemma run_steps_once_frame (steps : list ComputeStep) (ds : DataStore)
    (current : ChangeList) (run_config : option RunConfig) (now : Z)
    (next : ChangeList) :
  same_but (concat (output_dts <$> steps)) ds
    (run_steps_once get_data store_chunk add_labels shake_128_hexdigest5
       ds steps current run_config now next).1.
Proof.
  revert ds next. induction steps as [|step steps IH]; intros ds next; cbn.
  - apply same_but_refl.
  - pose proof (run_changelist_frame step ds current run_config now) as Hs.
    destruct (run_changelist _ _ _ _ step ds current run_config now)
      as [ds1 [step_changes|e]]; cbn in Hs.
    + eapply same_but_trans.
      * eapply same_but_mono; [|exact Hs]. intros n Hn. apply elem_of_app. by left.
      * eapply same_but_mono; [|apply IH]. intros n Hn. apply elem_of_app. by right.
    + eapply same_but_mono; [|exact Hs]. intros n Hn. apply elem_of_app. by left.
Qed.

Lemma while_changes_frame (fuel : nat) (steps : list ComputeStep)
    (run_config : option RunConfig) (now : Z) (ds : DataStore)
    (current : ChangeList) (iteration : Z) (started : list ChangeList)
    (r : LoopEnd) :
  while_changes get_data store_chunk add_labels shake_128_hexdigest5
    fuel ds steps run_config now current iteration started = Some r →
  same_but (concat (output_dts <$> steps)) ds (end_ds r).
Proof.
  revert ds current iteration started.
  induction fuel as [|fuel IH]; intros ds current iteration started; cbn.
  - case_match; [done|]. intros [= <-]. apply same_but_refl.
  - case_match; [|intros [= <-]; apply same_but_refl].
    pose proof (run_steps_once_frame steps ds current run_config now ChangeList_new)
      as Hs.
    destruct (run_steps_once _ _ _ _ ds steps current run_config now ChangeList_new)
      as [ds1 [next|e]]; cbn in Hs.
    + intros Hr. eapply same_but_trans; [exact Hs|]. by eapply IH.
    + by intros [= <-].
Qed.

(** X19.  [run_steps_changelist] ends, and when it has ended the
    transform meta is what it was, and so is every table that is an
    output of none of the steps. *)
Theorem run_steps_changelist_frame (ds : DataStore) (steps : list ComputeStep)
    (changelist : ChangeList) (run_config : option RunConfig) (now : Z) :
  ∃ r, run_steps_changelist get_data store_chunk add_labels shake_128_hexdigest5
         ds steps changelist run_config now = Some r ∧
       transform_meta (end_ds r) = transform_meta ds ∧
       ∀ n, (∀ step, step ∈ steps → n ∉ output_dts step) →
            tables (end_ds r) !! n = tables ds !! n.
Proof.
  destruct (ComputeFacts.while_changes_spec get_data store_chunk add_labels
              shake_128_hexdigest5 100 steps run_config now ds changelist 0 [])
    as (r & Hr & _); [lia|lia|done|constructor|].
  exists r. split; [done|].
  apply while_changes_frame in Hr as [Ht Hn]. split; [done|].
  intros n Hno. apply Hn. rewrite PlannerFacts.elem_of_concat.
  intros (l & Hl & Hin). apply list_elem_of_fmap in Hl as (step & -> & Hstep).
  by apply (Hno step).
Qed.

Lemma run_batches_frame (self : ComputeStep) (batches : list IndexDF)
    (ds : DataStore) (run_config : option RunConfig) (now : Z) :
  same_but (output_dts self) ds
    (run_batches get_data store_chunk self ds batches run_config now).1.
Proof.
  revert ds. induction batches as [|idx batches IH]; intros ds; cbn.
  - apply same_but_refl.
  - pose proof (process_batch_same_but self ds idx run_config now) as Hb.
    destruct (process_batch get_data store_chunk self ds idx run_config now)
      as [ds1 [yielded|e]]; cbn in Hb; [|done].
    eapply same_but_trans; [exact Hb|apply IH].
Qed.

Lemma run_full_frame
    (get_full_process_ids :
       ComputeStep → DataStore → option RunConfig → result (Z * result (list IndexDF)))
    (self : ComputeStep) (ds : DataStore) (run_config : option RunConfig) (now : Z) :
  same_but (output_dts self) ds
    (run_full get_data store_chunk add_labels shake_128_hexdigest5
       get_full_process_ids self ds run_config now).1.
Proof.
  unfold run_full.
  destruct (get_full_process_ids self ds _) as [[idx_count [batches|e]]|e];
    try apply same_but_refl.
  - case_decide; [apply same_but_refl|apply run_batches_frame].
  - case_decide; apply same_but_refl.
Qed.

Lemma same_but_log_exception_run (outs : list string) (ds : DataStore) (e : exn) :
  same_but outs ds (log_exception_run ds e).
Proof. by split. Qed.

Lemma run_steps_same_but
    (get_full_process_ids :
       ComputeStep → DataStore → option RunConfig → result (Z * result (list IndexDF)))
    (steps : list StepObject) (ds : DataStore) (run_config : option RunConfig)
    (now : Z) :
  (∀ self, Overrides self ∈ steps →
     ∀ ds0 rc, same_but (output_dts (base self)) ds0
                 (func self ds0 (input_dts (base self)) (output_dts (base self)) rc).1) →
  same_but (concat ((λ step, output_dts (step_base step)) <$> steps)) ds
    (run_steps get_data store_chunk add_labels shake_128_hexdigest5
       get_full_process_ids ds steps run_config now).1.
Proof.
  revert ds. induction steps as [|step steps IH]; intros ds Hfunc; cbn [run_steps].
  - apply same_but_refl.
  - assert (Hs : same_but (output_dts (step_base step)) ds
              (step_run_full get_data store_chunk add_labels shake_128_hexdigest5
                 get_full_process_ids step ds run_config now).1).
    { destruct step as [self|self]; cbn [step_run_full step_base].
      - apply run_full_frame.
      - unfold DatatableTransformStep_run_full.
        pose proof (Hfunc self (list_elem_of_here _ _) ds
                      (add_labels run_config
                         (get_name shake_128_hexdigest5 (base self)))) as Hf.
        destruct (func self ds _ _ _) as [ds1 [u|e]]; cbn in *; [done|].
        eapply same_but_trans; [exact Hf|apply same_but_log_exception_run]. }
    destruct (step_run_full _ _ _ _ get_full_process_ids step ds run_config now)
      as [ds1 [u|e]]; cbn in Hs.
    + eapply same_but_trans.
      * eapply same_but_mono; [|exact Hs]. intros n Hn. cbn. apply elem_of_app. by left.
      * eapply same_but_mono; [|apply IH].
        -- intros n Hn. cbn. apply elem_of_app. by right.
        -- intros self Hin. apply Hfunc. by apply list_elem_of_further.
    + eapply same_but_mono; [|exact Hs]. intros n Hn. cbn. apply elem_of_app. by left.
Qed.

(** X20.  [run_steps] calls the [run_full] of the class of each step in
    turn.  A step that inherits [ComputeStep.run_full] writes its own
    outputs only; a [DatatableTransformStep] hands the store to the
    function of the user, logs what the function raises and returns.
    So, when the function of every [DatatableTransformStep] among the
    steps leaves alone the transform meta and the tables that are no
    output of its step: after [run_steps], whether it returned or a step
    raised, the transform meta is what it was, and so is every table
    that is an output of none of the steps; and over steps that all are
    [DatatableTransformStep]s, [run_steps] returns. *)
Theorem run_steps_frame
    (get_full_process_ids :
       ComputeStep → DataStore → option RunConfig → result (Z * result (list IndexDF)))
    (steps : list StepObject) (ds : DataStore) (run_config : option RunConfig)
    (now : Z) :
  (∀ self, Overrides self ∈ steps →
     ∀ ds0 rc, same_but (output_dts (base self)) ds0
                 (func self ds0 (input_dts (base self)) (output_dts (base self)) rc).1) →
  transform_meta
    (run_steps get_data store_chunk add_labels shake_128_hexdigest5
       get_full_process_ids ds steps run_config now).1 = transform_meta ds ∧
  (∀ n, (∀ step, step ∈ steps → n ∉ output_dts (step_base step)) →
        tables (run_steps get_data store_chunk add_labels shake_128_hexdigest5
                  get_full_process_ids ds steps run_config now).1 !! n
        = tables ds !! n) ∧
  ((∀ step, step ∈ steps → ∃ self, step = Overrides self) →
   (run_steps get_data store_chunk add_labels shake_128_hexdigest5
      get_full_process_ids ds steps run_config now).2 = Ok tt).
Proof.
  intros Hfunc.
  destruct (run_steps_same_but get_full_process_ids steps ds run_config now Hfunc)
    as [Ht Hn].
  split; [done|]. split.
  - intros n Hno. apply Hn. rewrite PlannerFacts.elem_of_concat.
    intros (l & Hl & Hin). apply list_elem_of_fmap in Hl as (step & -> & Hstep).
    by apply (Hno step).
  - clear. revert ds. induction steps as [|step steps IH]; intros ds Hall; [done|].
    cbn [run_steps].
    destruct (Hall step (list_elem_of_here _ _)) as [self ->].
    cbn [step_run_full]. unfold DatatableTransformStep_run_full.
    destruct (func self ds _ _ _) as [ds1 [u|e]];
      apply IH; intros st Hst; apply Hall; by apply list_elem_of_further.
Qed.

End DriverFrame.

(** A use of X20: a batch step that has nothing to process, then a
    [DatatableTransformStep] whose function copies [src] over [dst] and
    fails. *)
Lemma run_steps_frame_witness :
  transform_meta
    (run_steps Examples.read_live Examples.write_rows Examples.keep_run_config
       Examples.fixed_digest (λ _ _ _, Ok (0, Ok [])) Examples.ds_gone
       [Inherits Examples.upper_step; Overrides Examples.copy_step] None 9).1
    = transform_meta Examples.ds_gone ∧
  (∀ n, (∀ step, step ∈ [Inherits Examples.upper_step; Overrides Examples.copy_step] →
                 n ∉ output_dts (step_base step)) →
        tables
          (run_steps Examples.read_live Examples.write_rows Examples.keep_run_config
             Examples.fixed_digest (λ _ _ _, Ok (0, Ok [])) Examples.ds_gone
             [Inherits Examples.upper_step; Overrides Examples.copy_step] None 9).1
          !! n
        = tables Examples.ds_gone !! n) ∧
  ((∀ step, step ∈ [Inherits Examples.upper_step; Overrides Examples.copy_step] →
            ∃ self, step = Overrides self) →
   (run_steps Examples.read_live Examples.write_rows Examples.keep_run_config
      Examples.fixed_digest (λ _ _ _, Ok (0, Ok [])) Examples.ds_gone
      [Inherits Examples.upper_step; Overrides Examples.copy_step] None 9).2
   = Ok tt).
Proof.
  apply (run_steps_frame Examples.read_live Examples.write_rows
           Examples.keep_run_config Examples.fixed_digest (λ _ _ _, Ok (0, Ok []))
           [Inherits Examples.upper_step; Overrides Examples.copy_step]
           Examples.ds_gone None 9).
  intros self Hin ds0 rc.
  apply elem_of_cons in Hin as [Hin|Hin]; [discriminate|].
  apply list_elem_of_singleton in Hin. injection Hin as ->.
  apply same_but_set_table, list_elem_of_here.
Defined.

(** What that run leaves: [dst] holds the rows of [src], and the
    exception of the function is in the log, not raised. *)
Lemma run_steps_example :
  (λ r, (get_table r.1 "dst", logged_exceptions r.1, r.2))
    (run_steps Examples.read_live Examples.write_rows Examples.keep_run_config
       Examples.fixed_digest (λ _ _ _, Ok (0, Ok [])) Examples.ds_gone
       [Inherits Examples.upper_step; Overrides Examples.copy_step] None 9)
  = (mkDT ∅ ∅, [(ValueError, None)], Ok tt).
Proof. vm_compute. reflexivity. Qed.

End ExecutorFacts.

(** ** Names, files and round trips of [TableStoreFiledir] ([filedir.py]) *)

Module FiledirStoreFacts.

Import Filedir.

Local Open Scope string_scope.

Lemma pattern_to_attrnames_spec (pat : string) (attrs : list string) :
  _pattern_to_attrnames pat = Ok attrs →
  attrs = attrs_of (tokenize pat) ∧ attrs ≠ [] ∧ NoDup attrs.
Proof.
  unfold _pattern_to_attrnames. intros H.
  apply bind_Ok in H as ([] & Hpos & H). apply assert_Ok in Hpos.
  apply bind_Ok in H as ([] & Hdup & [= <-]).
  split; [done|]. split; [intros E; rewrite E in Hpos; cbn in Hpos; lia|].
  case_decide as Hlen.
  - by apply assert_Ok in Hdup.
  - destruct (attrs_of (tokenize pat)) as [|a [|b l]]; cbn in Hlen; try lia.
    + constructor.
    + apply NoDup_singleton.
Qed.

Section Init.

Variable resolve : string → string.

(** X21.  What [TableStoreFiledir.__init__] establishes when it returns:
    the key names are the keys of the pattern, there is one at least
    and none twice; the primary schema names the same keys, with types
    [String] or [Integer]; the glob is the glob of the pattern; the
    store is read-only as the argument says, or, without the argument,
    exactly when the path has a [*]; and a store whose path has a [*] is
    read-only in any case. *)
Theorem init_establishes (filename_pattern : string) (add_filepath_column : bool)
    (primary_schema_arg : option (list (string * string))) (read_data : bool)
    (readonly_arg : option bool) (enable_rm_arg : bool) (st : TableStoreFiledir) :
  TableStoreFiledir_init resolve filename_pattern add_filepath_column
    primary_schema_arg read_data readonly_arg enable_rm_arg = Ok st →
  attrnames st = attrs_of (tokenize (Filedir.filename_pattern st)) ∧
  attrnames st ≠ [] ∧ NoDup (attrnames st) ∧
  (primary_schema st).*1 ≡ₚ attrnames st ∧
  Forall (λ c, c.2 = "String" ∨ c.2 = "Integer") (primary_schema st) ∧
  filename_glob st = _pattern_to_glob (Filedir.filename_pattern st) ∧
  readonly st = default (has_star (split_protocol filename_pattern).2) readonly_arg ∧
  (has_star (split_protocol filename_pattern).2 = true → readonly st = true).
Proof.
  unfold TableStoreFiledir_init.
  destruct (split_protocol filename_pattern) as [protocol path]. cbn [snd].
  intros H.
  apply bind_Ok in H as (ro & Hro & H).
  apply bind_Ok in H as (attrs & Hattrs & H).
  apply bind_Ok in H as (schema & Hschema & [= <-]). cbn.
  apply pattern_to_attrnames_spec in Hattrs as (Ha & Hne & Hnd).
  split; [done|]. split; [done|]. split; [done|].
  assert (Hs : schema.*1 ≡ₚ attrs ∧ Forall (λ c, c.2 = "String" ∨ c.2 = "Integer") schema).
  { destruct primary_schema_arg as [given|].
    - apply bind_Ok in Hschema as ([] & Hsort & Hschema). apply assert_Ok in Hsort.
      apply bind_Ok in Hschema as ([] & Hty & [= <-]). apply assert_Ok in Hty.
      split; [|done].
      rewrite <- (merge_sort_Permutation String.le given.*1), <- Hsort.
      by rewrite merge_sort_Permutation.
    - injection Hschema as <-. split.
      + rewrite <- list_fmap_compose. cbn. by rewrite list_fmap_id.
      + apply Forall_fmap, Forall_forall. intros a _. by left. }
  destruct Hs as [Hperm Hty]. split; [done|]. split; [done|]. split; [done|].
  destruct (has_star path), readonly_arg as [[|]|]; cbn in *; by inversion Hro.
Qed.

End Init.

(** [re.sub] with a [Replacer]: enough values, or [IndexError]. *)
Lemma replace_attrs_spec (ts : list token) (values : list string) :
  ((length (attrs_of ts) ≤ length values)%nat →
   ∃ name, replace_attrs ts values = Ok name) ∧
  ((length values < length (attrs_of ts))%nat →
   replace_attrs ts values = Raise IndexError).
Proof.
  revert values. induction ts as [|[c|a] ts IH]; intros values.
  - split; [cbn; eauto|]. intros H. exfalso. cbn in H. lia.
  - change (attrs_of (Lit c :: ts)) with (attrs_of ts). cbn [replace_attrs].
    destruct (IH values) as [IH1 IH2]. split.
    + intros H. destruct (IH1 H) as [name ->]. cbn. eauto.
    + intros H. by rewrite (IH2 H).
  - change (attrs_of (Attr a :: ts)) with (a :: attrs_of ts). cbn [replace_attrs length].
    destruct values as [|v vs]; [split; [intros H; exfalso; cbn in H; lia|done]|].
    cbn [length]. destruct (IH vs) as [IH1 IH2]. split.
    + intros H. destruct IH1 as [name ->]; [lia|]. cbn. eauto.
    + intros H. rewrite IH2; [done|lia].
Qed.

Lemma replace_attrs_stars (ts : list token) (n : nat) :
  (length (attrs_of ts) ≤ n)%nat →
  replace_attrs ts (replicate n "*")
  = Ok (foldr (λ t acc, match t with
                        | Lit c => String c acc
                        | Attr _ => String "*"%char acc
                        end) "" ts).
Proof.
  revert n. induction ts as [|[c|a] ts IH]; intros n Hn; [done| |].
  - change (attrs_of (Lit c :: ts)) with (attrs_of ts) in Hn. cbn.
    by rewrite (IH n Hn).
  - change (attrs_of (Attr a :: ts)) with (a :: attrs_of ts) in Hn. cbn in Hn.
    destruct n as [|n]; [lia|]. cbn. rewrite (IH n); [done|lia].
Qed.

(** X22.  [_filename_from_idxs_values]: with at least as many values as
    the pattern has keys it returns a name, with fewer it raises
    [IndexError]; and the name for the values [*], ..., [*] is the glob
    that [_pattern_to_glob] makes of the pattern. *)
Theorem filename_from_idxs_values_bounds (self : TableStoreFiledir)
    (idxs_values : list string) :
  ((length (attrs_of (tokenize (filename_pattern self))) ≤ length idxs_values)%nat →
   ∃ name, _filename_from_idxs_values self idxs_values = Ok name) ∧
  ((length idxs_values < length (attrs_of (tokenize (filename_pattern self))))%nat →
   _filename_from_idxs_values self idxs_values = Raise IndexError) ∧
  ∀ n, (length (attrs_of (tokenize (filename_pattern self))) ≤ n)%nat →
       _filename_from_idxs_values self (replicate n "*")
       = Ok (_pattern_to_glob (filename_pattern self)).
Proof.
  unfold _filename_from_idxs_values, _pattern_to_glob.
  destruct (replace_attrs_spec (tokenize (filename_pattern self)) idxs_values).
  split; [done|]. split; [done|]. intros n. apply replace_attrs_stars.
Qed.

Section RoundTrip.

Variable re_match : string → string → option (gmap string string).
Variable attrname_to_cls : string → string → string → result string.
Variable open_files : string → Files → list string.

(** The key cells of a row, as [idxs_values_of] reads them. *)
Lemma idxs_values_of_cells (self : TableStoreFiledir) (row : gmap string string)
    (values : list string) :
  idxs_values_of self row = Ok values →
  (λ a, row !! a) <$> attrnames self = Some <$> values.
Proof.
  unfold idxs_values_of. revert values.
  induction (attrnames self) as [|a l IH]; intros values; cbn.
  - by intros [= <-].
  - intros H. apply bind_Ok in H as (v & Hv & H).
    apply bind_Ok in H as (vs & Hvs & [= <-]).
    destruct (row !! a) as [x|]; [|done]. injection Hv as ->.
    cbn. f_equal. by apply IH.
Qed.


Lemma file_of_row_Ok (self : TableStoreFiledir) (row : gmap string string)
    (p : string) :
  file_of_row self row = Ok p ↔
  ∃ filename, (idxs_values ← idxs_values_of self row;
               _filename_from_idxs_values self idxs_values) = Ok filename ∧
              p = (split_protocol filename).2.
Proof.
  unfold file_of_row. split.
  - intros H. apply bind_Ok in H as (values & Hv & H).
    apply bind_Ok in H as (filename & Hf & [= <-]).
    exists filename. split; [|done]. apply bind_Ok. eauto.
  - intros (filename & H & ->). apply bind_Ok in H as (values & Hv & Hf).
    apply bind_Ok. exists values. split; [done|]. apply bind_Ok. eauto.
Qed.

Lemma elem_of_paths (self : TableStoreFiledir) (rows : list (gmap string string))
    (q : string) :
  q ∈ omap (λ row, match file_of_row self row with
                   | Ok p => Some p
                   | Raise _ => None
                   end) rows
  ↔ ∃ row, row ∈ rows ∧ file_of_row self row = Ok q.
Proof.
  rewrite list_elem_of_omap. split; intros (row & Hrow & H); exists row; split; try done.
  - destruct (file_of_row self row); by inversion H.
  - by rewrite H.
Qed.

(** After a successful [write_rows], the record of every row is in the
    file of its name, the name parses back to the key values of the row,
    and no two rows share a file. *)
Lemma write_rows_stored (self : TableStoreFiledir)
    (pairs : list (gmap string string * gmap string string)) (fs fs' : Files) :
  write_rows re_match attrname_to_cls self fs pairs = (fs', Ok tt) →
  NoDup ((λ row, (λ a, row !! a) <$> attrnames self) <$> pairs.*1) →
  (∀ row p, row ∈ pairs.*1 → file_of_row self row = Ok p → (split_protocol p).2 = p) →
  (∀ row data, (row, data) ∈ pairs →
     ∃ p values, file_of_row self row = Ok p ∧
                 idxs_values_of self row = Ok values ∧
                 _idxs_values_from_filepath re_match attrname_to_cls self p = Ok values ∧
                 fs' !! p = Some data) ∧
  (∀ q, (∀ row, row ∈ pairs.*1 → file_of_row self row ≠ Ok q) → fs' !! q = fs !! q) ∧
  NoDup (omap (λ row, match file_of_row self row with
                      | Ok p => Some p
                      | Raise _ => None
                      end) pairs.*1).
Proof.
  revert fs. induction pairs as [|[row data] pairs IH]; intros fs Hw Hnd Hst.
  - cbn in Hw. injection Hw as <-. split; [|split; [done|constructor]].
    intros row data Hrow. by apply elem_of_nil in Hrow.
  - cbn [write_rows] in Hw. cbv zeta in Hw.
    destruct (idxs_values_of self row ≫= _) as [filepath|e] eqn:Hstep; [|done].
    apply bind_Ok in Hstep as (values & Hv & Hstep).
    apply bind_Ok in Hstep as (filename & Hf & Hstep).
    apply bind_Ok in Hstep as ([] & Ha & [= <-]).
    set (p := (split_protocol filename).2) in *.
    assert (Hfile : file_of_row self row = Ok p).
    { unfold file_of_row. apply bind_Ok. exists values. split; [done|].
      apply bind_Ok. by exists filename. }
    assert (Hp : (split_protocol p).2 = p).
    { apply (Hst row); [apply list_elem_of_here|done]. }
    assert (Hparse : _idxs_values_from_filepath re_match attrname_to_cls self p
                     = Ok values).
    { unfold _assert_key_values in Ha.
      apply bind_Ok in Ha as (parsed & Hparsed & Hass).
      apply assert_Ok in Hass as [_ ->].
      unfold _idxs_values_from_filepath in *. by rewrite Hp. }
    cbn [fmap list_fmap fst] in Hnd. apply NoDup_cons in Hnd as [Hfresh Hnd].
    destruct (IH _ Hw Hnd) as (IHa & IHb & IHc).
    { intros row' p' Hrow'. apply Hst. by apply list_elem_of_further. }
    assert (Hother : ∀ row', row' ∈ pairs.*1 → file_of_row self row' ≠ Ok p).
    { intros row' Hrow' Hp'.
      apply list_elem_of_fmap in Hrow' as ([row'' data'] & -> & Hin). cbn in Hp'.
      destruct (IHa row'' data' Hin) as (p' & values' & Hfile' & Hv' & Hparse' & _).
      rewrite Hp' in Hfile'. injection Hfile' as <-.
      rewrite Hparse in Hparse'. injection Hparse' as <-.
      apply Hfresh. apply list_elem_of_fmap. exists row''. split.
      - apply idxs_values_of_cells in Hv, Hv'. by rewrite Hv, Hv'.
      - apply list_elem_of_fmap. by exists (row'', data'). }
    split; [|split].
    + intros row' data' Hrow'. apply elem_of_cons in Hrow' as [[= -> ->]|Hrow'].
      * exists p, values. split; [done|]. split; [done|]. split; [done|].
        rewrite (IHb p Hother). apply lookup_insert_eq.
      * by apply IHa.
    + intros q Hq. rewrite IHb.
      * rewrite lookup_insert_ne; [done|]. intros <-.
        by apply (Hq row); [apply list_elem_of_here|].
      * intros row' Hrow'. apply Hq. by apply list_elem_of_further.
    + cbn [fmap list_fmap fst omap list_omap]. rewrite Hfile.
      apply NoDup_cons. split; [|done].
      intros Hin. apply elem_of_paths in Hin as (row' & Hrow' & Hq).
      by apply (Hother row').
Qed.

Lemma zip_fmap_self {A B : Type} (f : A → B) (l : list A) :
  zip l (f <$> l) = (λ x, (x, f x)) <$> l.
Proof. induction l as [|x l IH]; cbn; [done|]. by rewrite <- IH. Qed.

Lemma fst_fmap_pair {A B : Type} (f : A → B) (l : list A) :
  ((λ x, (x, f x)) <$> l).*1 = l.
Proof. induction l as [|x l IH]; cbn; [done|]. by rewrite IH. Qed.

(** What [insert_rows] writes when it returns on a frame that is not
    empty: with a column that is no key, the record of every row; with
    key columns only, nothing. *)
Lemma insert_rows_written (self : TableStoreFiledir) (fs fs' : Files) (df : DataDF) :
  insert_rows re_match attrname_to_cls self fs df = (fs', Ok tt) →
  df_empty df = false →
  ((∃ c, c ∈ df_columns df ∧ c ∉ attrnames self) →
   write_rows re_match attrname_to_cls self fs
     ((λ row, (row, filter (λ kv, kv.1 ∉ attrnames self) row)) <$> df_rows df)
   = (fs', Ok tt)) ∧
  ((∀ c, c ∈ df_columns df → c ∈ attrnames self) → fs' = fs).
Proof.
  intros Hins Hne. unfold insert_rows in Hins. rewrite Hne in Hins.
  destruct (readonly self); [done|].
  unfold data_records in Hins.
  destruct (decide (Forall (λ a, a ∈ df_columns df) (attrnames self))); [|done].
  split.
  - intros (c & Hc & Hkey).
    rewrite decide_False in Hins.
    + by rewrite zip_fmap_self in Hins.
    + intros Hnil.
      assert (Hin : c ∈ filter (λ c, c ∉ attrnames self) (df_columns df))
        by (by apply list_elem_of_filter).
      rewrite Hnil in Hin. by apply elem_of_nil in Hin.
  - intros Hkeys.
    rewrite decide_True in Hins.
    + destruct (df_rows df); cbn in Hins; by injection Hins.
    + apply ComputeFacts.filter_none. intros c Hc Hno. by apply Hno, Hkeys.
Qed.


Lemma remove_rows_spec (self : TableStoreFiledir) (rows : list (gmap string string))
    (fs : Files) :
  (∀ row, row ∈ rows → ∃ p, file_of_row self row = Ok p ∧ is_Some (fs !! p)) →
  NoDup (omap (λ row, match file_of_row self row with
                      | Ok p => Some p
                      | Raise _ => None
                      end) rows) →
  ∃ fs', remove_rows self fs rows = (fs', Ok tt) ∧
         ∀ q, ((∃ row, row ∈ rows ∧ file_of_row self row = Ok q) → fs' !! q = None) ∧
              ((∀ row, row ∈ rows → file_of_row self row ≠ Ok q) → fs' !! q = fs !! q).
Proof.
  revert fs. induction rows as [|row rows IH]; intros fs Hall Hnd.
  - exists fs. split; [done|]. intros q. split; [|done].
    intros (row & Hrow & _). by apply elem_of_nil in Hrow.
  - destruct (Hall row) as (p & Hp & [content Hc]); [apply list_elem_of_here|].
    cbn [omap list_omap] in Hnd. rewrite Hp in Hnd.
    apply NoDup_cons in Hnd as [Hfresh Hnd].
    pose proof Hp as Hp'. apply file_of_row_Ok in Hp' as (filename & Hf & Hpf).
    cbn [remove_rows]. rewrite Hf. cbv zeta. rewrite <- Hpf, Hc.
    destruct (IH (delete p fs)) as (fs' & -> & Hfs'); [|done|].
    { intros row' Hrow'.
      destruct (Hall row') as (p' & Hp'' & Hs); [by apply list_elem_of_further|].
      exists p'. split; [done|]. rewrite lookup_delete_ne; [done|].
      intros <-. apply Hfresh, elem_of_paths. eauto. }
    exists fs'. split; [done|]. intros q. destruct (Hfs' q) as [Hgone Hkept]. split.
    + intros (row' & Hrow' & Hq).
      destruct (decide (q ∈ omap (λ row, match file_of_row self row with
                                         | Ok p => Some p
                                         | Raise _ => None
                                         end) rows)) as [Hin|Hout].
      * apply Hgone. by apply elem_of_paths.
      * rewrite Hkept.
        -- apply elem_of_cons in Hrow' as [->|Hrow'].
           ++ rewrite Hp in Hq. injection Hq as <-. apply lookup_delete_eq.
           ++ exfalso. apply Hout, elem_of_paths. eauto.
        -- intros r Hr Hq'. apply Hout, elem_of_paths. eauto.
    + intros Hno. rewrite Hkept.
      * apply lookup_delete_ne. intros <-.
        by apply (Hno row); [apply list_elem_of_here|].
      * intros row' Hrow'. apply Hno. by apply list_elem_of_further.
Qed.

(** X24.  Insert, then delete: after [insert_rows] has returned on a
    frame that is not empty, has a column that is no key and whose rows
    have pairwise different key values, [delete_rows] with [enable_rm]
    on the same frame returns, the files of the rows are gone and every
    other file is what it was before the insert. *)
Theorem insert_rows_delete_rows (self : TableStoreFiledir) (fs fs' : Files)
    (df : DataDF) :
  insert_rows re_match attrname_to_cls self fs df = (fs', Ok tt) →
  df_empty df = false → enable_rm self = true →
  (∃ c, c ∈ df_columns df ∧ c ∉ attrnames self) →
  NoDup ((λ row, (λ a, row !! a) <$> attrnames self) <$> df_rows df) →
  (∀ row p, row ∈ df_rows df → file_of_row self row = Ok p → (split_protocol p).2 = p) →
  ∃ fs'', delete_rows self fs' df = (fs'', Ok tt) ∧
          ∀ q, ((∃ row, row ∈ df_rows df ∧ file_of_row self row = Ok q) →
                fs'' !! q = None) ∧
               ((∀ row, row ∈ df_rows df → file_of_row self row ≠ Ok q) →
                fs'' !! q = fs !! q).
Proof.
  intros Hins Hne Hrm Hcol Hnd Hst.
  destruct (insert_rows_written self fs fs' df Hins Hne) as [Hdata _].
  specialize (Hdata Hcol).
  unfold insert_rows in Hins. rewrite Hne in Hins.
  unfold delete_rows. rewrite Hrm. cbn [negb].
  destruct (readonly self); [done|].
  destruct (write_rows_stored self _ fs fs' Hdata) as (Hrows & Hkept & Hpaths).
  { by rewrite fst_fmap_pair. }
  { rewrite fst_fmap_pair. exact Hst. }
  rewrite fst_fmap_pair in Hkept, Hpaths.
  destruct (remove_rows_spec self (df_rows df) fs') as (fs'' & -> & Hfs''); [|done|].
  { intros row Hrow.
    destruct (Hrows row (filter (λ kv, kv.1 ∉ attrnames self) row))
      as (p & _ & Hp & _ & _ & Hfs).
    - apply list_elem_of_fmap. by exists row.
    - exists p. split; [done|]. by rewrite Hfs. }
  exists fs''. split; [done|]. intros q. destruct (Hfs'' q) as [Hgone Hsame].
  split; [done|]. intros Hno. rewrite Hsame by done. by apply Hkept.
Qed.

End RoundTrip.

(** Uses of X21, X23 and X24 on the store with the pattern
    [/data/{id}.json] and the frame with the ids 7 and 8, the files being
    none at first. *)
Lemma init_establishes_witness :
  attrnames Examples.plain_store
    = attrs_of (tokenize (filename_pattern Examples.plain_store)) ∧
  attrnames Examples.plain_store ≠ [] ∧ NoDup (attrnames Examples.plain_store) ∧
  (primary_schema Examples.plain_store).*1 ≡ₚ attrnames Examples.plain_store ∧
  Forall (λ c, c.2 = "String" ∨ c.2 = "Integer") (primary_schema Examples.plain_store) ∧
  filename_glob Examples.plain_store
    = _pattern_to_glob (filename_pattern Examples.plain_store) ∧
  readonly Examples.plain_store
    = default (has_star (split_protocol "/data/{id}.json").2) None ∧
  (has_star (split_protocol "/data/{id}.json").2 = true →
   readonly Examples.plain_store = true).
Proof.
  apply (init_establishes (λ p, p) "/data/{id}.json" false None true None true
           Examples.plain_store).
  vm_compute. reflexivity.
Defined.

Lemma rows_78_paths (row : gmap string string) (p : string) :
  row ∈ df_rows Examples.frame_78 →
  file_of_row Examples.plain_store row = Ok p → (split_protocol p).2 = p.
Proof.
  intros Hrow Hp. cbn in Hrow.
  apply elem_of_cons in Hrow as [->|Hrow].
  - vm_compute in Hp. injection Hp as <-. reflexivity.
  - apply list_elem_of_singleton in Hrow as ->.
    vm_compute in Hp. injection Hp as <-. reflexivity.
Qed.

Lemma rows_78_keys :
  NoDup ((λ row : gmap string string,
            (λ a, row !! a) <$> attrnames Examples.plain_store)
           <$> df_rows Examples.frame_78).
Proof.
  apply (bool_decide_unpack
           (NoDup ((λ row : gmap string string,
                      (λ a, row !! a) <$> attrnames Examples.plain_store)
                     <$> df_rows Examples.frame_78))).
  vm_compute. exact I.
Qed.


Lemma insert_rows_delete_rows_witness :
  ∃ fs'', delete_rows Examples.plain_store Examples.files_78 Examples.frame_78
            = (fs'', Ok tt) ∧
          ∀ q, ((∃ row, row ∈ df_rows Examples.frame_78 ∧
                        file_of_row Examples.plain_store row = Ok q) →
                fs'' !! q = None) ∧
               ((∀ row, row ∈ df_rows Examples.frame_78 →
                        file_of_row Examples.plain_store row ≠ Ok q) →
                fs'' !! q = (∅ : Files) !! q).
Proof.
  apply (insert_rows_delete_rows Examples.match_plain (λ _ _ v, Ok v)
           Examples.plain_store ∅ Examples.files_78 Examples.frame_78).
  - vm_compute. reflexivity.
  - reflexivity.
  - reflexivity.
  - exists "text". split; [apply list_elem_of_further, list_elem_of_here|].
    intros H. apply list_elem_of_singleton in H. discriminate.
  - apply rows_78_keys.
  - apply rows_78_paths.
Defined.

(** A frame with key columns only: [insert_rows] returns and writes no
    file, so that [read_rows] and [delete_rows] for the same index find
    no file to open or to remove. *)
Lemma key_only_frame_example :
  insert_rows Examples.match_plain (λ _ _ v, Ok v) Examples.plain_store ∅
              (mkDF ["id"] [ {[ "id" := "5" ]} ])
    = (∅, Ok tt) ∧
  read_rows Examples.match_plain (λ _ _ v, Ok v) (λ _ _, []) Examples.plain_store ∅
            (Some (mkDF ["id"] [ {[ "id" := "5" ]} ]))
    = Raise FileNotFoundError ∧
  delete_rows Examples.plain_store ∅ (mkDF ["id"] [ {[ "id" := "5" ]} ])
    = (∅, Raise FileNotFoundError).
Proof. repeat split; vm_compute; reflexivity. Qed.

End FiledirStoreFacts.

(** ** Reading and deleting by index in [TableStoreDB] ([database.py]) *)

Module DatabaseFacts.

Import Database Statements.

Local Open Scope Z_scope.

Lemma holds_or3_fold (l : list Sql.tv) :
  Sql.holds (foldr Sql.or3 (Some false) l) = true ↔ Some true ∈ l.
Proof.
  induction l as [|[[|]|] l IH]; cbn.
  - split; [done|]. intros H. by apply elem_of_nil in H.
  - split; [intros _; apply list_elem_of_here|done].
  - destruct (foldr Sql.or3 (Some false) l) as [[|]|]; cbn in *.
    + split; [intros _; apply list_elem_of_further; by apply IH|done].
    + split; [done|]. intros H. apply elem_of_cons in H as [?|H]; [done|]. by apply IH.
    + split; [done|]. intros H. apply elem_of_cons in H as [?|H]; [done|]. by apply IH.
  - destruct (foldr Sql.or3 (Some false) l) as [[|]|]; cbn in *.
    + split; [intros _; apply list_elem_of_further; by apply IH|done].
    + split; [done|]. intros H. apply elem_of_cons in H as [?|H]; [done|]. by apply IH.
    + split; [done|]. intros H. apply elem_of_cons in H as [?|H]; [done|]. by apply IH.
Qed.

Lemma eq3_true (a b : option Z) :
  Sql.eq3 a b = Some true ↔ is_Some a ∧ a = b.
Proof.
  destruct a as [x|], b as [y|]; cbn; try (split; [done|by intros [[? ?] ?]]).
  - split.
    + intros [= H]. apply bool_decide_eq_true in H as ->. eauto.
    + intros [_ [= ->]]. by rewrite bool_decide_eq_true_2.
Qed.

(** The condition of [sql_apply_idx_filter] holds on the rows that have
    the primary key of a row of the frame. *)
Lemma sql_apply_idx_filter_spec (pks : list string) (idx : IndexDF) :
  pks ≠ [] → Forall (λ key, key ∈ columns idx) pks →
  ∃ cond, sql_apply_idx_filter pks idx = Ok cond ∧
          ∀ row, cond row = true ↔ keyed_by pks idx row.
Proof.
  intros Hne Hcols. unfold sql_apply_idx_filter, keyed_by.
  destruct pks as [|key [|key2 pks]]; [done| |].
  - rewrite decide_True by (by apply Forall_inv in Hcols).
    eexists. split; [done|]. intros row. unfold in3.
    rewrite holds_or3_fold, list_elem_of_fmap. split.
    + intros (c & Hc & Hin). apply list_elem_of_fmap in Hin as (i & -> & Hi).
      symmetry in Hc. apply eq3_true in Hc. exists i. split; [done|].
      intros k Hk. by apply list_elem_of_singleton in Hk as ->.
    + intros (i & Hi & Hall). exists (i !! key). split.
      * symmetry. apply eq3_true, Hall, list_elem_of_here.
      * apply list_elem_of_fmap. eauto.
  - rewrite decide_True by (by right).
    eexists. split; [done|]. intros row. unfold tuple_in3.
    rewrite holds_or3_fold, list_elem_of_fmap.
    set (ks := key :: key2 :: pks).
    assert (Hand : ∀ i : KeyRow,
              Sql.and_ (zip_with Sql.eq3 ((λ k, row !! k) <$> ks) ((λ k, i !! k) <$> ks))
              = Some true
              ↔ ∀ k, k ∈ ks → is_Some (row !! k) ∧ row !! k = i !! k).
    { intros i.
      assert (Hz : zip_with Sql.eq3 ((λ k, row !! k) <$> ks) ((λ k, i !! k) <$> ks)
                   = (λ k, Sql.eq3 (row !! k) (i !! k)) <$> ks).
      { clear. induction ks as [|k ks IH]; cbn; [done|]. by rewrite IH. }
      rewrite Hz.
      assert (Hh : ∀ t : Sql.tv, t = Some true ↔ Sql.holds t = true).
      { intros [[|]|]; cbn; split; congruence. }
      rewrite Hh, PlannerFacts.holds_and_, Forall_fmap, Forall_forall.
      split; intros H k Hk; apply eq3_true; by apply H. }
    split.
    + intros (t & Ht & Hin). apply list_elem_of_fmap in Hin as (i & -> & Hi).
      exists i. split; [done|]. by apply Hand.
    + intros (i & Hi & Hall). eexists. split; [symmetry; by apply Hand|].
      apply list_elem_of_fmap. eauto.
Qed.


Lemma chunk_size_bounds (self : TableStoreDB) :
  (0 < length (primary_keys self) ≤ 5000)%nat →
  ∃ cs, _chunk_size self = Ok cs ∧ 0 < cs ≤ 5000 ∧
        cs = 5000 / Z.of_nat (length (primary_keys self)).
Proof.
  intros [H0 H1]. unfold _chunk_size. rewrite decide_False by lia.
  eexists. split; [done|]. split; [|done]. split.
  - apply Z.div_str_pos. lia.
  - apply Z.div_le_upper_bound; lia.
Qed.

Lemma chunk_idx_df_spec (self : TableStoreDB) (idx : IndexDF) :
  (0 < length (primary_keys self) ≤ 5000)%nat →
  Z.of_nat (length (rows idx)) < 2 ^ 53 →
  ∃ chunks, _chunk_idx_df self idx = Ok chunks ∧
            concat (rows <$> chunks) = rows idx ∧
            Forall (λ c, columns c = columns idx) chunks.
Proof.
  intros Hpk Hlen. destruct (chunk_size_bounds self Hpk) as (cs & Hcs & Hpos & _).
  unfold _chunk_idx_df. rewrite Hcs. cbn [mbind result_bind].
  rewrite PlannerFacts.math_ceil_div_exact by lia. cbn [mbind result_bind].
  eexists. split; [done|]. split.
  - destruct idx as [cols rws]. cbn [rows] in *.
    apply BatchingFacts.change_list_batches_concat; [lia|done|].
    apply PlannerFacts.math_ceil_div_exact; lia.
  - apply Forall_fmap, Forall_forall. by intros i _.
Qed.

Lemma keyed_by_chunks (pks : list string) (idx : IndexDF) (chunks : list IndexDF)
    (row : KeyRow) :
  concat (rows <$> chunks) = rows idx →
  keyed_by pks idx row ↔ Exists (λ c, keyed_by pks c row) chunks.
Proof.
  intros Hcat. unfold keyed_by. rewrite <- Hcat, Exists_exists. split.
  - intros (i & Hi & Hall). apply PlannerFacts.elem_of_concat in Hi as (l & Hl & Hi).
    apply list_elem_of_fmap in Hl as (c & -> & Hc). eauto.
  - intros (c & Hc & i & Hi & Hall). exists i. split; [|done].
    apply PlannerFacts.elem_of_concat. exists (rows c). split; [|done].
    apply list_elem_of_fmap. eauto.
Qed.

Lemma chunks_columns (pks : list string) (idx : IndexDF) (chunks : list IndexDF) :
  Forall (λ key, key ∈ columns idx) pks →
  Forall (λ c, columns c = columns idx) chunks →
  Forall (λ c, Forall (λ key, key ∈ columns c) pks) chunks.
Proof.
  intros Hcols H. eapply Forall_impl; [exact H|]. intros c Hc. cbn in Hc. by rewrite Hc.
Qed.

Lemma no_row_keyed_by (pks : list string) (idx : IndexDF) (row : KeyRow) :
  rows idx = [] → ¬ keyed_by pks idx row.
Proof. intros Hrows (i & Hi & _). rewrite Hrows in Hi. by apply elem_of_nil in Hi. Qed.

Section Engine.

Variable bind_param : Z → result unit.
Variable fetch : list KeyRow → list KeyRow.

(** The driver binds every key cell of the frame. *)
Lemma bind_params_Ok (pks : list string) (idx : IndexDF) :
  (∀ r key v, r ∈ rows idx → key ∈ pks → r !! key = Some v → bind_param v = Ok tt) →
  bind_params bind_param pks idx = Ok tt.
Proof.
  intros H. unfold bind_params.
  destruct (mapR_Ok_ex
              (λ r : KeyRow, mapR (λ key, match r !! key with
                                          | Some v => bind_param v
                                          | None => Ok tt
                                          end) pks) (rows idx)) as [us ->]; [|done].
  intros r Hr. apply mapR_Ok_ex. intros key Hkey.
  destruct (r !! key) as [v|] eqn:E; [|eauto]. rewrite (H r key v); eauto.
Qed.

Lemma chunks_bind (pks : list string) (idx : IndexDF) (chunks : list IndexDF) :
  concat (rows <$> chunks) = rows idx →
  (∀ r key v, r ∈ rows idx → key ∈ pks → r !! key = Some v → bind_param v = Ok tt) →
  Forall (λ c, bind_params bind_param pks c = Ok tt) chunks.
Proof.
  intros Hcat H. apply Forall_forall. intros c Hc. apply bind_params_Ok.
  intros r key v Hr. apply H. rewrite <- Hcat.
  apply PlannerFacts.elem_of_concat. exists (rows c). split; [|done].
  apply list_elem_of_fmap. eauto.
Qed.

Lemma delete_chunks_spec (pks : list string) (chunks : list IndexDF)
    (table : list KeyRow) :
  pks ≠ [] → Forall (λ c, Forall (λ key, key ∈ columns c) pks) chunks →
  Forall (λ c, bind_params bind_param pks c = Ok tt) chunks →
  delete_chunks bind_param pks table chunks
  = (filter (λ row, ¬ Exists (λ c, keyed_by pks c row) chunks) table, Ok tt).
Proof.
  intros Hne. revert table.
  induction chunks as [|c chunks IH]; intros table Hcols Hbind.
  - cbn. f_equal. symmetry. apply PlannerFacts.filter_all, Forall_forall.
    intros row _. by intros ?%Exists_nil.
  - apply Forall_cons in Hcols as [Hc Hcols].
    apply Forall_cons in Hbind as [Hb Hbind]. cbn [delete_chunks].
    destruct (sql_apply_idx_filter_spec pks c Hne Hc) as (cond & -> & Hcond).
    cbn [mbind result_bind]. rewrite Hb. cbn [mbind result_bind].
    rewrite IH by done. f_equal. rewrite list_filter_filter.
    apply list_filter_iff. intros row. rewrite Exists_cons, <- Hcond.
    destruct (cond row); split.
    + by intros [_ ?].
    + intros H. exfalso. apply H. by left.
    + intros [H _] [?|?]; done.
    + intros H. split; [|done]. intros ?. apply H. by right.
Qed.

Lemma read_chunks_spec (pks : list string) (chunks : list IndexDF)
    (table : list KeyRow) :
  pks ≠ [] → Forall (λ c, Forall (λ key, key ∈ columns c) pks) chunks →
  Forall (λ c, bind_params bind_param pks c = Ok tt) chunks →
  mapR (λ chunk_idx,
          cond ← sql_apply_idx_filter pks chunk_idx;
          _ ← bind_params bind_param pks chunk_idx;
          Ok (fetch (filter (λ row, cond row = true) table))) chunks
  = Ok ((λ c, fetch (filter (keyed_by pks c) table)) <$> chunks).
Proof.
  intros Hne. induction chunks as [|c chunks IH]; intros Hcols Hbind; [done|].
  apply Forall_cons in Hcols as [Hc Hcols].
  apply Forall_cons in Hbind as [Hb Hbind]. cbn [mapR].
  destruct (sql_apply_idx_filter_spec pks c Hne Hc) as (cond & -> & Hcond).
  cbn [mbind result_bind]. rewrite Hb. cbn [mbind result_bind].
  rewrite IH by done. cbn. do 3 f_equal.
  apply list_filter_iff. intros row. apply Hcond.
Qed.

Lemma read_rows_chunks (self : TableStoreDB) (idx : IndexDF) :
  (0 < length (primary_keys self) ≤ 5000)%nat →
  Forall (λ key, key ∈ columns idx) (primary_keys self) →
  Z.of_nat (length (rows idx)) < 2 ^ 53 →
  (∀ r key v, r ∈ rows idx → key ∈ primary_keys self → r !! key = Some v →
              bind_param v = Ok tt) →
  rows idx ≠ [] →
  ∃ chunks, _chunk_idx_df self idx = Ok chunks ∧
            concat (rows <$> chunks) = rows idx ∧
            read_rows bind_param fetch self (Some idx)
            = Ok (mkIdx (col_name <$> data_sql_schema self)
                        (concat ((λ c, fetch (filter (keyed_by (primary_keys self) c)
                                                     (data_table self))) <$> chunks))).
Proof.
  intros Hpk Hcols Hlen Hbind Hrows.
  assert (Hne : primary_keys self ≠ [])
    by (destruct (primary_keys self); cbn in *; [lia|done]).
  destruct (chunk_idx_df_spec self idx Hpk Hlen) as (chunks & Hch & Hcat & Hc).
  exists chunks. split; [done|]. split; [done|].
  unfold read_rows. rewrite decide_False by (by destruct (rows idx)).
  rewrite Hch. cbn [mbind result_bind].
  rewrite read_chunks_spec;
    [done|done|by apply (chunks_columns _ idx)|by apply (chunks_bind _ idx)].
Qed.

Lemma elem_of_read_chunks (pks : list string) (idx : IndexDF) (chunks : list IndexDF)
    (table : list KeyRow) (row : KeyRow) :
  (∀ l, fetch l ≡ₚ l) →
  concat (rows <$> chunks) = rows idx →
  row ∈ concat ((λ c, fetch (filter (keyed_by pks c) table)) <$> chunks)
  ↔ row ∈ table ∧ keyed_by pks idx row.
Proof.
  intros Hperm Hcat. rewrite PlannerFacts.elem_of_concat.
  rewrite (keyed_by_chunks _ idx chunks) by done. rewrite Exists_exists. split.
  - intros (l & Hl & Hrow). apply list_elem_of_fmap in Hl as (c & -> & Hcin).
    rewrite Hperm in Hrow. apply list_elem_of_filter in Hrow as [? ?]. eauto.
  - intros [Hrow (c & Hcin & Hk)]. eexists. split.
    + apply list_elem_of_fmap. eauto.
    + rewrite Hperm. by apply list_elem_of_filter.
Qed.

(** X25.  [TableStoreDB.delete_rows] on a table with one to 5000
    primary-key columns and an index frame that has them as columns,
    fewer than [2^53] rows and key cells that the driver binds: it
    deletes the rows that have the primary key of a row of the frame
    and no other row, in however many chunks; and [read_rows] for that
    index returns no row afterwards, in whatever order the database
    returns rows. *)
Theorem delete_rows_removes_keyed (self : TableStoreDB) (idx : IndexDF) :
  (0 < length (primary_keys self) ≤ 5000)%nat →
  Forall (λ key, key ∈ columns idx) (primary_keys self) →
  Z.of_nat (length (rows idx)) < 2 ^ 53 →
  (∀ r key v, r ∈ rows idx → key ∈ primary_keys self → r !! key = Some v →
              bind_param v = Ok tt) →
  (∀ l, fetch l ≡ₚ l) →
  delete_rows bind_param self (Some idx)
    = (with_table self
         (filter (λ row, ¬ keyed_by (primary_keys self) idx row) (data_table self)),
       Ok tt) ∧
  ∃ df, read_rows bind_param fetch (delete_rows bind_param self (Some idx)).1 (Some idx)
        = Ok df ∧ rows df = [].
Proof.
  intros Hpk Hcols Hlen Hbind Hperm.
  assert (Hne : primary_keys self ≠ [])
    by (destruct (primary_keys self); cbn in *; [lia|done]).
  assert (Hdel : delete_rows bind_param self (Some idx)
    = (with_table self
         (filter (λ row, ¬ keyed_by (primary_keys self) idx row) (data_table self)),
       Ok tt)).
  { unfold delete_rows. case_decide as Hlen0.
    - f_equal. rewrite PlannerFacts.filter_all; [by destruct self|].
      apply Forall_forall. intros row _. apply no_row_keyed_by.
      by destruct (rows idx).
    - destruct (chunk_idx_df_spec self idx Hpk Hlen) as (chunks & -> & Hcat & Hc).
      rewrite delete_chunks_spec;
        [|done|by apply (chunks_columns _ idx)|by apply (chunks_bind _ idx)].
      f_equal. f_equal. apply list_filter_iff. intros row.
      by rewrite (keyed_by_chunks _ idx chunks). }
  split; [done|]. rewrite Hdel. cbn [fst].
  set (self' := with_table self _).
  destruct (rows idx) as [|i l] eqn:Hrows.
  - unfold read_rows. rewrite Hrows. cbn. eauto.
  - destruct (read_rows_chunks self' idx Hpk Hcols) as (chunks & _ & Hcat & ->);
      [by rewrite Hrows|by rewrite Hrows|by rewrite Hrows|].
    eexists. split; [done|]. cbn [rows].
    apply elem_of_nil_inv. intros row Hrow.
    apply (elem_of_read_chunks _ idx) in Hrow as [Hrow Hkey]; [|done|done].
    unfold self' in Hrow. cbn in Hrow.
    apply list_elem_of_filter in Hrow as [Hnot _]. by apply Hnot.
Qed.

(** X26.  [TableStoreDB.read_rows] by index, on such a table and frame:
    the frame it returns has the columns of the schema, and a row is in
    it exactly when it is a row of the table with the primary key of a
    row of the index; when the index fits one chunk, the rows of the
    frame are those rows of the table, each as often as the table holds
    it, in the order in which the database returns them. *)
Theorem read_rows_returns_keyed (self : TableStoreDB) (idx : IndexDF) :
  (0 < length (primary_keys self) ≤ 5000)%nat →
  Forall (λ key, key ∈ columns idx) (primary_keys self) →
  Z.of_nat (length (rows idx)) < 2 ^ 53 →
  (∀ r key v, r ∈ rows idx → key ∈ primary_keys self → r !! key = Some v →
              bind_param v = Ok tt) →
  (∀ l, fetch l ≡ₚ l) →
  ∃ df, read_rows bind_param fetch self (Some idx) = Ok df ∧
        columns df = col_name <$> data_sql_schema self ∧
        (∀ row, row ∈ rows df ↔
                row ∈ data_table self ∧ keyed_by (primary_keys self) idx row) ∧
        (Z.of_nat (length (rows idx)) ≤ 5000 / Z.of_nat (length (primary_keys self)) →
         rows df ≡ₚ filter (keyed_by (primary_keys self) idx) (data_table self)).
Proof.
  intros Hpk Hcols Hlen Hbind Hperm.
  destruct (rows idx) as [|i0 l0] eqn:Hrows.
  - unfold read_rows. rewrite Hrows. cbn. eexists. split; [done|]. split; [done|].
    split.
    + intros row. split; [intros H; by apply elem_of_nil in H|].
      intros [_ H]. by apply no_row_keyed_by in H.
    + intros _. rewrite ComputeFacts.filter_none; [done|]. intros row _.
      by apply no_row_keyed_by.
  - destruct (read_rows_chunks self idx Hpk Hcols) as (chunks & Hch & Hcat & ->);
      [by rewrite Hrows|by rewrite Hrows|by rewrite Hrows|].
    eexists. split; [done|]. split; [done|]. cbn [rows]. split.
    + intros row. by apply elem_of_read_chunks.
    + intros Hone. rewrite <- Hrows in Hone.
      destruct (chunk_size_bounds self Hpk) as (cs & Hcs & Hpos & ->).
      unfold _chunk_idx_df in Hch. rewrite Hcs in Hch. cbn [mbind result_bind] in Hch.
      assert (Hn : Planner.math_ceil_div (Z.of_nat (length (rows idx)))
                     (5000 / Z.of_nat (length (primary_keys self))) = Ok 1).
      { assert (0 < Z.of_nat (length (rows idx)) < 2 ^ 53)
          by (rewrite Hrows; split; [cbn; lia|done]).
        rewrite PlannerFacts.math_ceil_div_exact by lia.
        f_equal. apply PlannerFacts.ceil_unique; lia. }
      rewrite Hn in Hch. cbn in Hch. injection Hch as <-. cbn.
      rewrite app_nil_r, Hperm. apply Permutation_refl'. apply list_filter_iff.
      intros row. unfold keyed_by. cbn. rewrite drop_0, take_ge; [done|lia].
Qed.

(** X27.  A table without a primary-key column: [delete_rows] and
    [read_rows] by an index that is not empty raise
    [ZeroDivisionError], from [_chunk_size], and leave the table as it
    is; with an empty index both return at once, [read_rows] an empty
    frame with the columns of the schema. *)
Theorem no_primary_key_raises (self : TableStoreDB) (idx : IndexDF) :
  primary_keys self = [] →
  (rows idx ≠ [] →
   delete_rows bind_param self (Some idx) = (self, Raise ZeroDivisionError) ∧
   read_rows bind_param fetch self (Some idx) = Raise ZeroDivisionError) ∧
  (rows idx = [] →
   delete_rows bind_param self (Some idx) = (self, Ok tt) ∧
   read_rows bind_param fetch self (Some idx)
   = Ok (mkIdx (col_name <$> data_sql_schema self) [])).
Proof.
  intros Hpk. split; intros Hrows.
  - assert (Hl : length (rows idx) ≠ 0%nat) by (by destruct (rows idx)).
    unfold delete_rows, read_rows, _chunk_idx_df, _chunk_size. rewrite Hpk.
    split; (case_decide; [done|reflexivity]).
  - unfold delete_rows, read_rows. by rewrite Hrows.
Qed.

End Engine.

(** Uses of X25 and X26 on the table keyed by [id], with the index that
    names the key 1, a driver that binds the ints of 64 bits and a
    database that returns rows in the reverse of the order in which the
    table lists them; and of X27 on the table without a key. *)
Lemma db_table_keys :
  (0 < length (primary_keys Examples.db_table) ≤ 5000)%nat ∧
  Forall (λ key, key ∈ columns Examples.idx_1) (primary_keys Examples.db_table) ∧
  Z.of_nat (length (rows Examples.idx_1)) < 2 ^ 53 ∧
  (∀ r key v, r ∈ rows Examples.idx_1 → key ∈ primary_keys Examples.db_table →
              r !! key = Some v → Examples.sqlite3_bind v = Ok tt) ∧
  (∀ l : list KeyRow, reverse l ≡ₚ l).
Proof.
  split; [vm_compute; lia|]. split; [repeat constructor|]. split; [reflexivity|].
  split; [|apply reverse_Permutation].
  intros r key v Hr Hkey Hv.
  apply list_elem_of_singleton in Hr as ->.
  apply list_elem_of_singleton in Hkey as ->.
  rewrite lookup_singleton_eq in Hv. by injection Hv as <-.
Qed.

Lemma delete_rows_removes_keyed_witness :
  delete_rows Examples.sqlite3_bind Examples.db_table (Some Examples.idx_1)
    = (with_table Examples.db_table
         (filter (λ row, ¬ keyed_by (primary_keys Examples.db_table) Examples.idx_1 row)
                 (data_table Examples.db_table)),
       Ok tt) ∧
  ∃ df, read_rows Examples.sqlite3_bind reverse
          (delete_rows Examples.sqlite3_bind Examples.db_table (Some Examples.idx_1)).1
          (Some Examples.idx_1) = Ok df ∧ rows df = [].
Proof.
  apply (delete_rows_removes_keyed Examples.sqlite3_bind reverse
           Examples.db_table Examples.idx_1);
    apply db_table_keys.
Defined.

Lemma read_rows_returns_keyed_witness :
  ∃ df, read_rows Examples.sqlite3_bind reverse Examples.db_table (Some Examples.idx_1)
        = Ok df ∧
        columns df = col_name <$> data_sql_schema Examples.db_table ∧
        (∀ row, row ∈ rows df ↔
                row ∈ data_table Examples.db_table ∧
                keyed_by (primary_keys Examples.db_table) Examples.idx_1 row) ∧
        (Z.of_nat (length (rows Examples.idx_1))
           ≤ 5000 / Z.of_nat (length (primary_keys Examples.db_table)) →
         rows df ≡ₚ filter (keyed_by (primary_keys Examples.db_table) Examples.idx_1)
                           (data_table Examples.db_table)).
Proof.
  apply (read_rows_returns_keyed Examples.sqlite3_bind reverse
           Examples.db_table Examples.idx_1);
    apply db_table_keys.
Defined.

Lemma no_primary_key_raises_witness :
  (rows Examples.idx_1 ≠ [] →
   delete_rows Examples.sqlite3_bind Examples.db_no_key (Some Examples.idx_1)
     = (Examples.db_no_key, Raise ZeroDivisionError) ∧
   read_rows Examples.sqlite3_bind reverse Examples.db_no_key (Some Examples.idx_1)
     = Raise ZeroDivisionError) ∧
  (rows Examples.idx_1 = [] →
   delete_rows Examples.sqlite3_bind Examples.db_no_key (Some Examples.idx_1)
     = (Examples.db_no_key, Ok tt) ∧
   read_rows Examples.sqlite3_bind reverse Examples.db_no_key (Some Examples.idx_1)
     = Ok (mkIdx (col_name <$> data_sql_schema Examples.db_no_key) [])).
Proof.
  apply (no_primary_key_raises Examples.sqlite3_bind reverse
           Examples.db_no_key Examples.idx_1).
  reflexivity.
Defined.

(** What the two operations give on that table: the row with the key 1
    is read, and it is the row that is deleted.  With a key beyond 64
    bits in the index the driver raises, and nothing is read or
    deleted. *)
Lemma db_table_examples :
  read_rows Examples.sqlite3_bind reverse Examples.db_table (Some Examples.idx_1)
    = Ok (mkIdx ["id"; "v"] [ {[ "id" := 1; "v" := 10 ]} ]) ∧
  data_table (delete_rows Examples.sqlite3_bind Examples.db_table
                          (Some Examples.idx_1)).1
    = [ {[ "id" := 2; "v" := 20 ]} ] ∧
  delete_rows Examples.sqlite3_bind Examples.db_table (Some Examples.idx_big)
    = (Examples.db_table, Raise OverflowError) ∧
  read_rows Examples.sqlite3_bind reverse Examples.db_table (Some Examples.idx_big)
    = Raise OverflowError.
Proof. repeat split; vm_compute; reflexivity. Qed.

End DatabaseFacts.

(** ** Labels on the command line ([cli.py]) *)

Module CliFacts.

Import Cli Statements.

Local Open Scope string_scope.

Lemma split_not_nil (sep : ascii) (s : string) : split sep s ≠ [].
Proof.
  induction s as [|c r IH]; cbn; [done|].
  case_decide; [done|]. by destruct (split sep r).
Qed.

Lemma join_cons (sep : ascii) (w : string) (ws : list string) :
  ws ≠ [] → join sep (w :: ws) = w +:+ String sep (join sep ws).
Proof. by destruct ws. Qed.

Lemma join_split (sep : ascii) (s : string) : join sep (split sep s) = s.
Proof.
  induction s as [|c r IH]; cbn [split]; [done|].
  case_decide as Hc.
  - rewrite join_cons by apply split_not_nil. rewrite IH. by subst c.
  - pose proof (split_not_nil sep r) as Hne.
    destruct (split sep r) as [|w ws]; [done|].
    destruct ws as [|w' ws].
    + cbn in *. by rewrite IH.
    + rewrite join_cons by done. rewrite join_cons in IH by done.
      rewrite <- IH. reflexivity.
Qed.

Lemma split_parts (sep : ascii) (s : string) :
  Forall (λ w, contains sep w = false) (split sep s).
Proof.
  induction s as [|c r IH]; cbn [split]; [by repeat constructor|].
  case_decide as Hc; [by constructor|].
  destruct (split sep r) as [|w ws]; [by repeat constructor; cbn; rewrite decide_False|].
  apply Forall_cons in IH as [Hw Hws]. constructor; [|done].
  cbn. by rewrite decide_False.
Qed.

Lemma contains_app (sep : ascii) (a b : string) :
  contains sep (a +:+ b) = contains sep a || contains sep b.
Proof.
  induction a as [|c a IH]; [reflexivity|].
  change (String c a +:+ b) with (String c (a +:+ b)). cbn [contains].
  case_decide; [done|]. apply IH.
Qed.

Lemma parse_pairs_spec (kvs : list string) (labels : list (string * string)) :
  parse_pairs kvs = Parsed labels →
  kvs = (λ kv, kv.1 +:+ String "="%char kv.2) <$> labels ∧
  Forall (λ kv, contains "="%char kv.1 = false ∧ contains "="%char kv.2 = false) labels.
Proof.
  revert labels. induction kvs as [|kv kvs IH]; intros labels; cbn [parse_pairs].
  - intros [= <-]. split; [done|constructor].
  - destruct (contains "="%char kv); cbn [negb]; [|done].
    pose proof (join_split "="%char kv) as Hj.
    pose proof (split_parts "="%char kv) as Hp.
    destruct (split "="%char kv) as [|k [|v [|x l]]]; try done.
    destruct (parse_pairs kvs) as [rest| |]; try done.
    intros [= <-]. destruct (IH rest eq_refl) as [-> Hall].
    apply Forall_cons in Hp as [Hk Hv]. apply Forall_cons in Hv as [Hv _].
    split; [cbn; by rewrite <- Hj|]. by constructor.
Qed.

Lemma split_no_sep (sep : ascii) (w : string) :
  contains sep w = false → split sep w = [w].
Proof.
  induction w as [|c w IH]; cbn [split contains]; [done|].
  case_decide; [done|]. intros Hw. by rewrite (IH Hw).
Qed.

Lemma split_app_sep (sep : ascii) (a b : string) :
  contains sep a = false → split sep (a +:+ String sep b) = a :: split sep b.
Proof.
  induction a as [|c a IH]; intros Ha.
  - change ("" +:+ String sep b) with (String sep b). cbn [split].
    by rewrite decide_True.
  - change (String c a +:+ String sep b) with (String c (a +:+ String sep b)).
    cbn [split contains] in *. case_decide; [done|]. by rewrite (IH Ha).
Qed.

Lemma split_join (sep : ascii) (ws : list string) :
  ws ≠ [] → Forall (λ w, contains sep w = false) ws → split sep (join sep ws) = ws.
Proof.
  induction ws as [|w ws IH]; [done|]. intros _ Hall.
  apply Forall_cons in Hall as [Hw Hws]. destruct ws as [|w' ws].
  - by apply split_no_sep.
  - rewrite join_cons by done. rewrite split_app_sep by done.
    by rewrite IH.
Qed.

Lemma parse_pairs_formatted (labels : list (string * string)) :
  Forall (λ kv, contains "="%char kv.1 = false ∧ contains "="%char kv.2 = false) labels →
  parse_pairs ((λ kv, kv.1 +:+ String "="%char kv.2) <$> labels) = Parsed labels.
Proof.
  induction labels as [|[k v] labels IH]; intros Hall; [done|].
  apply Forall_cons in Hall as [[Hk Hv] Hall]. cbn in Hk, Hv.
  cbn [fmap list_fmap parse_pairs fst snd].
  rewrite contains_app. cbn [contains]. rewrite decide_True by done.
  rewrite orb_true_r. cbn [negb].
  rewrite split_app_sep by done. rewrite split_no_sep by done.
  by rewrite (IH Hall).
Qed.

(** X28.  [parse_labels] returns a list of pairs exactly when the text
    is the pairs written [key=value] and joined by commas, no key and
    no value having a comma or an equals sign in it: nothing of the text
    is dropped and nothing is added. *)
Theorem parse_labels_spec (s : string) (labels : list (string * string)) :
  parse_labels s = Parsed labels ↔
  s = join ","%char ((λ kv, kv.1 +:+ String "="%char kv.2) <$> labels) ∧
  Forall (λ kv, contains ","%char kv.1 = false ∧ contains "="%char kv.1 = false ∧
                contains ","%char kv.2 = false ∧ contains "="%char kv.2 = false)
         labels.
Proof.
  unfold parse_labels. split.
  - case_decide as Hs.
    + intros [= <-]. subst s. split; [done|constructor].
    + intros H. apply parse_pairs_spec in H as [Hkvs Hall].
      pose proof (join_split ","%char s) as Hj.
      pose proof (split_parts ","%char s) as Hp.
      rewrite Hkvs in Hj, Hp. split; [done|].
      rewrite Forall_fmap in Hp.
      rewrite Forall_forall in Hp, Hall. apply Forall_forall. intros kv Hkv.
      specialize (Hp kv Hkv). specialize (Hall kv Hkv). cbn in Hp.
      rewrite contains_app in Hp. cbn in Hp. rewrite decide_False in Hp by done.
      apply orb_false_iff in Hp as [? ?]. tauto.
  - intros [-> Hall]. destruct labels as [|kv labels]; [done|].
    rewrite decide_False.
    2:{ destruct labels; cbn; by destruct (kv.1). }
    rewrite split_join.
    + apply parse_pairs_formatted. eapply Forall_impl; [exact Hall|].
      intros x. cbn. tauto.
    + done.
    + apply Forall_fmap. eapply Forall_impl; [exact Hall|].
      intros x (H1 & _ & H3 & _). cbn. rewrite contains_app. cbn.
      rewrite decide_False by done. by rewrite H1, H3.
Qed.

(** Two labels; a pair without [=]; a pair with two [=]. *)
Lemma parse_labels_examples :
  parse_labels "a=1,b=2" = Parsed [("a", "1"); ("b", "2")] ∧
  parse_labels "a=1,b" = RaiseException ∧
  parse_labels "a=b=c" = RaiseValueError.
Proof. repeat split. Qed.

End CliFacts.
